(** * Leak-worm lifecycle controller and its stage-reactive subscribers

    A shallow embedding of [decay-core.js] (the lifecycle controller), of
    the stage mappings of the beam scanner and of the particle field, and of
    the volume control of the audio engine, with the properties the design
    notes state about them.

    Conventions of the embedding:
    - [Date.now()] is an integer number of milliseconds ([Z]); every
      method that reads the clock takes the reading as its first argument;
    - a JavaScript number that results from a division or from an array
      lookup is a [jsnum]: an exact rational, an infinity or NaN. The
      IEEE rounding of a finite quotient is not modelled;
    - a nullable field is an [option];
    - the host's timer table ([setInterval], [setTimeout]) is part of the
      state, and the closures handed to it are first-order descriptions;
    - a subscriber or an external completion callback is opaque: calling
      it is recorded in the trace, it may throw, and it does not call back
      into the controller. *)

From Stdlib Require Import ZArith QArith Qround Lia Lqa.
From stdpp Require Import base option list gmap strings.

Local Open Scope string_scope.
Local Open Scope list_scope.
Local Open Scope Z_scope.

(** ** JavaScript numbers *)

Module JS.

Inductive jsnum : Type :=
  | Fin (q : Q)
  | PosInf
  | NegInf
  | NaN.

(** [a / b] for two integer operands. *)
Definition div_Z (a b : Z) : jsnum :=
  match b with
  | Z0 => if a =? 0 then NaN else if 0 <? a then PosInf else NegInf
  | Zpos p => Fin (a # p)
  | Zneg p => Fin ((- a) # p)
  end.

(** [Math.min(x, 1.0)]. *)
Definition min_one (x : jsnum) : jsnum :=
  match x with
  | Fin q => if Qle_bool 1 q then Fin 1 else Fin q
  | PosInf => Fin 1
  | NegInf => NegInf
  | NaN => NaN
  end.

(** [x >= 1.0]; a comparison with NaN is false. *)
Definition ge_one (x : jsnum) : bool :=
  match x with
  | Fin q => Qle_bool 1 q
  | PosInf => true
  | NegInf | NaN => false
  end.

(** [x <= y] as a proposition; NaN is related to nothing. *)
Definition num_le (x y : jsnum) : Prop :=
  match x, y with
  | NaN, _ | _, NaN => False
  | NegInf, _ => True
  | _, PosInf => True
  | Fin p, Fin q => (p <= q)%Q
  | _, _ => False
  end.

(** [x == 0] as a proposition. *)
Definition is_zero (x : jsnum) : Prop :=
  match x with
  | Fin q => (q == 0)%Q
  | _ => False
  end.

(** [x || d] on integers: 0 is falsy. *)
Definition or_Z (x d : Z) : Z := if x =? 0 then d else x.

(** A nullable number used as an operand: [null] converts to 0. *)
Definition to_number (x : option Z) : Z := default 0 x.

End JS.

(** ** config.js *)

Module CONFIG.

Record standard_timings : Type := {
  healthy : Z;
  panic : Z;
  decay : Z;
  death : Z;
  total : Z
}.

Record pirate_timings : Type := {
  fadeOutDuration : Z;
  colorShiftDuration : Z;
  fadeInDuration : Z
}.

Definition standard : standard_timings :=
  {| healthy := 24000; panic := 3000; decay := 3000; death := 2000;
     total := 32000 |}.

Definition pirate : pirate_timings :=
  {| fadeOutDuration := 3000; colorShiftDuration := 7000;
     fadeInDuration := 2000 |}.

End CONFIG.

(** ** decay-core.js: the lifecycle controller *)

Module Decay.
Import JS.

(** The closures the controller stores or schedules. *)
Inductive callback : Type :=
  | CbDeath                 (* completion closure of [beginDeath] *)
  | CbPirate                (* completion closure of [enterPirateMode] *)
  | CbExternal (n : nat).   (* a function supplied by a caller *)

Inductive interval_cb : Type :=
  | IvUpdate                (* [() => this.update()] *)
  | IvUpdateTransition.     (* [() => this.updateTransition()] *)

Inductive timeout_cb : Type :=
  | ToGasp                              (* the 75% closure of [beginDeath] *)
  | ToFade (onFadeComplete : option nat). (* the closure of [enterPirateMode] *)

(** A subscriber: an identity and whether it throws on a given call. *)
Record listener : Type := {
  lid : nat;
  lthrows : option string -> jsnum -> bool
}.

(** An argument of [subscribe]. *)
Inductive jsval : Type :=
  | VFunction (l : listener)
  | VNotCallable.

Inductive event : Type :=
  | EvNotify (l : nat) (st : option string) (p : jsnum)
  | EvCallback (cb : callback)
  | EvHidePage
  | EvPrepareDeathScreen
  | EvFadeComplete (n : nat).

Record controller : Type := {
  stage : option string;
  progress : jsnum;
  lastInteraction : option Z;
  timer : option nat;
  listeners : list listener;
  isDead : bool;
  permanentPirateMode : bool;
  isTransitioning : bool;
  transitionStartTime : option Z;
  transitionDuration : option Z;
  transitionCallback : option callback;
  transitionToStage : option string;
  previousStage : option string
}.

(** The controller together with the host's timer table and the trace of
    the calls that leave the controller. *)
Record world : Type := {
  ctl : controller;
  intervals : gmap nat interval_cb;
  timeouts : gmap nat (Z * timeout_cb);
  next_id : nat;
  trace : list event
}.

(** *** Field assignments *)

Definition set_stage (v : option string) (c : controller) : controller :=
  {| stage := v; progress := progress c; lastInteraction := lastInteraction c;
     timer := timer c; listeners := listeners c; isDead := isDead c;
     permanentPirateMode := permanentPirateMode c;
     isTransitioning := isTransitioning c;
     transitionStartTime := transitionStartTime c;
     transitionDuration := transitionDuration c;
     transitionCallback := transitionCallback c;
     transitionToStage := transitionToStage c;
     previousStage := previousStage c |}.

Definition set_progress (v : jsnum) (c : controller) : controller :=
  {| stage := stage c; progress := v; lastInteraction := lastInteraction c;
     timer := timer c; listeners := listeners c; isDead := isDead c;
     permanentPirateMode := permanentPirateMode c;
     isTransitioning := isTransitioning c;
     transitionStartTime := transitionStartTime c;
     transitionDuration := transitionDuration c;
     transitionCallback := transitionCallback c;
     transitionToStage := transitionToStage c;
     previousStage := previousStage c |}.

Definition set_lastInteraction (v : option Z) (c : controller) : controller :=
  {| stage := stage c; progress := progress c; lastInteraction := v;
     timer := timer c; listeners := listeners c; isDead := isDead c;
     permanentPirateMode := permanentPirateMode c;
     isTransitioning := isTransitioning c;
     transitionStartTime := transitionStartTime c;
     transitionDuration := transitionDuration c;
     transitionCallback := transitionCallback c;
     transitionToStage := transitionToStage c;
     previousStage := previousStage c |}.

Definition set_timer (v : option nat) (c : controller) : controller :=
  {| stage := stage c; progress := progress c;
     lastInteraction := lastInteraction c;
     timer := v; listeners := listeners c; isDead := isDead c;
     permanentPirateMode := permanentPirateMode c;
     isTransitioning := isTransitioning c;
     transitionStartTime := transitionStartTime c;
     transitionDuration := transitionDuration c;
     transitionCallback := transitionCallback c;
     transitionToStage := transitionToStage c;
     previousStage := previousStage c |}.

Definition set_listeners (v : list listener) (c : controller) : controller :=
  {| stage := stage c; progress := progress c;
     lastInteraction := lastInteraction c;
     timer := timer c; listeners := v; isDead := isDead c;
     permanentPirateMode := permanentPirateMode c;
     isTransitioning := isTransitioning c;
     transitionStartTime := transitionStartTime c;
     transitionDuration := transitionDuration c;
     transitionCallback := transitionCallback c;
     transitionToStage := transitionToStage c;
     previousStage := previousStage c |}.

Definition set_isDead (v : bool) (c : controller) : controller :=
  {| stage := stage c; progress := progress c;
     lastInteraction := lastInteraction c;
     timer := timer c; listeners := listeners c; isDead := v;
     permanentPirateMode := permanentPirateMode c;
     isTransitioning := isTransitioning c;
     transitionStartTime := transitionStartTime c;
     transitionDuration := transitionDuration c;
     transitionCallback := transitionCallback c;
     transitionToStage := transitionToStage c;
     previousStage := previousStage c |}.

Definition set_isTransitioning (v : bool) (c : controller) : controller :=
  {| stage := stage c; progress := progress c;
     lastInteraction := lastInteraction c;
     timer := timer c; listeners := listeners c; isDead := isDead c;
     permanentPirateMode := permanentPirateMode c;
     isTransitioning := v;
     transitionStartTime := transitionStartTime c;
     transitionDuration := transitionDuration c;
     transitionCallback := transitionCallback c;
     transitionToStage := transitionToStage c;
     previousStage := previousStage c |}.

Definition set_transitionStartTime (v : option Z) (c : controller)
  : controller :=
  {| stage := stage c; progress := progress c;
     lastInteraction := lastInteraction c;
     timer := timer c; listeners := listeners c; isDead := isDead c;
     permanentPirateMode := permanentPirateMode c;
     isTransitioning := isTransitioning c;
     transitionStartTime := v;
     transitionDuration := transitionDuration c;
     transitionCallback := transitionCallback c;
     transitionToStage := transitionToStage c;
     previousStage := previousStage c |}.

Definition set_transitionDuration (v : option Z) (c : controller)
  : controller :=
  {| stage := stage c; progress := progress c;
     lastInteraction := lastInteraction c;
     timer := timer c; listeners := listeners c; isDead := isDead c;
     permanentPirateMode := permanentPirateMode c;
     isTransitioning := isTransitioning c;
     transitionStartTime := transitionStartTime c;
     transitionDuration := v;
     transitionCallback := transitionCallback c;
     transitionToStage := transitionToStage c;
     previousStage := previousStage c |}.

Definition set_transitionCallback (v : option callback) (c : controller)
  : controller :=
  {| stage := stage c; progress := progress c;
     lastInteraction := lastInteraction c;
     timer := timer c; listeners := listeners c; isDead := isDead c;
     permanentPirateMode := permanentPirateMode c;
     isTransitioning := isTransitioning c;
     transitionStartTime := transitionStartTime c;
     transitionDuration := transitionDuration c;
     transitionCallback := v;
     transitionToStage := transitionToStage c;
     previousStage := previousStage c |}.

Definition set_transitionToStage (v : option string) (c : controller)
  : controller :=
  {| stage := stage c; progress := progress c;
     lastInteraction := lastInteraction c;
     timer := timer c; listeners := listeners c; isDead := isDead c;
     permanentPirateMode := permanentPirateMode c;
     isTransitioning := isTransitioning c;
     transitionStartTime := transitionStartTime c;
     transitionDuration := transitionDuration c;
     transitionCallback := transitionCallback c;
     transitionToStage := v;
     previousStage := previousStage c |}.

Definition set_previousStage (v : option string) (c : controller)
  : controller :=
  {| stage := stage c; progress := progress c;
     lastInteraction := lastInteraction c;
     timer := timer c; listeners := listeners c; isDead := isDead c;
     permanentPirateMode := permanentPirateMode c;
     isTransitioning := isTransitioning c;
     transitionStartTime := transitionStartTime c;
     transitionDuration := transitionDuration c;
     transitionCallback := transitionCallback c;
     transitionToStage := transitionToStage c;
     previousStage := v |}.

Definition with_ctl (f : controller -> controller) (w : world) : world :=
  {| ctl := f (ctl w); intervals := intervals w; timeouts := timeouts w;
     next_id := next_id w; trace := trace w |}.

Definition emit (es : list event) (w : world) : world :=
  {| ctl := ctl w; intervals := intervals w; timeouts := timeouts w;
     next_id := next_id w; trace := trace w ++ es |}.

(** *** The host's timers *)

(** [setInterval(cb, 100)]: a fresh identifier, returned to the caller. *)
Definition set_interval (cb : interval_cb) (w : world) : nat * world :=
  (next_id w,
   {| ctl := ctl w; intervals := <[next_id w := cb]> (intervals w);
      timeouts := timeouts w; next_id := S (next_id w); trace := trace w |}).

(** [clearInterval(id)]; [clearInterval(null)] does nothing. *)
Definition clear_interval (t : option nat) (w : world) : world :=
  match t with
  | Some id =>
      {| ctl := ctl w; intervals := delete id (intervals w);
         timeouts := timeouts w; next_id := next_id w; trace := trace w |}
  | None => w
  end.

(** [setTimeout(cb, delay)] called at time [now - delay]: the callback is
    due at [due]. The identifier is dropped by every caller. *)
Definition set_timeout (cb : timeout_cb) (due : Z) (w : world) : world :=
  {| ctl := ctl w; intervals := intervals w;
     timeouts := <[next_id w := (due, cb)]> (timeouts w);
     next_id := S (next_id w); trace := trace w |}.

(** *** Broadcast *)

Inductive completion : Type := Normal | Throw.

(** Calling one subscriber: the call happens, then it may throw. *)
Definition call_listener (st : option string) (p : jsnum) (l : listener)
    (tr : list event) : completion * list event :=
  (if lthrows l st p then Throw else Normal, tr ++ [EvNotify (lid l) st p]).

(** [try { body } catch (error) { }]. *)
Definition try_catch {S : Type} (body : S -> completion * S) (s : S)
  : completion * S :=
  (Normal, snd (body s)).

(** [Array.prototype.forEach]: an exception of the body ends the loop. *)
Fixpoint forEach {A S : Type} (body : A -> S -> completion * S)
    (l : list A) (s : S) : completion * S :=
  match l with
  | [] => (Normal, s)
  | x :: r =>
      match body x s with
      | (Normal, s') => forEach body r s'
      | (Throw, s') => (Throw, s')
      end
  end.

Definition notify_trace (c : controller) (tr : list event)
  : completion * list event :=
  forEach (fun cb => try_catch (call_listener (stage c) (progress c) cb))
          (listeners c) tr.

Definition notify (w : world) : world :=
  {| ctl := ctl w; intervals := intervals w; timeouts := timeouts w;
     next_id := next_id w; trace := snd (notify_trace (ctl w) (trace w)) |}.

(** *** Methods *)

Definition start (now : Z) (w : world) : world :=
  let w := with_ctl (fun c => set_lastInteraction (Some now)
                       (set_isTransitioning false (set_isDead false c))) w in
  if permanentPirateMode (ctl w) then
    notify (with_ctl (fun c => set_progress (Fin 1)
                                 (set_stage (Some "pirate") c)) w)
  else
    let '(id, w) := set_interval IvUpdate w in
    notify (with_ctl (set_timer (Some id)) w).

Definition reset (now : Z) (w : world) : world :=
  if isDead (ctl w) || isTransitioning (ctl w) || permanentPirateMode (ctl w)
  then w
  else with_ctl (set_lastInteraction (Some now)) w.

Definition startTransition (now : Z) (toStage : string) (duration : Z)
    (onComplete : option callback) (w : world) : world :=
  let w := with_ctl (fun c => set_previousStage (stage c) c) w in
  let w := match timer (ctl w) with
           | Some id => with_ctl (set_timer None) (clear_interval (Some id) w)
           | None => w
           end in
  let w := with_ctl (fun c =>
             set_transitionCallback onComplete
               (set_transitionToStage (Some toStage)
                  (set_transitionDuration (Some duration)
                     (set_transitionStartTime (Some now)
                        (set_isTransitioning true c))))) w in
  let '(id, w) := set_interval IvUpdateTransition w in
  with_ctl (set_timer (Some id)) w.

(** Running a stored completion closure. *)
Definition run_callback (cb : callback) (w : world) : world :=
  let w := emit [EvCallback cb] w in
  match cb with
  | CbDeath => with_ctl (set_isDead true) w
  | CbPirate => emit [EvHidePage] (with_ctl (set_isDead true) w)
  | CbExternal _ => w
  end.

Definition updateTransition (now : Z) (w : world) : world :=
  let elapsed := now - to_number (transitionStartTime (ctl w)) in
  let w := with_ctl (fun c =>
             set_stage (transitionToStage c)
               (set_progress
                  (min_one (div_Z elapsed (to_number (transitionDuration c))))
                  c)) w in
  let w := notify w in
  if ge_one (progress (ctl w)) then
    let w := clear_interval (timer (ctl w)) w in
    let w := with_ctl (fun c => set_isTransitioning false (set_timer None c))
               w in
    let callback := transitionCallback (ctl w) in
    let w := with_ctl (set_transitionCallback None) w in
    match callback with
    | Some cb => run_callback cb w
    | None => w
    end
  else w.

Definition beginDeath (now : Z) (w : world) : world :=
  if isDead (ctl w) then w
  else
    let deathDuration := or_Z (CONFIG.death CONFIG.standard) 2000 in
    let w := set_timeout ToGasp
               (now + Qfloor (inject_Z deathDuration * 0.75)) w in
    startTransition now "death" deathDuration (Some CbDeath) w.

Definition update (now : Z) (w : world) : world :=
  if permanentPirateMode (ctl w) then w
  else if isTransitioning (ctl w) then updateTransition now w
  else if isDead (ctl w) then w
  else
    let elapsed := now - to_number (lastInteraction (ctl w)) in
    let timing := CONFIG.standard in
    if elapsed <? CONFIG.healthy timing then
      notify (with_ctl (fun c =>
                set_progress (div_Z elapsed (CONFIG.healthy timing))
                  (set_stage (Some "healthy") c)) w)
    else if elapsed <? CONFIG.healthy timing + CONFIG.panic timing then
      let timeInPanic := elapsed - CONFIG.healthy timing in
      notify (with_ctl (fun c =>
                set_progress (div_Z timeInPanic (CONFIG.panic timing))
                  (set_stage (Some "panic") c)) w)
    else if elapsed <? CONFIG.healthy timing + CONFIG.panic timing
                       + CONFIG.decay timing then
      let timeInDecay :=
        elapsed - CONFIG.healthy timing - CONFIG.panic timing in
      notify (with_ctl (fun c =>
                set_progress (div_Z timeInDecay (CONFIG.decay timing))
                  (set_stage (Some "decay") c)) w)
    else if elapsed <? CONFIG.healthy timing + CONFIG.panic timing
                       + CONFIG.decay timing + CONFIG.death timing then
      let timeInDeath :=
        elapsed - CONFIG.healthy timing - CONFIG.panic timing
        - CONFIG.decay timing in
      let w := with_ctl (fun c =>
                 set_progress (div_Z timeInDeath (CONFIG.death timing))
                   (set_stage (Some "death") c)) w in
      if ge_one (progress (ctl w)) then beginDeath now w
      else notify w
    else beginDeath now w.

Definition enterPirateMode (now : Z) (onFadeComplete : option nat)
    (w : world) : world :=
  let fadeOutDuration := or_Z (CONFIG.fadeOutDuration CONFIG.pirate) 3000 in
  let fullDuration := or_Z (CONFIG.colorShiftDuration CONFIG.pirate) 7000 in
  let w := startTransition now "pirate" fullDuration (Some CbPirate) w in
  set_timeout (ToFade onFadeComplete) (now + fadeOutDuration) w.

Definition subscribe (callback : jsval) (w : world) : world :=
  match callback with
  | VNotCallable => w
  | VFunction l => with_ctl (fun c => set_listeners (listeners c ++ [l]) c) w
  end.

Definition setStage (st : option string) (p : jsnum) (w : world) : world :=
  notify (with_ctl (fun c => set_progress p (set_stage st c)) w).

Definition pause (w : world) : world :=
  match timer (ctl w) with
  | Some id => with_ctl (set_timer None) (clear_interval (Some id) w)
  | None => w
  end.

Definition resume (w : world) : world :=
  match timer (ctl w) with
  | Some _ => w
  | None =>
      if negb (isDead (ctl w)) && negb (isTransitioning (ctl w))
         && negb (permanentPirateMode (ctl w))
      then let '(id, w) := set_interval IvUpdate w in
           with_ctl (set_timer (Some id)) w
      else w
  end.

Definition destroy (w : world) : world :=
  let w := match timer (ctl w) with
           | Some id => with_ctl (set_timer None) (clear_interval (Some id) w)
           | None => w
           end in
  with_ctl (fun c => set_isTransitioning false
                       (set_isDead false (set_listeners [] c))) w.

(** *** The host firing timers *)

Definition fire_interval (now : Z) (id : nat) (w : world) : world :=
  match intervals w !! id with
  | Some IvUpdate => update now w
  | Some IvUpdateTransition => updateTransition now w
  | None => w
  end.

Definition run_timeout (cb : timeout_cb) (w : world) : world :=
  match cb with
  | ToGasp => emit [EvHidePage; EvPrepareDeathScreen] w
  | ToFade (Some n) => emit [EvFadeComplete n] w
  | ToFade None => w
  end.

(** A timeout fires once, not before it is due. *)
Definition fire_timeout (now : Z) (id : nat) (w : world) : world :=
  match timeouts w !! id with
  | Some (due, cb) =>
      if due <=? now then
        run_timeout cb
          {| ctl := ctl w; intervals := intervals w;
             timeouts := delete id (timeouts w); next_id := next_id w;
             trace := trace w |}
      else w
  | None => w
  end.

(** The operations of the controller and of the host, and one step. *)
Inductive op : Type :=
  | OpStart
  | OpReset
  | OpStartTransition (toStage : string) (duration : Z)
                      (onComplete : option callback)
  | OpBeginDeath
  | OpEnterPirateMode (onFadeComplete : option nat)
  | OpSubscribe (callback : jsval)
  | OpSetStage (st : option string) (p : jsnum)
  | OpPause
  | OpResume
  | OpDestroy
  | OpFireInterval (id : nat)
  | OpFireTimeout (id : nat).

Definition step (now : Z) (o : op) (w : world) : world :=
  match o with
  | OpStart => start now w
  | OpReset => reset now w
  | OpStartTransition toStage duration onComplete =>
      startTransition now toStage duration onComplete w
  | OpBeginDeath => beginDeath now w
  | OpEnterPirateMode onFadeComplete => enterPirateMode now onFadeComplete w
  | OpSubscribe callback => subscribe callback w
  | OpSetStage st p => setStage st p w
  | OpPause => pause w
  | OpResume => resume w
  | OpDestroy => destroy w
  | OpFireInterval id => fire_interval now id w
  | OpFireTimeout id => fire_timeout now id w
  end.

(** A run: operations with the clock reading at which each happens. *)
Definition run (l : list (Z * op)) (w : world) : world :=
  fold_left (fun w x => step (fst x) (snd x) w) l w.

(** The interval [id] firing at each of the times [ts], in order. *)
Definition run_ticks (id : nat) (ts : list Z) (w : world) : world :=
  fold_left (fun w t => fire_interval t id w) ts w.

(** The object literal of the file, and the same object in standard mode. *)
Definition decay : controller :=
  {| stage := Some "pirate"; progress := Fin 0; lastInteraction := None;
     timer := None; listeners := []; isDead := false;
     permanentPirateMode := true; isTransitioning := false;
     transitionStartTime := None; transitionDuration := None;
     transitionCallback := None; transitionToStage := None;
     previousStage := None |}.

Definition decay_standard : controller :=
  {| stage := Some "pirate"; progress := Fin 0; lastInteraction := None;
     timer := None; listeners := []; isDead := false;
     permanentPirateMode := false; isTransitioning := false;
     transitionStartTime := None; transitionDuration := None;
     transitionCallback := None; transitionToStage := None;
     previousStage := None |}.

(** Timer identifiers of a browser start at 1. *)
Definition boot (c : controller) : world :=
  {| ctl := c; intervals := ∅; timeouts := ∅; next_id := 1; trace := [] |}.

End Decay.

(** ** The beam scanner: [BeamModule] *)

Module Beam.
Import JS.

(** The part of a DOM element's style the module writes. *)
Record element : Type := {
  animationPlayState : string
}.

Record beam : Type := {
  body : option element;
  glow : option element;
  hotspot : option element;
  isPaused : bool;
  currentSpeed : Z;
  beam_speed : option Z      (* the CSS variable [--beam-speed], in seconds *)
}.

(** The object literal [speeds], a map from stage names to seconds. *)
Definition speeds : gmap string Z :=
  <["healthy" := 8]> (<["panic" := 5]> (<["decay" := 15]>
    (<["death" := 0]> (<["pirate" := 8]> ∅)))).

(** [m[key] || d]: a missing property and the number 0 are both falsy. *)
Definition lookup_or (m : gmap string Z) (key : string) (d : Z) : Z :=
  match m !! key with
  | Some v => or_Z v d
  | None => d
  end.

Definition set_playState (v : string) (el : option element) : option element :=
  match el with
  | Some _ => Some {| animationPlayState := v |}
  | None => None
  end.

Definition pause (b : beam) : beam :=
  {| body := set_playState "paused" (body b);
     glow := set_playState "paused" (glow b);
     hotspot := set_playState "paused" (hotspot b);
     isPaused := true;
     currentSpeed := currentSpeed b;
     beam_speed := beam_speed b |}.

Definition resume (b : beam) : beam :=
  {| body := set_playState "running" (body b);
     glow := set_playState "running" (glow b);
     hotspot := set_playState "running" (hotspot b);
     isPaused := false;
     currentSpeed := currentSpeed b;
     beam_speed := beam_speed b |}.

Definition syncToDecay (stage : string) (progress : jsnum) (b : beam) : beam :=
  let newSpeed := lookup_or speeds stage 8 in
  if newSpeed =? currentSpeed b then b
  else
    let b := {| body := body b; glow := glow b; hotspot := hotspot b;
                isPaused := isPaused b; currentSpeed := newSpeed;
                beam_speed := Some newSpeed |} in
    if String.eqb stage "death" then pause b else b.

(** The module after its constructor and [createBeamElements]. *)
Definition new_beam : beam :=
  {| body := Some {| animationPlayState := "running" |};
     glow := Some {| animationPlayState := "running" |};
     hotspot := Some {| animationPlayState := "running" |};
     isPaused := false; currentSpeed := 8; beam_speed := None |}.

End Beam.

(** ** The particle field: [ParticleDrift] *)

Module Particles.
Import JS.

(** The inline style of one particle, as far as the stage mapping goes. *)
Record particle : Type := {
  transition : option string;
  opacity : option string
}.

Record layer : Type := {
  count : nat;
  field : list particle      (* the [.particle] children, in DOM order *)
}.

Record drift : Type := {
  layers : list (string * layer);   (* [far], [mid], [near], in that order *)
  decayState : string;
  particle_decay_multiplier : option Q
      (* the CSS variable [--particle-decay-multiplier] *)
}.

Definition opacityMultipliers : gmap string Q :=
  <["healthy" := 1.0%Q]> (<["panic" := 0.8%Q]> (<["decay" := 0.5%Q]>
    (<["death" := 0.2%Q]> ∅))).

(** [m[key] || d] on numbers. *)
Definition lookup_or (m : gmap string Q) (key : string) (d : Q) : Q :=
  match m !! key with
  | Some v => if Qeq_bool v 0 then d else v
  | None => d
  end.

Definition fade (p : particle) : particle :=
  {| transition := Some "opacity 2s ease-out"; opacity := Some "0" |}.

(** [Math.floor(particles.length * targetRatio)]. *)
Definition targetCount (n : nat) (targetRatio : Q) : Z :=
  Qfloor (inject_Z (Z.of_nat n) * targetRatio).

Definition fadeLayer (targetRatio : Q) (l : layer) : layer :=
  let particles := field l in
  let target := targetCount (length particles) targetRatio in
  {| count := count l;
     field := imap (fun i p => if target <=? Z.of_nat i then fade p else p)
                   particles |}.

Definition fadeOutRandomParticles (targetRatio : Q) (d : drift) : drift :=
  {| layers := map (fun nl => (fst nl, fadeLayer targetRatio (snd nl)))
                   (layers d);
     decayState := decayState d;
     particle_decay_multiplier := particle_decay_multiplier d |}.

Definition syncToDecay (stage : string) (progress : jsnum) (d : drift)
  : drift :=
  let multiplier := lookup_or opacityMultipliers stage 1.0%Q in
  let d := {| layers := layers d; decayState := stage;
              particle_decay_multiplier := Some multiplier |} in
  if String.eqb stage "decay" then fadeOutRandomParticles 0.4%Q d
  else if String.eqb stage "death" then fadeOutRandomParticles 0%Q d
  else d.

End Particles.

(** ** The audio engine: the volume control of [LeakWormAudio] *)

Module Audio.
Import JS.

(** The entries of [this.nodes]: an oscillator with its frequency or a
    gain node with the value last given to its [gain]. A key set to [null]
    is a key removed: the code only tests the entries for truthiness. *)
Inductive node : Type :=
  | Oscillator (frequency : Q)
  | Gain (value : jsnum).

(** The writes to the gain parameters, in program order. *)
Inductive gain_op : Type :=
  | SetValue (name : string) (v : jsnum)
      (* [nodes[name].gain.value = v] *)
  | Ramp (name : string) (target : jsnum).
      (* [nodes[name].gain.exponentialRampToValueAtTime(target, now + 0.1)] *)

Record audio : Type := {
  volumeLevel : Z;
  baseVolume : Q;
  isDeathSequence : bool;
  isPirateMode : bool;
  nodes : gmap string node;
  ops : list gain_op
}.

Definition volumeMultipliers : list Q := [0%Q; 0.3%Q; 0.6%Q; 1.0%Q].

(** [arr[i]] for a number [i]: [undefined] outside the array. *)
Definition index (arr : list Q) (i : Z) : option Q :=
  if i <? 0 then None else arr !! Z.to_nat i.

(** [base * x] where [x] may be [undefined], which converts to NaN. *)
Definition times_opt (base : Q) (x : option Q) : jsnum :=
  match x with
  | Some m => Fin (base * m)
  | None => NaN
  end.

(** [x * k] for a finite constant [k]. *)
Definition times (x : jsnum) (k : Q) : jsnum :=
  match x with
  | Fin q => Fin (q * k)
  | PosInf => if Qeq_bool k 0 then NaN
              else if Qle_bool 0 k then PosInf else NegInf
  | NegInf => if Qeq_bool k 0 then NaN
              else if Qle_bool 0 k then NegInf else PosInf
  | NaN => NaN
  end.

(** [Math.max(0.001, x)]. *)
Definition max_floor (x : jsnum) : jsnum :=
  match x with
  | Fin q => if Qle_bool 0.001 q then Fin q else Fin 0.001
  | PosInf => PosInf
  | NegInf => Fin 0.001
  | NaN => NaN
  end.

Definition with_nodes (f : gmap string node -> gmap string node) (a : audio)
  : audio :=
  {| volumeLevel := volumeLevel a; baseVolume := baseVolume a;
     isDeathSequence := isDeathSequence a; isPirateMode := isPirateMode a;
     nodes := f (nodes a); ops := ops a |}.

Definition log_op (o : gain_op) (a : audio) : audio :=
  {| volumeLevel := volumeLevel a; baseVolume := baseVolume a;
     isDeathSequence := isDeathSequence a; isPirateMode := isPirateMode a;
     nodes := nodes a; ops := ops a ++ [o] |}.

(** Creating a gain node and assigning its [gain.value]. *)
Definition create_gain (name : string) (v : jsnum) (a : audio) : audio :=
  log_op (SetValue name v) (with_nodes (insert name (Gain v)) a).

Definition create_oscillator (name : string) (f : Q) (a : audio) : audio :=
  with_nodes (insert name (Oscillator f)) a.

(** [if (this.nodes[name]) { ...; this.nodes[name] = null; }] for each name. *)
Definition cleanup (names : list string) (a : audio) : audio :=
  with_nodes (fun m => foldr delete m names) a.

Definition cleanupCRTHum (a : audio) : audio :=
  cleanup ["humGain"; "harmonic2Gain"; "harmonic3Gain"]
    (cleanup ["hum"; "harmonic2"; "harmonic3"] a).

Definition cleanupSchumannHum (a : audio) : audio :=
  cleanup ["schumannGain"; "schumannLFOGain"; "schumannHarmonicGain"]
    (cleanup ["schumannCarrier"; "schumannLFO"; "schumannHarmonic"] a).

Definition cleanupBeam (a : audio) : audio :=
  cleanup ["beamGain"] (cleanup ["beamOsc"] a).

Definition setupCRTHum (a : audio) : audio :=
  let a := cleanupCRTHum a in
  if isDeathSequence a || isPirateMode a then a
  else
    let a := create_oscillator "hum" 60 a in
    let a := create_oscillator "harmonic2" 120 a in
    let a := create_oscillator "harmonic3" 180 a in
    let baseLevel :=
      times_opt (baseVolume a) (index volumeMultipliers (volumeLevel a)) in
    let a := create_gain "humGain" baseLevel a in
    let a := create_gain "harmonic2Gain" (times baseLevel 0.3) a in
    create_gain "harmonic3Gain" (times baseLevel 0.15) a.

Definition setupSchumannHum (a : audio) : audio :=
  let a := cleanupSchumannHum a in
  let a := create_oscillator "schumannCarrier" 62.64 a in
  let a := create_oscillator "schumannLFO" 7.83 a in
  let a := create_gain "schumannLFOGain" (Fin 3) a in
  let baseLevel :=
    times_opt (baseVolume a) (index volumeMultipliers (volumeLevel a)) in
  let a := create_gain "schumannGain" (times baseLevel 1.8) a in
  let a := create_oscillator "schumannHarmonic" 125.28 a in
  create_gain "schumannHarmonicGain" (times baseLevel 0.6) a.

(** [if (this.nodes[name]) this.nodes[name].gain.exponentialRamp...(v, ...)]. *)
Definition ramp_if_present (name : string) (v : jsnum) (a : audio) : audio :=
  match nodes a !! name with
  | Some _ => log_op (Ramp name v) (with_nodes (insert name (Gain v)) a)
  | None => a
  end.

Definition updateHumVolumes (a : audio) : audio :=
  let targetVolume :=
    times_opt (baseVolume a) (index volumeMultipliers (volumeLevel a)) in
  let a := ramp_if_present "humGain" (max_floor targetVolume) a in
  let a := ramp_if_present "harmonic2Gain"
             (max_floor (times targetVolume 0.3)) a in
  let a := ramp_if_present "harmonic3Gain"
             (max_floor (times targetVolume 0.15)) a in
  let a := ramp_if_present "schumannGain"
             (max_floor (times targetVolume 1.8)) a in
  ramp_if_present "schumannHarmonicGain"
    (max_floor (times targetVolume 0.6)) a.

Definition present (name : string) (a : audio) : bool :=
  bool_decide (is_Some (nodes a !! name)).

Definition setVolumeLevel (level : Z) (a : audio) : audio :=
  let a := {| volumeLevel := level; baseVolume := baseVolume a;
              isDeathSequence := isDeathSequence a;
              isPirateMode := isPirateMode a;
              nodes := nodes a; ops := ops a |} in
  if volumeLevel a =? 0 then
    cleanupBeam (cleanupSchumannHum (cleanupCRTHum a))
  else if isPirateMode a && negb (present "schumannCarrier" a) then
    setupSchumannHum a
  else if negb (isPirateMode a) && negb (isDeathSequence a)
          && negb (present "hum" a) then
    setupCRTHum a
  else updateHumVolumes a.

(** The volume button once the audio is ready:
    [setVolumeLevel((audio.volumeLevel + 1) % 4)]. *)
Definition clickVolume (a : audio) : audio :=
  setVolumeLevel (Z.rem (volumeLevel a + 1) 4) a.

(** The engine after its constructor and a successful [init]. *)
Definition new_audio : audio :=
  {| volumeLevel := 1; baseVolume := 0.04%Q; isDeathSequence := false;
     isPirateMode := false; nodes := ∅; ops := [] |}.

(** The flag [beginPirateTransition] sets. *)
Definition set_isPirateMode (v : bool) (a : audio) : audio :=
  {| volumeLevel := volumeLevel a; baseVolume := baseVolume a;
     isDeathSequence := isDeathSequence a; isPirateMode := v;
     nodes := nodes a; ops := ops a |}.

End Audio.

(** ** Vocabulary of the statements about the controller *)

Module DecaySpec.
Import JS Decay.

(** What a broadcast of the controller's current state adds to the trace. *)
Definition notifications (c : controller) : list event :=
  map (fun l => EvNotify (lid l) (stage c) (progress c)) (listeners c).

(** The order of the four stages of the standard lifecycle. *)
Definition stage_rank (st : option string) : nat :=
  match st with
  | Some s =>
      if String.eqb s "healthy" then 0
      else if String.eqb s "panic" then 1
      else if String.eqb s "decay" then 2
      else if String.eqb s "death" then 3
      else 4
  | None => 4
  end.

Definition is_callback (cb : callback) (e : event) : bool :=
  match e, cb with
  | EvCallback CbDeath, CbDeath => true
  | EvCallback CbPirate, CbPirate => true
  | EvCallback (CbExternal n), CbExternal m => Nat.eqb n m
  | _, _ => false
  end.

(** How many times the completion closure [cb] has run. *)
Definition callback_count (cb : callback) (tr : list event) : nat :=
  length (filter (fun e => is_callback cb e = true) tr).

(** What running the completion closure [cb] adds to the trace. *)
Definition callback_events (cb : callback) : list event :=
  match cb with
  | CbPirate => [EvCallback CbPirate; EvHidePage]
  | _ => [EvCallback cb]
  end.

(** A transition to [toStage] started at [t0] for [duration] milliseconds
    is running on the interval [id], with [cb] to call at its end. *)
Definition in_flight (id : nat) (t0 duration : Z) (toStage : string)
    (cb : option callback) (w : world) : Prop :=
  isTransitioning (ctl w) = true
  /\ transitionStartTime (ctl w) = Some t0
  /\ transitionDuration (ctl w) = Some duration
  /\ transitionToStage (ctl w) = Some toStage
  /\ transitionCallback (ctl w) = cb
  /\ timer (ctl w) = Some id
  /\ intervals w !! id = Some IvUpdateTransition.

(** Whether the closure sets [isDead]. *)
Definition sets_dead (cb : callback) : bool :=
  match cb with
  | CbDeath | CbPirate => true
  | CbExternal _ => false
  end.

(** Between two ticks of a transition whose closure had run [n0] times
    when it started: either it is still running and the closure has not
    run again, or it completed at a time not after [tl] and the closure
    has run exactly once more. *)
Definition transition_phase (id : nat) (t0 duration : Z) (toStage : string)
    (cb : callback) (n0 : nat) (tl : Z) (w : world) : Prop :=
  (in_flight id t0 duration toStage (Some cb) w
   /\ callback_count cb (trace w) = n0)
  \/ (duration <= tl - t0
      /\ stage (ctl w) = Some toStage /\ progress (ctl w) = Fin 1
      /\ isTransitioning (ctl w) = false /\ timer (ctl w) = None
      /\ intervals w !! id = None
      /\ callback_count cb (trace w) = S n0
      /\ (sets_dead cb = true -> isDead (ctl w) = true)).

(** What the tick of the transition's interval at time [t] does, from the
    world [w] to the world [w']. *)
Definition tick_facts (id : nat) (t0 duration : Z) (toStage : string)
    (cb : callback) (n0 : nat) (t : Z) (w w' : world) : Prop :=
  let p := min_one (div_Z (t - t0) duration) in
  stage (ctl w') = Some toStage
  /\ progress (ctl w') = p
  /\ listeners (ctl w') = listeners (ctl w)
  /\ (isTransitioning (ctl w) = true ->
      trace w' = trace w ++ notifications (ctl w')
                 ++ (if ge_one p then callback_events cb else []))
  /\ (isTransitioning (ctl w) = false -> w' = w)
  /\ (ge_one p = true ->
      timer (ctl w') = None /\ intervals w' !! id = None
      /\ isTransitioning (ctl w') = false
      /\ callback_count cb (trace w') = S n0
      /\ (sets_dead cb = true -> isDead (ctl w') = true))
  /\ (ge_one p = false ->
      isTransitioning (ctl w') = true
      /\ callback_count cb (trace w') = n0).

(** Clock readings that never go back, starting from [t0]. *)
Fixpoint monotone_from (t0 : Z) (ts : list Z) : Prop :=
  match ts with
  | [] => True
  | t :: r => t0 <= t /\ monotone_from t r
  end.

(** Every interval of the host is the one the controller remembers in
    [this.timer]: so at most one is active. *)
Definition single_timer (w : world) : Prop :=
  match timer (ctl w) with
  | Some id => exists cb, intervals w = {[ id := cb ]}
  | None => intervals w = ∅
  end.

(** The operations other than a [start] issued while a timer is active. *)
Definition guarded_start (o : op) (w : world) : Prop :=
  match o with
  | OpStart => permanentPirateMode (ctl w) = true \/ timer (ctl w) = None
  | _ => True
  end.

(** The state in which the standard tick buckets the elapsed time. *)
Definition standard_alive (w : world) : Prop :=
  permanentPirateMode (ctl w) = false
  /\ isTransitioning (ctl w) = false
  /\ isDead (ctl w) = false.

End DecaySpec.

(** ** Vocabulary of the statements about the audio engine *)

Module AudioSpec.
Import JS Audio.

Definition op_name (o : gain_op) : string :=
  match o with
  | SetValue name _ | Ramp name _ => name
  end.

Definition op_value (o : gain_op) : jsnum :=
  match o with
  | SetValue _ v | Ramp _ v => v
  end.

(** The gain nodes of the CRT hum. *)
Definition is_crt (name : string) : bool :=
  String.eqb name "humGain" || String.eqb name "harmonic2Gain"
  || String.eqb name "harmonic3Gain".

(** The constant by which each hum gain scales the level's volume. *)
Definition gain_factor (name : string) : option Q :=
  if String.eqb name "humGain" then Some 1%Q
  else if String.eqb name "harmonic2Gain" then Some 0.3%Q
  else if String.eqb name "harmonic3Gain" then Some 0.15%Q
  else if String.eqb name "schumannGain" then Some 1.8%Q
  else if String.eqb name "schumannHarmonicGain" then Some 0.6%Q
  else None.

(** A write to a gain that is either the fixed modulation depth of the
    Schumann LFO or the absolute value [base * m * k], [k] the factor of
    the node: not negative, and at most [base] for the CRT hum. *)
Definition absolute_gain (base m : Q) (o : gain_op) : Prop :=
  o = SetValue "schumannLFOGain" (Fin 3)
  \/ exists k v,
       gain_factor (op_name o) = Some k
       /\ op_value o = Fin v
       /\ (v == base * m * k)%Q
       /\ (0 <= v)%Q
       /\ (is_crt (op_name o) = true -> (v <= base)%Q).

(** The five ramps [updateHumVolumes] may schedule for a target volume. *)
Definition hum_ramps (target : jsnum) : list gain_op :=
  [Ramp "humGain" (max_floor target);
   Ramp "harmonic2Gain" (max_floor (times target 0.3));
   Ramp "harmonic3Gain" (max_floor (times target 0.15));
   Ramp "schumannGain" (max_floor (times target 1.8));
   Ramp "schumannHarmonicGain" (max_floor (times target 0.6))].

End AudioSpec.

(** ** More vocabulary for the controller *)

Module DecayRuns.
Import JS Decay DecaySpec.

(** Along the run, every [start] is issued in permanent mode or while no
    timer is held. *)
Fixpoint starts_guarded (l : list (Z * op)) (w : world) : Prop :=
  match l with
  | [] => True
  | x :: r =>
      guarded_start (snd x) w /\ starts_guarded r (step (fst x) (snd x) w)
  end.

(** No interval of the host runs the standard tick. *)
Definition no_tick_interval (w : world) : Prop :=
  forall id, intervals w !! id <> Some IvUpdate.

(** Two worlds that differ at most in the identifier held in [this.timer],
    in the host's tables and in the identifier counter. *)
Definition same_but_timers (w1 w2 : world) : Prop :=
  set_timer None (ctl w1) = set_timer None (ctl w2)
  /\ trace w1 = trace w2.

(** The functions a run subscribes, in order. *)
Definition subscribed (l : list (Z * op)) : list listener :=
  omap (fun x => match snd x with
                 | OpSubscribe (VFunction f) => Some f
                 | _ => None
                 end) l.

End DecayRuns.

(** ** The beam scanner: collision detection *)

Module BeamScan.
Import JS Beam.

(** [x < y], [Math.max] and [Math.abs] on finite numbers. *)
Definition Qlt_bool (x y : Q) : bool := negb (Qle_bool y x).
Definition Qmax_js (x y : Q) : Q := if Qle_bool x y then y else x.
Definition Qabs_js (x : Q) : Q := if Qle_bool 0 x then x else (- x)%Q.

(** A [DOMRect], by its top edge and height; [bottom] is [top + height]. *)
Record rect : Type := {
  top : Q;
  height : Q
}.

Definition bottom (r : rect) : Q := (top r + height r)%Q.

(** A text element the beam can light, with the two classes the scan
    toggles on it. *)
Record target : Type := {
  t_rect : rect;
  beam_approaching : bool;
  beam_contact : bool
}.

(** What one scan reads from the page: the beam body's rectangle, the
    scroll offset and the height of the window; [isMobile] is fixed when
    the detection starts. *)
Record page : Type := {
  beamRect : rect;
  scrollY : Q;
  innerHeight : Q;
  isMobile : bool
}.

(** The classes of the glow and of the hotspot, and the targets. *)
Record scene : Type := {
  targets : list target;
  glow_approaching : bool;
  hotspot_active : bool
}.

Definition beamY (pg : page) : Q :=
  (top (beamRect pg) + height (beamRect pg) / 2)%Q.

(** A target outside the window, enlarged by the buffer, is skipped. *)
Definition culled (pg : page) (t : target) : bool :=
  let buffer := if isMobile pg then 100%Q else 200%Q in
  let viewportTop := (scrollY pg - buffer)%Q in
  let viewportBottom := (scrollY pg + innerHeight pg + buffer)%Q in
  let elementTop := (top (t_rect t) + scrollY pg)%Q in
  Qlt_bool elementTop viewportTop || Qlt_bool viewportBottom elementTop.

Definition distance (pg : page) (t : target) : Q :=
  let targetY := (top (t_rect t) + height (t_rect t) / 2)%Q in
  Qabs_js (beamY pg - targetY).

Definition isInBounds (pg : page) (t : target) : bool :=
  let r := t_rect t in
  let minHeight := 20%Q in
  let effectiveHeight := Qmax_js (height r) minHeight in
  let padding := ((effectiveHeight - height r) / 2)%Q in
  let topBound := (top r - padding)%Q in
  let bottomBound := (bottom r + padding)%Q in
  Qle_bool topBound (beamY pg) && Qle_bool (beamY pg) bottomBound.

(** The flags one pass over the targets threads: the glow's class, the
    hotspot's class and [hitSomething]. *)
Record flags : Type := {
  f_glow : bool;
  f_hotspot : bool;
  f_hit : bool
}.

(** The body of the [forEach] over the targets. *)
Definition scan_target (pg : page) (t : target) (f : flags)
  : target * flags :=
  if culled pg t then (t, f)
  else if isInBounds pg t && Qlt_bool (distance pg t) 40 then
    if Qlt_bool (distance pg t)
                (Qmax_js 10 (height (t_rect t) / 2)) then
      ({| t_rect := t_rect t; beam_approaching := true;
          beam_contact := true |},
       {| f_glow := true; f_hotspot := true; f_hit := true |})
    else
      ({| t_rect := t_rect t; beam_approaching := true;
          beam_contact := false |},
       {| f_glow := true; f_hotspot := f_hotspot f; f_hit := f_hit f |})
  else
    ({| t_rect := t_rect t; beam_approaching := false;
        beam_contact := false |}, f).

Fixpoint scan_targets (pg : page) (ts : list target) (f : flags)
  : list target * flags :=
  match ts with
  | [] => ([], f)
  | t :: r =>
      let '(t', f') := scan_target pg t f in
      let '(r', f'') := scan_targets pg r f' in
      (t' :: r', f'')
  end.

(** One run of the interval callback of [startCollisionDetection]. *)
Definition collisionCheck (b : beam) (pg : page) (s : scene) : scene :=
  if isPaused b || negb (bool_decide (is_Some (body b))) then s
  else
    let '(ts, f) :=
      scan_targets pg (targets s)
        {| f_glow := glow_approaching s; f_hotspot := hotspot_active s;
           f_hit := false |} in
    if f_hit f then
      {| targets := ts; glow_approaching := f_glow f;
         hotspot_active := f_hotspot f |}
    else
      {| targets := ts; glow_approaching := false;
         hotspot_active := false |}.

(** The contact condition of a target that is not skipped. *)
Definition in_contact (pg : page) (t : target) : bool :=
  negb (culled pg t) && isInBounds pg t && Qlt_bool (distance pg t) 40
  && Qlt_bool (distance pg t) (Qmax_js 10 (height (t_rect t) / 2)).

(** A hit lights the glow and the hotspot. *)
Definition lit (f : flags) : Prop :=
  f_hit f = true -> f_glow f = true /\ f_hotspot f = true.

(** The stages a beam receives, one after the other. *)
Definition sync_all (l : list (string * jsnum)) (b : beam) : beam :=
  fold_left (fun b x => syncToDecay (fst x) (snd x) b) l b.

End BeamScan.

(** ** The particle field: creation and beam illumination *)

Module ParticleField.
Import JS Particles BeamScan.

(** The stages a particle system receives, one after the other. *)
Definition sync_all (l : list (string * jsnum)) (d : drift) : drift :=
  fold_left (fun d x => syncToDecay (fst x) (snd x) d) l d.

Definition faded (pt : particle) : bool :=
  bool_decide (opacity pt = Some "0").

Definition all_faded (d : drift) : bool :=
  forallb (fun nl => forallb faded (field (snd nl))) (layers d).

(** The number of particles of each layer, by layer name. *)
Definition shape (d : drift) : list (string * nat) :=
  map (fun nl => (fst nl, length (field (snd nl)))) (layers d).

(** One entry of [this.layers], without its DOM container. *)
Record layer_config : Type := {
  l_count : Z;
  sizeRange : Q * Q;
  blurRange : Q * Q;
  speed : Q
}.

(** [this.layers] as the constructor builds it. *)
Definition new_layers (isMobile : bool) : list (string * layer_config) :=
  let particleMultiplier := if isMobile then 0.6%Q else 1.0%Q in
  [ ("far", {| l_count := Qfloor (25 * particleMultiplier);
               sizeRange := (1.5, 3)%Q; blurRange := (3, 5)%Q;
               speed := 60%Q |});
    ("mid", {| l_count := Qfloor (18 * particleMultiplier);
               sizeRange := (2, 4)%Q; blurRange := (1, 2)%Q;
               speed := 35%Q |});
    ("near", {| l_count := Qfloor (7 * particleMultiplier);
                sizeRange := (3, 5)%Q; blurRange := (0, 0.5)%Q;
                speed := 15%Q |}) ].

(** The [filter] style: [blur(..px)], with [brightness(..)] while the
    beam is near. *)
Record filter : Type := {
  blur_px : Q;
  brightness : option Q
}.

(** A particle element, as far as creation and the beam go. *)
Record mote : Type := {
  m_layer : string;          (* [dataset.layer] *)
  m_left : jsnum;            (* [style.left], in percent *)
  m_width : Q;
  m_height : Q;
  m_filter : filter;
  m_baseBlur : option Q;     (* [dataset.baseBlur] *)
  m_delay : Q;               (* [style.animationDelay], in seconds *)
  m_duration : Q;            (* [style.animationDuration], in seconds *)
  m_revealed : bool          (* the class [beam-revealed] *)
}.

(** [Math.min(95, x)] and [Math.max(5, x)]. *)
Definition min_95 (x : jsnum) : jsnum :=
  match x with
  | Fin q => if Qle_bool 95 q then Fin 95 else Fin q
  | PosInf => Fin 95
  | NegInf => NegInf
  | NaN => NaN
  end.

Definition max_5 (x : jsnum) : jsnum :=
  match x with
  | Fin q => if Qle_bool q 5 then Fin 5 else Fin q
  | PosInf => PosInf
  | NegInf => Fin 5
  | NaN => NaN
  end.

(** [mean + z0 * stdDev] for finite [mean] and positive [stdDev]. *)
Definition shift_scale (mean stdDev : Q) (z0 : jsnum) : jsnum :=
  match z0 with
  | Fin z => Fin (mean + z * stdDev)
  | PosInf => if Qlt_bool 0 stdDev then PosInf
              else if Qlt_bool stdDev 0 then NegInf else NaN
  | NegInf => if Qlt_bool 0 stdDev then NegInf
              else if Qlt_bool stdDev 0 then PosInf else NaN
  | NaN => NaN
  end.

Section Create.

(** The host's random source: [random k] is the result of the [k]-th call
    of [Math.random]. [boxMuller u1 u2] is the host's value of
    [Math.sqrt(-2 * Math.log(u1)) * Math.cos(2 * Math.PI * u2)]. *)
Variable random : nat -> Q.
Variable boxMuller : Q -> Q -> jsnum.

Definition gaussianRandom (mean stdDev : Q) (k : nat) : jsnum * nat :=
  let u1 := random k in
  let u2 := random (S k) in
  let z0 := boxMuller u1 u2 in
  (shift_scale mean stdDev z0, S (S k)).

(** The body of the loop of [createLayerParticles]. *)
Definition create_one (name : string) (layer : layer_config) (k : nat)
  : mote * nat :=
  let '(x, k) := gaussianRandom 50 20 k in
  let size := (fst (sizeRange layer)
               + random k * (snd (sizeRange layer) - fst (sizeRange layer)))%Q in
  let k := S k in
  let blur := (fst (blurRange layer)
               + random k * (snd (blurRange layer) - fst (blurRange layer)))%Q in
  let k := S k in
  let delay := (- random k * speed layer)%Q in
  let k := S k in
  ({| m_layer := name; m_left := max_5 (min_95 x);
      m_width := size; m_height := size;
      m_filter := {| blur_px := blur; brightness := None |};
      m_baseBlur := Some blur;
      m_delay := delay; m_duration := speed layer;
      m_revealed := false |}, k).

Fixpoint create_loop (n : nat) (name : string) (layer : layer_config)
    (fld : list mote) (k : nat) : list mote * nat :=
  match n with
  | O => (fld, k)
  | S n =>
      let '(m, k) := create_one name layer k in
      create_loop n name layer (fld ++ [m]) k
  end.

(** [createLayerParticles]: the old content of the field is dropped. *)
Definition createLayerParticles (name : string) (layer : layer_config)
    (fld : list mote) (k : nat) : list mote * nat :=
  create_loop (Z.to_nat (l_count layer)) name layer [] k.

(** [createAllParticles], over the entries of [this.layers] in order; the
    fields are the empty containers [createParticleFields] has just made. *)
Definition createAllParticles (layers : list (string * layer_config))
    (k : nat) : list (string * list mote) * nat :=
  fold_left
    (fun acc nl =>
       let '(ms, k) := createLayerParticles (fst nl) (snd nl) [] (snd acc) in
       (fst acc ++ [(fst nl, ms)], k))
    layers ([], k).

End Create.

(** What [createLayerParticles] guarantees of a particle. *)
Definition well_made (name : string) (layer : layer_config) (m : mote)
  : Prop :=
  m_layer m = name
  /\ (fst (sizeRange layer) <= m_width m <= snd (sizeRange layer))%Q
  /\ m_height m = m_width m
  /\ (fst (blurRange layer) <= blur_px (m_filter m)
      <= snd (blurRange layer))%Q
  /\ brightness (m_filter m) = None
  /\ m_baseBlur m = Some (blur_px (m_filter m))
  /\ (- speed layer <= m_delay m <= 0)%Q
  /\ m_duration m = speed layer
  /\ m_revealed m = false
  /\ (m_left m = NaN
      \/ exists q, m_left m = Fin q /\ (5 <= q <= 95)%Q).

(** [parseFloat(particle.dataset.baseBlur) || 0]. *)
Definition parse_baseBlur (o : option Q) : Q :=
  match o with
  | Some v => if Qeq_bool v 0 then 0%Q else v
  | None => 0%Q
  end.

Definition range_of (layer : string) : Q :=
  if String.eqb layer "far" then 120%Q
  else if String.eqb layer "mid" then 90%Q else 60%Q.

Definition set_glow (f : filter) (revealed : bool) (m : mote) : mote :=
  {| m_layer := m_layer m; m_left := m_left m; m_width := m_width m;
     m_height := m_height m; m_filter := f; m_baseBlur := m_baseBlur m;
     m_delay := m_delay m; m_duration := m_duration m;
     m_revealed := revealed |}.

Definition mote_distance (beamY : Q) (r : rect) : Q :=
  let particleY := (top r + height r / 2)%Q in
  Qabs_js (beamY - particleY).

(** The body of the [forEach] of [integrateWithBeam], for a particle whose
    bounding rectangle is [r]. *)
Definition illuminate (beamY : Q) (r : rect) (m : mote) : mote :=
  let distance := mote_distance beamY r in
  let range := range_of (m_layer m) in
  if Qlt_bool distance range then
    let intensity := (1 - distance / range)%Q in
    let baseBlur := parse_baseBlur (m_baseBlur m) in
    let brightness := (1 + intensity * 0.8)%Q in
    set_glow {| blur_px := baseBlur; brightness := Some brightness |} true m
  else
    let baseBlur := parse_baseBlur (m_baseBlur m) in
    set_glow {| blur_px := baseBlur; brightness := None |} false m.

(** One run of the interval callback: [body] is [window.beam.body]'s
    rectangle, if the beam has a body, and [rects i] the rectangle of the
    [i]-th particle of the document. *)
Definition beam_tick (body : option rect) (rects : nat -> rect)
    (ms : list mote) : list mote :=
  match body with
  | None => ms
  | Some beamRect =>
      let beamY := (top beamRect + height beamRect / 2)%Q in
      imap (fun i m => illuminate beamY (rects i) m) ms
  end.

End ParticleField.

(** ** The audio engine: stages, death and the pirate transition *)

Module AudioEngine.
Import JS Audio.


Definition crt_names : list string :=
  ["hum"; "harmonic2"; "harmonic3";
   "humGain"; "harmonic2Gain"; "harmonic3Gain"].

Definition schumann_names : list string :=
  ["schumannCarrier"; "schumannLFO"; "schumannHarmonic";
   "schumannGain"; "schumannLFOGain"; "schumannHarmonicGain"].

Definition beam_names : list string := ["beamOsc"; "beamGain"].

Definition named (names : list string) (n : string) : bool :=
  existsb (String.eqb n) names.

Definition none_present (names : list string) (a : audio) : bool :=
  forallb (fun n => negb (present n a)) names.


(** The two parameters the engine automates. *)
Inductive param : Type :=
  | GainParam
  | Frequency.

(** A call on an [AudioParam], with its time as an offset in seconds from
    [context.currentTime]. *)
Inductive automation : Type :=
  | SetValueAtTime (node : string) (p : param) (v : jsnum)
  | ExponentialRamp (node : string) (p : param) (target : jsnum)
      (seconds : Q)
  | LinearRamp (node : string) (p : param) (target : jsnum) (seconds : Q).

(** The two callbacks the engine hands to [setTimeout]; the second knows
    whether [onComplete] was given. *)
Inductive task : Type :=
  | DeathCleanup
  | PirateArrival (onComplete : bool).

Record engine : Type := {
  core : audio;
  ready : bool;
  currentStage : string;
  schedule : list automation;         (* in program order *)
  timeouts : list (Z * task);         (* pending: delay in ms, callback *)
  completed : nat                     (* calls of [onComplete] so far *)
}.

Definition with_core (f : audio -> audio) (e : engine) : engine :=
  {| core := f (core e); ready := ready e; currentStage := currentStage e;
     schedule := schedule e; timeouts := timeouts e;
     completed := completed e |}.

Definition set_currentStage (s : string) (e : engine) : engine :=
  {| core := core e; ready := ready e; currentStage := s;
     schedule := schedule e; timeouts := timeouts e;
     completed := completed e |}.

Definition automate (o : automation) (e : engine) : engine :=
  {| core := core e; ready := ready e; currentStage := currentStage e;
     schedule := schedule e ++ [o]; timeouts := timeouts e;
     completed := completed e |}.

Definition setTimeout (t : task) (delay : Z) (e : engine) : engine :=
  {| core := core e; ready := ready e; currentStage := currentStage e;
     schedule := schedule e; timeouts := timeouts e ++ [(delay, t)];
     completed := completed e |}.

Definition call_onComplete (onComplete : bool) (e : engine) : engine :=
  if onComplete then
    {| core := core e; ready := ready e; currentStage := currentStage e;
       schedule := schedule e; timeouts := timeouts e;
       completed := S (completed e) |}
  else e.

Definition set_isDeathSequence (v : bool) (a : audio) : audio :=
  {| volumeLevel := volumeLevel a; baseVolume := baseVolume a;
     isDeathSequence := v; isPirateMode := isPirateMode a;
     nodes := nodes a; ops := ops a |}.

(** [node.gain.value]; every entry under a gain's name is a gain node. *)
Definition gain_value (n : node) : jsnum :=
  match n with
  | Gain v => v
  | Oscillator _ => NaN
  end.

(** [if (this.nodes[name]) this.nodes[name].gain.exponentialRamp...]. *)
Definition ramp_gain (name : string) (target : jsnum) (seconds : Q)
    (e : engine) : engine :=
  match nodes (core e) !! name with
  | Some _ =>
      automate (ExponentialRamp name GainParam target seconds)
        (with_core (with_nodes (insert name (Gain target))) e)
  | None => e
  end.

(** [if (this.nodes[name]) this.nodes[name].frequency.exponentialRamp...]. *)
Definition ramp_frequency (name : string) (target : Q) (seconds : Q)
    (e : engine) : engine :=
  match nodes (core e) !! name with
  | Some _ =>
      automate (ExponentialRamp name Frequency (Fin target) seconds)
        (with_core (with_nodes (insert name (Oscillator target))) e)
  | None => e
  end.

(** The fade of one gain in [beginDeath]: hold the current value, then
    ramp to 0.001. *)
Definition fade_gain (name : string) (seconds : Q) (e : engine) : engine :=
  match nodes (core e) !! name with
  | Some n =>
      let currentGain := gain_value n in
      let e := automate (SetValueAtTime name GainParam currentGain) e in
      automate (ExponentialRamp name GainParam (Fin 0.001) seconds)
        (with_core (with_nodes (insert name (Gain (Fin 0.001)))) e)
  | None => e
  end.

Definition beginDeath (e : engine) : engine :=
  if negb (ready e) || (volumeLevel (core e) =? 0)
     || isDeathSequence (core e) then e
  else
    let e := with_core (set_isDeathSequence true) e in
    let e := fade_gain "humGain" 2 e in
    let e := fade_gain "harmonic2Gain" 2 e in
    let e := fade_gain "harmonic3Gain" 2 e in
    let e := fade_gain "beamGain" 1.5 e in
    setTimeout DeathCleanup 2500 e.

(** The object literal [stageMap]: frequency and volume of a stage. *)
Definition stageMap : gmap string (Q * Q) :=
  <["healthy" := (60, 1.0)%Q]> (<["panic" := (57, 0.85)%Q]>
    (<["decay" := (52, 0.6)%Q]> ∅)).

(** [stageMap[stage] || stageMap.healthy]. *)
Definition stage_config (stage : string) : Q * Q :=
  match stageMap !! stage with
  | Some c => c
  | None => (60, 1.0)%Q
  end.

Definition syncToDecayStage (stage : string) (progress : jsnum)
    (e : engine) : engine :=
  let e := set_currentStage stage e in
  if String.eqb stage "death" && negb (isDeathSequence (core e)) then
    beginDeath e
  else if String.eqb stage "pirate" && negb (isPirateMode (core e)) then e
  else if negb (ready e) || (volumeLevel (core e) =? 0)
          || isDeathSequence (core e) || isPirateMode (core e) then e
  else
    let config := stage_config stage in
    let e := ramp_frequency "hum" (fst config) 0.5 e in
    let e := ramp_frequency "harmonic2" (fst config * 2) 0.5 e in
    let e := ramp_frequency "harmonic3" (fst config * 3) 0.5 e in
    let baseLevel :=
      times_opt (baseVolume (core e))
        (index volumeMultipliers (volumeLevel (core e))) in
    let modulated := times baseLevel (snd config) in
    let e := ramp_gain "humGain" (max_floor modulated) 0.5 e in
    let e := ramp_gain "harmonic2Gain"
               (max_floor (times modulated 0.3)) 0.5 e in
    ramp_gain "harmonic3Gain" (max_floor (times modulated 0.15)) 0.5 e.


(** The bodies of the two timeout callbacks. *)
Definition run_task (t : task) (e : engine) : engine :=
  match t with
  | DeathCleanup => with_core cleanupBeam (with_core cleanupCRTHum e)
  | PirateArrival onComplete =>
      let e := with_core cleanupCRTHum e in
      let e := if 0 <? volumeLevel (core e)
               then with_core setupSchumannHum e else e in
      call_onComplete onComplete e
  end.

(** The host runs the [i]-th pending timeout. *)
Definition fire (i : nat) (e : engine) : engine :=
  match timeouts e !! i with
  | Some (_, t) =>
      run_task t
        {| core := core e; ready := ready e;
           currentStage := currentStage e; schedule := schedule e;
           timeouts := delete i (timeouts e);
           completed := completed e |}
  | None => e
  end.

(** What reaches an engine that is ready: the volume button, the stage
    notifications of the controller, and the timeouts. *)
Inductive call : Type :=
  | SetVolume (level : Z)
  | Sync (stage : string) (progress : jsnum)
  | Death
  | Fire (i : nat).

Definition apply_call (c : call) (e : engine) : engine :=
  match c with
  | SetVolume level => with_core (setVolumeLevel level) e
  | Sync stage progress => syncToDecayStage stage progress e
  | Death => beginDeath e
  | Fire i => fire i e
  end.

Definition run_calls (cs : list call) (e : engine) : engine :=
  fold_left (fun e c => apply_call c e) cs e.

(** The stage notifications of one stage, one per progress value. *)
Definition sync_stage (stage : string) (ps : list jsnum) (e : engine)
  : engine :=
  fold_left (fun e p => syncToDecayStage stage p e) ps e.

(** After the death fade has begun, outside pirate mode, with only death
    cleanups pending. *)
Definition dying (e : engine) : Prop :=
  isDeathSequence (core e) = true
  /\ isPirateMode (core e) = false
  /\ Forall (fun dt => snd dt = DeathCleanup) (timeouts e).

(** What scheduling on the parameters leaves alone. *)
Definition same_frame (e e' : engine) : Prop :=
  ready e' = ready e
  /\ currentStage e' = currentStage e
  /\ timeouts e' = timeouts e
  /\ completed e' = completed e
  /\ isPirateMode (core e') = isPirateMode (core e)
  /\ isDeathSequence (core e') = isDeathSequence (core e)
  /\ volumeLevel (core e') = volumeLevel (core e)
  /\ baseVolume (core e') = baseVolume (core e)
  /\ (forall n, present n (core e') = present n (core e))
  /\ exists new, schedule e' = schedule e ++ new.

(** The engine after the constructor and a successful [init]. *)
Definition new_engine : engine :=
  {| core := new_audio; ready := true; currentStage := "healthy";
     schedule := []; timeouts := []; completed := 0 |}.

End AudioEngine.

(** ** The beam interaction loop of the audio integration *)

Module AudioLoop.
Import BeamScan.

(** The calls the loop makes on the engine. [ToggleContact] and [Impact]
    are both calls of [triggerUIContact], [Fizz] is a call of
    [triggerBeamFizz]; the last two carry the element id and the clock
    reading of the call. *)
Inductive sound : Type :=
  | Sweep (beamY : Q)
  | ToggleContact
  | Impact (elementId : string) (now : Z)
  | Fizz (elementId : string) (now : Z).

(** The closure variables of the loop, the class of the volume button and
    the calls made so far. *)
Record loop : Type := {
  lastUIContact : option string;
  lastTextContact : gmap string Z;
  toggle_class : bool;             (* [beam-contact] on [#audio-toggle] *)
  calls : list sound
}.

(** A text element as one run of the loop sees it: its rectangle, its
    text, and the reading of [Date.now()] when the loop reaches it. *)
Record text_el : Type := {
  el_rect : rect;
  textContent : string;
  el_now : Z
}.

(** What one run of the loop reads from the page. *)
Record snapshot : Type := {
  beamBody : option rect;
  audioToggle : option rect;
  impactElements : list text_el;
  fizzElements : list text_el
}.

Definition call (c : sound) (st : loop) : loop :=
  {| lastUIContact := lastUIContact st;
     lastTextContact := lastTextContact st;
     toggle_class := toggle_class st; calls := calls st ++ [c] |}.

(** [beamY >= rect.top && beamY <= rect.bottom]. *)
Definition touches (beamY : Q) (r : rect) : bool :=
  Qle_bool (top r) beamY && Qle_bool beamY (bottom r).

Definition toggle_step (beamY : Q) (r : rect) (st : loop) : loop :=
  if touches beamY r then
    let st := {| lastUIContact := lastUIContact st;
                 lastTextContact := lastTextContact st;
                 toggle_class := true; calls := calls st |} in
    if bool_decide (lastUIContact st = Some "audio-toggle") then st
    else
      let st := call ToggleContact st in
      {| lastUIContact := Some "audio-toggle";
         lastTextContact := lastTextContact st;
         toggle_class := toggle_class st; calls := calls st |}
  else
    let st := {| lastUIContact := lastUIContact st;
                 lastTextContact := lastTextContact st;
                 toggle_class := false; calls := calls st |} in
    if bool_decide (lastUIContact st = Some "audio-toggle") then
      {| lastUIContact := None;
         lastTextContact := lastTextContact st;
         toggle_class := toggle_class st; calls := calls st |}
    else st.

(** [lastTextContact.set(elementId, now)]. *)
Definition set_contact (elementId : string) (now : Z) (st : loop) : loop :=
  {| lastUIContact := lastUIContact st;
     lastTextContact := <[elementId := now]> (lastTextContact st);
     toggle_class := toggle_class st; calls := calls st |}.

(** The throttle shared by the two loops over the text elements. *)
Definition text_step (mk : string -> Z -> sound) (elementId : string)
    (beamY : Q) (el : text_el) (st : loop) : loop :=
  if touches beamY (el_rect el) then
    let now := el_now el in
    let lastTime := default 0 (lastTextContact st !! elementId) in
    if 1000 <? now - lastTime then
      set_contact elementId now (call (mk elementId now) st)
    else st
  else st.

(** [el.textContent.substring(0, 20)]. *)
Definition impact_id (el : text_el) : string :=
  String.substring 0 20 (textContent el).

(** [el.textContent.substring(0, 20) || 'dot']. *)
Definition fizz_id (el : text_el) : string :=
  let s := String.substring 0 20 (textContent el) in
  if String.eqb s "" then "dot" else s.

Definition impact_step (beamY : Q) (el : text_el) (st : loop) : loop :=
  text_step Impact (impact_id el) beamY el st.

Definition fizz_step (beamY : Q) (el : text_el) (st : loop) : loop :=
  text_step Fizz (fizz_id el) beamY el st.

(** One run of the 25 ms interval callback. *)
Definition tick (s : snapshot) (st : loop) : loop :=
  match beamBody s with
  | None => st
  | Some beamRect =>
      let beamY := (top beamRect + height beamRect / 2)%Q in
      let st := call (Sweep beamY) st in
      let st := match audioToggle s with
                | Some toggleRect => toggle_step beamY toggleRect st
                | None => st
                end in
      let st := fold_left (fun st el => impact_step beamY el st)
                  (impactElements s) st in
      fold_left (fun st el => fizz_step beamY el st) (fizzElements s) st
  end.

Definition run_loop (ss : list snapshot) (st : loop) : loop :=
  fold_left (fun st s => tick s st) ss st.

(** The loop when the interval is set. *)
Definition new_loop : loop :=
  {| lastUIContact := None; lastTextContact := ∅; toggle_class := false;
     calls := [] |}.


Definition is_toggle (c : sound) : bool :=
  match c with
  | ToggleContact => true
  | _ => false
  end.

Definition toggle_calls (st : loop) : nat :=
  length (filter (fun c => is_toggle c = true) (calls st)).

(** Whether the beam touches the volume button in a snapshot that has
    both. *)
Definition on_toggle (s : snapshot) : bool :=
  match beamBody s, audioToggle s with
  | Some beamRect, Some toggleRect =>
      touches (top beamRect + height beamRect / 2)%Q toggleRect
  | _, _ => false
  end.

(** The number of changes from [false] to [true] along a list, after a
    previous value. *)
Fixpoint rising_edges (prev : bool) (l : list bool) : nat :=
  match l with
  | [] => O
  | b :: r => ((if b && negb prev then 1 else 0) + rising_edges b r)%nat
  end.


End AudioLoop.

(** * Properties of the lifecycle controller *)

Module DecayFacts.
Import JS Decay DecaySpec.

(** ** Broadcast *)

Lemma notify_trace_spec (c : controller) (tr : list event) :
  notify_trace c tr = (Normal, tr ++ notifications c).
Proof.
  unfold notify_trace, notifications.
  revert tr. induction (listeners c) as [|l ls IH]; intros tr; simpl.
  - by rewrite app_nil_r.
  - rewrite IH. by rewrite <- app_assoc.
Qed.

Lemma notify_spec (w : world) : notify w = emit (notifications (ctl w)) w.
Proof. unfold notify, emit. by rewrite notify_trace_spec. Qed.

(** Without the [try]/[catch] a throwing subscriber would end the loop. *)
Example forEach_unprotected_stops :
  let bad := {| lid := 1; lthrows := fun _ _ => true |} in
  let good := {| lid := 2; lthrows := fun _ _ => false |} in
  forEach (call_listener (Some "healthy") (Fin 0)) [bad; good] []
  = (Throw, [EvNotify 1 (Some "healthy") (Fin 0)]).
Proof. reflexivity. Qed.

(** C6. [notify] calls every registered subscriber with the controller's
    [(stage, progress)], in the order of the list, which is the order of
    subscription; whether any of them throws changes neither the calls made
    to the others nor the way [notify] completes, and the broadcast leaves
    the controller, the timers and the earlier trace as they were. *)
Theorem notify_isolated_broadcast (w : world) :
  notify_trace (ctl w) (trace w)
    = (Normal,
       trace w ++ map (fun l => EvNotify (lid l) (stage (ctl w))
                                   (progress (ctl w)))
                      (listeners (ctl w)))
  /\ trace (notify w) = snd (notify_trace (ctl w) (trace w))
  /\ ctl (notify w) = ctl w
  /\ intervals (notify w) = intervals w
  /\ timeouts (notify w) = timeouts w
  /\ next_id (notify w) = next_id w
  /\ (forall l, listeners (ctl (subscribe (VFunction l) w))
                = listeners (ctl w) ++ [l])
  /\ subscribe VNotCallable w = w.
Proof.
  split; [apply notify_trace_spec|]. repeat split.
Qed.

(** ** Permanent pirate mode *)

(** C5. In permanent pirate mode [start] sets the stage to pirate and the
    progress to 1.0, broadcasts that state once to every subscriber, and
    touches no timer; [reset] returns the world it was given. *)
Theorem start_permanent_pirate (now now' : Z) (w : world) :
  permanentPirateMode (ctl w) = true ->
  let w' := start now w in
  stage (ctl w') = Some "pirate"
  /\ progress (ctl w') = Fin 1
  /\ trace w'
     = trace w ++ map (fun l => EvNotify (lid l) (Some "pirate") (Fin 1))
                      (listeners (ctl w))
  /\ intervals w' = intervals w
  /\ timeouts w' = timeouts w
  /\ next_id w' = next_id w
  /\ timer (ctl w') = timer (ctl w)
  /\ lastInteraction (ctl w') = Some now
  /\ reset now' w = w
  /\ reset now' w' = w'.
Proof.
  intros Hp w'. subst w'. unfold start, reset. simpl. rewrite Hp.
  rewrite notify_spec. simpl. rewrite Hp, !orb_true_r.
  repeat split.
Qed.

Lemma start_permanent_pirate_witness :
  let w := boot decay in
  permanentPirateMode (ctl w) = true
  /\ stage (ctl (start 1000 w)) = Some "pirate"
  /\ reset 2000 (start 1000 w) = start 1000 w.
Proof.
  split; [reflexivity|].
  pose proof (start_permanent_pirate 1000 2000 (boot decay) eq_refl) as H.
  simpl in H. destruct H as (H1 & _ & _ & _ & _ & _ & _ & _ & _ & H2).
  split; [exact H1 | exact H2].
Defined.


(** ** The standard tick *)

Lemma div_Z_pos (a : Z) (p : positive) : div_Z a (Zpos p) = Fin (a # p).
Proof. reflexivity. Qed.

Lemma frac_bounds (a : Z) (p : positive) :
  0 <= a < Zpos p ->
  num_le (Fin 0) (Fin (a # p)) /\ num_le (Fin (a # p)) (Fin 1)
  /\ ge_one (Fin (a # p)) = false.
Proof.
  intros H. simpl. unfold Qle. simpl. repeat split; try lia.
  destruct (Qle_bool 1 (a # p)) eqn:E; [|done].
  apply Qle_bool_iff in E. unfold Qle in E. simpl in E. lia.
Qed.

Lemma frac_zero (a : Z) (p : positive) : is_zero (Fin (a # p)) <-> a = 0.
Proof. simpl. unfold Qeq. simpl. lia. Qed.

(** One tick in the standard, alive, non-transitioning state, when the
    elapsed time [t] is inside the duration table. *)
Lemma update_in_table (w : world) (t : Z) :
  standard_alive w ->
  0 <= t < 32000 ->
  let now := to_number (lastInteraction (ctl w)) + t in
  exists (st : string) (lo : Z) (d : positive),
    (st, lo, d) ∈ [("healthy", 0, 24000%positive);
                   ("panic", 24000, 3000%positive);
                   ("decay", 27000, 3000%positive);
                   ("death", 30000, 2000%positive)]
    /\ lo <= t < lo + Zpos d
    /\ update now w
       = emit (map (fun l => EvNotify (lid l) (Some st) (Fin ((t - lo) # d)))
                   (listeners (ctl w)))
           (with_ctl (fun c => set_progress (Fin ((t - lo) # d))
                                 (set_stage (Some st) c)) w).
Proof.
  intros (Hp & Ht & Hd) Hr now. subst now.
  unfold update. rewrite Hp, Ht, Hd.
  replace (to_number (lastInteraction (ctl w)) + t
           - to_number (lastInteraction (ctl w))) with t by lia.
  change (CONFIG.healthy CONFIG.standard) with 24000.
  change (CONFIG.panic CONFIG.standard) with 3000.
  change (CONFIG.decay CONFIG.standard) with 3000.
  change (CONFIG.death CONFIG.standard) with 2000.
  destruct (Z.ltb_spec t 24000).
  { exists "healthy", 0, 24000%positive.
    split; [rewrite !elem_of_cons; auto 10|]. split; [lia|].
    rewrite notify_spec, div_Z_pos. by rewrite Z.sub_0_r. }
  destruct (Z.ltb_spec t (24000 + 3000)).
  { exists "panic", 24000, 3000%positive.
    split; [rewrite !elem_of_cons; auto 10|]. split; [lia|].
    by rewrite notify_spec, div_Z_pos. }
  destruct (Z.ltb_spec t (24000 + 3000 + 3000)).
  { exists "decay", 27000, 3000%positive.
    split; [rewrite !elem_of_cons; auto 10|]. split; [lia|].
    rewrite notify_spec, div_Z_pos.
    by replace (t - 24000 - 3000) with (t - 27000) by lia. }
  destruct (Z.ltb_spec t (24000 + 3000 + 3000 + 2000)); [|lia].
  exists "death", 30000, 2000%positive.
  split; [rewrite !elem_of_cons; auto 10|]. split; [lia|].
  rewrite div_Z_pos.
  replace (t - 24000 - 3000 - 3000) with (t - 30000) by lia.
  cbn [ctl with_ctl progress set_progress].
  destruct (frac_bounds (t - 30000) 2000) as (_ & _ & ->); [lia|].
  by rewrite notify_spec.
Qed.


Ltac bucket_cases H :=
  rewrite !elem_of_cons, elem_of_nil in H;
  destruct H as [H|[H|[H|[H|[]]]]]; injection H as -> -> ->.

(** C1. In standard mode, with the controller alive and not in a
    transition, one tick at elapsed time [t1] inside the duration table
    puts the stage in the bucket of [t1] among the cumulative thresholds
    healthy, healthy+panic, healthy+panic+decay and the total, sets the
    progress to the fraction of that bucket's duration already elapsed,
    which lies between 0 and 1, and broadcasts the new state; a later
    elapsed time [t2] never gives an earlier stage; and the stage differs
    from the one of the millisecond before exactly when the progress is 0. *)
Theorem update_buckets (w : world) (t1 t2 : Z) :
  standard_alive w ->
  0 <= t1 <= t2 ->
  t2 < CONFIG.healthy CONFIG.standard + CONFIG.panic CONFIG.standard
       + CONFIG.decay CONFIG.standard + CONFIG.death CONFIG.standard ->
  let base := to_number (lastInteraction (ctl w)) in
  let h := CONFIG.healthy CONFIG.standard in
  let p := CONFIG.panic CONFIG.standard in
  let d := CONFIG.decay CONFIG.standard in
  let x := CONFIG.death CONFIG.standard in
  let w1 := update (base + t1) w in
  let w2 := update (base + t2) w in
  ((t1 < h /\ stage (ctl w1) = Some "healthy"
    /\ progress (ctl w1) = div_Z t1 h)
   \/ (h <= t1 < h + p /\ stage (ctl w1) = Some "panic"
       /\ progress (ctl w1) = div_Z (t1 - h) p)
   \/ (h + p <= t1 < h + p + d /\ stage (ctl w1) = Some "decay"
       /\ progress (ctl w1) = div_Z (t1 - h - p) d)
   \/ (h + p + d <= t1 /\ stage (ctl w1) = Some "death"
       /\ progress (ctl w1) = div_Z (t1 - h - p - d) x))
  /\ num_le (Fin 0) (progress (ctl w1))
  /\ num_le (progress (ctl w1)) (Fin 1)
  /\ trace w1 = trace w ++ notifications (ctl w1)
  /\ intervals w1 = intervals w
  /\ timeouts w1 = timeouts w
  /\ (stage_rank (stage (ctl w1)) <= stage_rank (stage (ctl w2)))%nat
  /\ (0 < t1 ->
      stage (ctl (update (base + (t1 - 1)) w)) <> stage (ctl w1)
      <-> is_zero (progress (ctl w1))).
Proof.
  intros Ha Ht Htot base h p d x w1 w2.
  change (t2 < 32000) in Htot.
  destruct (update_in_table w t1 Ha) as (st1 & lo1 & d1 & Hin1 & Hr1 & E1);
    [lia|].
  destruct (update_in_table w t2 Ha) as (st2 & lo2 & d2 & Hin2 & Hr2 & E2);
    [lia|].
  fold base in E1, E2. fold w1 in E1. fold w2 in E2.
  assert (Hst1 : stage (ctl w1) = Some st1) by (by rewrite E1).
  assert (Hpr1 : progress (ctl w1) = Fin ((t1 - lo1) # d1)) by (by rewrite E1).
  assert (Hst2 : stage (ctl w2) = Some st2) by (by rewrite E2).
  destruct (frac_bounds (t1 - lo1) d1) as (B0 & B1 & _); [lia|].
  split.
  { rewrite Hst1, Hpr1. subst h p d x.
    change (CONFIG.healthy CONFIG.standard) with 24000.
    change (CONFIG.panic CONFIG.standard) with 3000.
    change (CONFIG.decay CONFIG.standard) with 3000.
    change (CONFIG.death CONFIG.standard) with 2000.
    bucket_cases Hin1.
    - left. rewrite Z.sub_0_r. repeat split; lia.
    - right; left. repeat split; lia.
    - right; right; left.
      replace (t1 - 24000 - 3000) with (t1 - 27000) by lia.
      repeat split; lia.
    - right; right; right.
      replace (t1 - 24000 - 3000 - 3000) with (t1 - 30000) by lia.
      repeat split; lia. }
  rewrite Hpr1. split; [exact B0|]. split; [exact B1|].
  split.
  { rewrite E1. unfold notifications. simpl. done. }
  split; [by rewrite E1|]. split; [by rewrite E1|].
  split.
  { rewrite Hst1, Hst2. bucket_cases Hin1; bucket_cases Hin2; simpl; lia. }
  intros Hpos.
  destruct (update_in_table w (t1 - 1) Ha)
    as (st0 & lo0 & d0 & Hin0 & Hr0 & E0); [lia|].
  fold base in E0. rewrite E0, Hst1, frac_zero. simpl.
  bucket_cases Hin1; bucket_cases Hin0;
    (split; [intros Hne; try lia; try (by exfalso; apply Hne)
            | intros Hz; try lia; try discriminate]).
Qed.

Lemma update_buckets_witness :
  let w := start 0 (boot decay_standard) in
  standard_alive w
  /\ stage (ctl (update 24000 w)) = Some "panic"
  /\ is_zero (progress (ctl (update 24000 w)))
  /\ stage (ctl (update 23999 w)) = Some "healthy".
Proof.
  assert (Ha : standard_alive (start 0 (boot decay_standard)))
    by (repeat split).
  split; [exact Ha|].
  pose proof (update_buckets (start 0 (boot decay_standard)) 24000 24000 Ha
                ltac:(lia) ltac:(simpl; lia)) as H.
  split; [reflexivity|].
  split; [|reflexivity].
  destruct H as (_ & _ & _ & _ & _ & _ & _ & H).
  apply H; [lia|]. simpl. discriminate.
Defined.


(** ** Transitions *)

Lemma progress_cases (a dur : Z) :
  0 < dur ->
  (dur <= a /\ min_one (div_Z a dur) = Fin 1
   /\ ge_one (min_one (div_Z a dur)) = true)
  \/ (a < dur /\ ge_one (min_one (div_Z a dur)) = false
      /\ exists p, dur = Zpos p /\ min_one (div_Z a dur) = Fin (a # p)).
Proof.
  intros Hd. destruct dur as [|p|p]; try lia. simpl.
  destruct (Qle_bool 1 (a # p)) eqn:E.
  - left. apply Qle_bool_iff in E. unfold Qle in E. simpl in E.
    repeat split; lia.
  - right. assert (a < Z.pos p).
    { destruct (Z.ltb_spec a (Z.pos p)); [done|].
      assert (Qle_bool 1 (a # p) = true); [|congruence].
      apply Qle_bool_iff. unfold Qle. simpl. lia. }
    split; [done|]. simpl. rewrite E. eauto.
Qed.

Lemma progress_le_one (a dur : Z) :
  0 < dur -> num_le (min_one (div_Z a dur)) (Fin 1).
Proof.
  intros Hd. destruct (progress_cases a dur Hd)
    as [(_ & -> & _)|(Hlt & _ & p & -> & ->)]; simpl; unfold Qle; simpl; lia.
Qed.

Lemma progress_mono (a b dur : Z) :
  0 < dur -> a <= b ->
  num_le (min_one (div_Z a dur)) (min_one (div_Z b dur)).
Proof.
  intros Hd Hab.
  destruct (progress_cases a dur Hd) as [(Ha & -> & _)|(Ha & _ & p & Ep & ->)];
  destruct (progress_cases b dur Hd) as [(Hb & -> & _)|(Hb & _ & q & Eq & ->)];
    simpl; unfold Qle; simpl; try lia.
  subst dur. injection Eq as <-. nia.
Qed.

Lemma callback_count_app (cb : callback) (l1 l2 : list event) :
  callback_count cb (l1 ++ l2)
  = (callback_count cb l1 + callback_count cb l2)%nat.
Proof. unfold callback_count. by rewrite filter_app, length_app. Qed.

Lemma callback_count_notifications (cb : callback) (c : controller) :
  callback_count cb (notifications c) = 0%nat.
Proof.
  unfold callback_count, notifications.
  induction (listeners c) as [|l ls IH]; [done|].
  simpl. rewrite filter_cons_False; [exact IH|]. by destruct cb.
Qed.

Lemma callback_count_events (cb : callback) :
  callback_count cb (callback_events cb) = 1%nat.
Proof.
  destruct cb as [| |n]; unfold callback_count; simpl; try reflexivity.
  rewrite filter_cons_True; [done|]. simpl. by rewrite Nat.eqb_refl.
Qed.

(** One update of a running transition. *)
Lemma updateTransition_in_flight (id : nat) (t0 dur : Z) (to : string)
    (cb : callback) (w : world) (t : Z) :
  in_flight id t0 dur to (Some cb) w ->
  let p := min_one (div_Z (t - t0) dur) in
  let w' := updateTransition t w in
  stage (ctl w') = Some to
  /\ progress (ctl w') = p
  /\ listeners (ctl w') = listeners (ctl w)
  /\ timeouts w' = timeouts w
  /\ next_id w' = next_id w
  /\ trace w' = trace w ++ notifications (ctl w')
                ++ (if ge_one p then callback_events cb else [])
  /\ (ge_one p = false -> in_flight id t0 dur to (Some cb) w'
                          /\ isDead (ctl w') = isDead (ctl w)
                          /\ intervals w' = intervals w)
  /\ (ge_one p = true ->
      timer (ctl w') = None /\ intervals w' = delete id (intervals w)
      /\ isTransitioning (ctl w') = false
      /\ transitionCallback (ctl w') = None
      /\ isDead (ctl w')
         = match cb with CbExternal _ => isDead (ctl w) | _ => true end).
Proof.
  intros (Htr & Hst & Hdu & Hto & Hcb & Htm & Hiv) p w'.
  subst w'. unfold updateTransition. rewrite notify_spec.
  destruct w as [c iv tos nx tr]; destruct c;
    simpl in Htr, Hst, Hdu, Hto, Hcb, Htm, Hiv.
  subst. cbn -[min_one div_Z ge_one run_callback]. fold p.
  destruct (ge_one p) eqn:Hge.
  - destruct cb; cbn -[min_one div_Z ge_one]; unfold notifications;
      cbn -[min_one div_Z ge_one]; rewrite <- ?app_assoc; repeat split; done.
  - repeat split; try done.
    by rewrite app_nil_r.
Qed.


Lemma startTransition_spec (now : Z) (to : string) (dur : Z)
    (cb : option callback) (w : world) :
  let w1 := startTransition now to dur cb w in
  in_flight (next_id w) now dur to cb w1
  /\ trace w1 = trace w
  /\ timeouts w1 = timeouts w
  /\ next_id w1 = S (next_id w)
  /\ listeners (ctl w1) = listeners (ctl w)
  /\ isDead (ctl w1) = isDead (ctl w)
  /\ permanentPirateMode (ctl w1) = permanentPirateMode (ctl w)
  /\ previousStage (ctl w1) = stage (ctl w)
  /\ intervals w1
     = <[next_id w := IvUpdateTransition]>
         (match timer (ctl w) with
          | Some id => delete id (intervals w)
          | None => intervals w
          end).
Proof.
  unfold startTransition, in_flight.
  destruct w as [c iv tos nx tr]; destruct c as [? ? ? [id|] ? ? ? ? ? ? ? ? ?];
    cbn; rewrite lookup_insert_eq; repeat split.
Qed.

Lemma monotone_from_lookup (tl : Z) (ts : list Z) (j k : nat) (tj tk : Z) :
  monotone_from tl ts -> ts !! j = Some tj -> ts !! k = Some tk ->
  (j <= k)%nat -> tl <= tj /\ tj <= tk.
Proof.
  revert tl j k tj tk.
  induction ts as [|a r IH]; intros tl j k tj tk Hm Hj Hk Hjk.
  - done.
  - destruct Hm as [Hle Hm]. destruct j as [|j]; simpl in Hj.
    + injection Hj as ->. split; [done|].
      destruct k as [|k]; simpl in Hk; [injection Hk as ->; lia|].
      destruct (IH tj k k tk tk Hm Hk Hk); lia.
    + destruct k as [|k]; [lia|]. simpl in Hk.
      destruct (IH a j k tj tk Hm Hj Hk); lia.
Qed.

Lemma run_ticks_snoc (id : nat) (ts : list Z) (k : nat) (t : Z) (w : world) :
  ts !! k = Some t ->
  run_ticks id (take (S k) ts) w
  = fire_interval t id (run_ticks id (take k ts) w).
Proof.
  intros H. unfold run_ticks.
  rewrite (take_S_r _ _ _ H), fold_left_app. reflexivity.
Qed.

Section TransitionRun.

Variables (id : nat) (t0 dur : Z) (to : string) (cb : callback) (n0 : nat).
Hypothesis dur_pos : 0 < dur.

Lemma tick_phase (tl t : Z) (w : world) :
  transition_phase id t0 dur to cb n0 tl w -> tl <= t ->
  transition_phase id t0 dur to cb n0 t (fire_interval t id w)
  /\ tick_facts id t0 dur to cb n0 t w (fire_interval t id w).
Proof.
  intros [[Hf Hn]|(Hl & Hs & Hp & Htr & Htm & Hiv & Hn & Hdd)] Hle.
  - pose proof Hf as (Htr & _ & _ & _ & _ & _ & Hiv).
    unfold fire_interval. rewrite Hiv.
    destruct (updateTransition_in_flight id t0 dur to cb w t Hf)
      as (Es & Ep & El & _ & _ & Et & Hfalse & Htrue).
    destruct (progress_cases (t - t0) dur dur_pos)
      as [(Hd & E1 & Hge)|(Hd & Hge & _)].
    + destruct (Htrue Hge) as (T1 & T2 & T3 & _ & T5). rewrite Hge in Et.
      assert (Hdd : sets_dead cb = true ->
                    isDead (ctl (updateTransition t w)) = true).
      { rewrite T5. by destruct cb. }
      assert (Hc : callback_count cb (trace (updateTransition t w)) = S n0).
      { rewrite Et, !callback_count_app, callback_count_notifications,
          callback_count_events, Hn. lia. }
      split.
      * right. rewrite Ep, E1, T2, lookup_delete_eq. repeat split; done.
      * unfold tick_facts. rewrite Hge, T2, lookup_delete_eq.
        repeat split; try done; intros; congruence.
    + destruct (Hfalse Hge) as (F1 & _ & _). rewrite Hge in Et.
      assert (Hc : callback_count cb (trace (updateTransition t w)) = n0).
      { rewrite Et, !callback_count_app, callback_count_notifications,
          Hn. simpl. unfold callback_count. simpl. lia. }
      split.
      * left. done.
      * unfold tick_facts. rewrite Hge. destruct F1 as (F1 & _).
        repeat split; try done; intros; congruence.
  - unfold fire_interval. rewrite Hiv.
    destruct (progress_cases (t - t0) dur dur_pos)
      as [(Hd & E1 & Hge)|(Hd & _)]; [|lia].
    split.
    + right. repeat split; try done; lia.
    + unfold tick_facts. rewrite E1. simpl.
      repeat split; try done; intros; congruence.
Qed.

Lemma run_ticks_phase (ts : list Z) (tl : Z) (w : world) (k : nat) (t : Z) :
  transition_phase id t0 dur to cb n0 tl w ->
  monotone_from tl ts -> ts !! k = Some t ->
  exists tl', tl' <= t
    /\ transition_phase id t0 dur to cb n0 tl' (run_ticks id (take k ts) w).
Proof.
  revert tl w k. induction ts as [|a r IH]; intros tl w k Hp Hm Hk; [done|].
  destruct Hm as [Hle Hm]. destruct k as [|k]; simpl in Hk.
  - injection Hk as ->. exists tl. split; [done|]. exact Hp.
  - simpl. apply (IH a); [|done|done].
    by apply (tick_phase tl).
Qed.

(** The ticks of a transition, one by one. *)
Lemma run_ticks_transition (ts : list Z) (w1 : world) (k : nat) (t : Z) :
  in_flight id t0 dur to (Some cb) w1 ->
  callback_count cb (trace w1) = n0 ->
  monotone_from t0 ts ->
  ts !! k = Some t ->
  tick_facts id t0 dur to cb n0 t (run_ticks id (take k ts) w1)
    (run_ticks id (take (S k) ts) w1).
Proof.
  intros Hf Hn Hm Hk.
  destruct (run_ticks_phase ts t0 w1 k t) as (tl & Hle & Hp);
    [by left|done|done|].
  rewrite (run_ticks_snoc _ _ _ _ _ Hk).
  by apply (tick_phase tl).
Qed.

End TransitionRun.


(** C2. After [startTransition(toStage, duration, cb)] at time [t0], with a
    positive duration and a clock that does not go back, every tick of the
    transition's interval reports [toStage] and the progress
    [min((t - t0) / duration, 1)], which never exceeds 1.0 and never
    decreases from one tick to a later one; every update broadcasts to the
    subscribers; the update at which the progress reaches 1.0 clears the
    timer and the transitioning flag and runs [cb], and [cb] has then run
    exactly once, since the cleared interval fires no more. *)
Theorem transition_run (w : world) (toStage : string) (duration : Z)
    (cb : callback) (t0 : Z) (ts : list Z) :
  0 < duration ->
  monotone_from t0 ts ->
  let w1 := startTransition t0 toStage duration (Some cb) w in
  let id := next_id w in
  timer (ctl w1) = Some id
  /\ intervals w1 !! id = Some IvUpdateTransition
  /\ isTransitioning (ctl w1) = true
  /\ forall (k : nat) (t : Z), ts !! k = Some t ->
     let prev := run_ticks id (take k ts) w1 in
     let cur := run_ticks id (take (S k) ts) w1 in
     let p := min_one (div_Z (t - t0) duration) in
     stage (ctl cur) = Some toStage
     /\ progress (ctl cur) = p
     /\ num_le p (Fin 1)
     /\ (forall j, (j <= k)%nat ->
         num_le (progress (ctl (run_ticks id (take (S j) ts) w1)))
                (progress (ctl cur)))
     /\ (ge_one p = true <-> t0 + duration <= t)
     /\ (isTransitioning (ctl prev) = true ->
         trace cur = trace prev ++ notifications (ctl cur)
                     ++ (if ge_one p then callback_events cb else []))
     /\ (isTransitioning (ctl prev) = false -> cur = prev)
     /\ (ge_one p = true ->
         timer (ctl cur) = None /\ intervals cur !! id = None
         /\ isTransitioning (ctl cur) = false
         /\ callback_count cb (trace cur) = S (callback_count cb (trace w)))
     /\ (ge_one p = false ->
         isTransitioning (ctl cur) = true
         /\ callback_count cb (trace cur) = callback_count cb (trace w)).
Proof.
  intros Hd Hm w1 id.
  destruct (startTransition_spec t0 toStage duration (Some cb) w)
    as (Hf & Htr & _). fold w1 id in Hf, Htr.
  pose proof Hf as (F1 & _ & _ & _ & _ & F6 & F7).
  split; [done|]. split; [done|]. split; [done|].
  intros k t Hk prev cur p.
  assert (Hrun : forall j tj, ts !! j = Some tj ->
            tick_facts id t0 duration toStage cb (callback_count cb (trace w))
              tj (run_ticks id (take j ts) w1)
              (run_ticks id (take (S j) ts) w1)).
  { intros j tj Hj. apply run_ticks_transition; try done. by rewrite Htr. }
  destruct (Hrun k t Hk) as (Es & Ep & _ & Et & Eid & Etrue & Efalse).
  fold prev cur p in Es, Ep, Et, Eid, Etrue, Efalse.
  split; [done|]. split; [done|].
  split; [by apply progress_le_one|].
  split.
  { intros j Hj.
    destruct (lookup_lt_is_Some_2 ts j) as [tj Htj].
    { apply lookup_lt_Some in Hk. lia. }
    destruct (Hrun j tj Htj) as (_ & -> & _). rewrite Ep.
    destruct (monotone_from_lookup t0 ts j k tj t Hm Htj Hk Hj).
    apply progress_mono; [done|lia]. }
  split.
  { subst p. destruct (progress_cases (t - t0) duration Hd)
      as [(Ha & _ & ->)|(Ha & -> & _)]; split; try done; lia. }
  split; [done|]. split; [done|].
  split.
  { intros Hge. destruct (Etrue Hge) as (? & ? & ? & ? & _). done. }
  done.
Qed.

Lemma transition_run_witness :
  let w := boot decay_standard in
  let w1 := startTransition 0 "pirate" 7000 (Some (CbExternal 0)) w in
  0 < 7000
  /\ monotone_from 0 [100; 3500; 7000; 7100]
  /\ progress (ctl (run_ticks 1 [100; 3500; 7000] w1)) = Fin 1
  /\ callback_count (CbExternal 0) (trace (run_ticks 1 [100; 3500; 7000] w1))
     = 1%nat.
Proof.
  assert (H1 : 0 < 7000) by lia.
  assert (H2 : monotone_from 0 [100; 3500; 7000; 7100]) by (simpl; lia).
  split; [exact H1|]. split; [exact H2|].
  destruct (transition_run (boot decay_standard) "pirate" 7000 (CbExternal 0)
              0 [100; 3500; 7000; 7100] H1 H2) as (_ & _ & _ & H).
  destruct (H 2%nat 7000 eq_refl) as (_ & Hp & _ & _ & _ & _ & _ & Hc & _).
  split; [exact Hp|].
  destruct (Hc eq_refl) as (_ & _ & _ & Hn). exact Hn.
Defined.


(** ** One timer at a time *)

Lemma single_timer_same (w w' : world) :
  timer (ctl w') = timer (ctl w) -> intervals w' = intervals w ->
  single_timer w -> single_timer w'.
Proof. unfold single_timer. by intros -> ->. Qed.

Lemma single_timer_intro (w : world) (id : nat) (cb : interval_cb) :
  timer (ctl w) = Some id -> intervals w = {[ id := cb ]} -> single_timer w.
Proof. unfold single_timer. intros -> ->. by exists cb. Qed.

(** The invariant bounds the number of active intervals by one. *)
Lemma single_timer_size (w : world) :
  single_timer w -> (size (intervals w) <= 1)%nat.
Proof.
  unfold single_timer. destruct (timer (ctl w)).
  - intros [cb ->]. by rewrite map_size_singleton.
  - intros ->. rewrite map_size_empty. lia.
Qed.

Lemma single_timer_startTransition (now : Z) (to : string) (dur : Z)
    (cb : option callback) (w : world) :
  single_timer w -> single_timer (startTransition now to dur cb w).
Proof.
  destruct (startTransition_spec now to dur cb w)
    as ((_ & _ & _ & _ & _ & Ht & _) & _ & _ & _ & _ & _ & _ & _ & Hi).
  unfold single_timer. rewrite Ht, Hi. intros H.
  exists IvUpdateTransition.
  destruct (timer (ctl w)) as [id|].
  - destruct H as [cb0 ->]. by rewrite delete_singleton_eq, insert_empty.
  - by rewrite H, insert_empty.
Qed.

Lemma single_timer_updateTransition (now : Z) (w : world) :
  single_timer w -> single_timer (updateTransition now w).
Proof.
  unfold updateTransition. rewrite notify_spec.
  destruct w as [c iv tos nx tr]; destruct c as [? ? ? tm ? ? ? ? ? ? tc ? ?].
  unfold single_timer. cbn -[min_one div_Z ge_one].
  destruct (ge_one _); [|done].
  intros H.
  assert (E : match tm with Some id => delete id iv | None => iv end = ∅).
  { destruct tm as [id|]; [|done].
    destruct H as [cb0 ->]. apply delete_singleton_eq. }
  destruct tm as [id|]; destruct tc as [[| |n]|]; cbn; done.
Qed.

Lemma single_timer_set_timeout (cb : timeout_cb) (due : Z) (w : world) :
  single_timer w -> single_timer (set_timeout cb due w).
Proof. intros H. exact H. Qed.

Lemma single_timer_beginDeath (now : Z) (w : world) :
  single_timer w -> single_timer (beginDeath now w).
Proof.
  intros H. unfold beginDeath. destruct (isDead (ctl w)); [done|].
  apply single_timer_startTransition. by apply single_timer_set_timeout.
Qed.

Lemma single_timer_update (now : Z) (w : world) :
  single_timer w -> single_timer (update now w).
Proof.
  intros H. unfold update.
  repeat match goal with
         | |- context [if ?b then _ else _] => destruct b
         end;
    try done;
    try (by apply single_timer_updateTransition);
    try (by apply single_timer_beginDeath);
    try (rewrite notify_spec; revert H; by apply single_timer_same).
Qed.

Lemma single_timer_install (cb : interval_cb) (w : world) :
  timer (ctl w) = None -> single_timer w ->
  single_timer (let '(id, w) := set_interval cb w in
                with_ctl (set_timer (Some id)) w).
Proof.
  unfold single_timer. intros ->. simpl. intros ->.
  exists cb. apply insert_empty.
Qed.

Lemma single_timer_cancel (w : world) :
  single_timer w ->
  single_timer (match timer (ctl w) with
                | Some id =>
                    with_ctl (set_timer None) (clear_interval (Some id) w)
                | None => w
                end).
Proof.
  unfold single_timer. destruct (timer (ctl w)) as [id|] eqn:E.
  - intros [cb Hc]. simpl. rewrite Hc. apply delete_singleton_eq.
  - rewrite E. done.
Qed.

(** Every operation keeps at most one timer active, unless it is a
    [start] in standard mode while a timer is active. *)
Lemma step_single_timer (now : Z) (o : op) (w : world) :
  single_timer w -> guarded_start o w -> single_timer (step now o w).
Proof.
  intros H G. destruct o as [| |to dur oc| |onFade|v|st p| | | |id|id]; simpl.
  - unfold start. simpl. destruct (permanentPirateMode (ctl w)) eqn:Ep.
    + rewrite notify_spec. revert H. by apply single_timer_same.
    + destruct G as [G|G]; [congruence|].
      rewrite notify_spec.
      pose proof (single_timer_install IvUpdate
        (with_ctl (fun c => set_lastInteraction (Some now)
                    (set_isTransitioning false (set_isDead false c))) w))
        as Hi.
      simpl in Hi. specialize (Hi G).
      eapply single_timer_same; [| |apply Hi]; done.
  - unfold reset. destruct (_ || _); [done|].
    revert H. by apply single_timer_same.
  - by apply single_timer_startTransition.
  - by apply single_timer_beginDeath.
  - unfold enterPirateMode. apply single_timer_set_timeout.
    by apply single_timer_startTransition.
  - destruct v; [|done]. revert H. by apply single_timer_same.
  - unfold setStage. rewrite notify_spec. revert H. by apply single_timer_same.
  - by apply single_timer_cancel.
  - unfold resume. destruct (timer (ctl w)) eqn:E; [done|].
    destruct (_ && _); [|done]. by apply single_timer_install.
  - unfold destroy. eapply single_timer_same;
      [| |apply (single_timer_cancel w H)]; done.
  - unfold fire_interval. destruct (intervals w !! id) as [[|]|]; [| |done].
    + by apply single_timer_update.
    + by apply single_timer_updateTransition.
  - unfold fire_timeout. destruct (timeouts w !! id) as [[due cb]|]; [|done].
    destruct (due <=? now); [|done].
    destruct cb as [|[n|]]; simpl; revert H; by apply single_timer_same.
Qed.

Lemma run_single_timer (l : list (Z * op)) (w : world) :
  single_timer w -> Forall (fun x => snd x <> OpStart) l ->
  single_timer (run l w).
Proof.
  revert w. induction l as [|[now o] l IH]; intros w H Hl; [done|].
  apply Forall_cons in Hl as [Ho Hl]. simpl in Ho.
  apply IH; [|done]. apply step_single_timer; [done|]. by destruct o.
Qed.

(** C4, at the input where the invariant breaks. In standard mode a second
    [start] installs a tick interval without cancelling the first: two
    intervals are active, and [this.timer] only remembers the second. *)
Theorem start_twice_leaks_timer :
  let w := start 10 (start 0 (boot decay_standard)) in
  size (intervals w) = 2%nat
  /\ intervals w !! 1%nat = Some IvUpdate
  /\ intervals w !! 2%nat = Some IvUpdate
  /\ timer (ctl w) = Some 2%nat
  /\ single_timer (start 0 (boot decay_standard))
  /\ ~ single_timer w.
Proof.
  split; [vm_compute; reflexivity|]. split; [vm_compute; reflexivity|].
  split; [vm_compute; reflexivity|]. split; [vm_compute; reflexivity|].
  split.
  - apply (single_timer_intro _ 1%nat IvUpdate); vm_compute; reflexivity.
  - intros H. apply single_timer_size in H.
    assert (Hs : size (intervals (start 10 (start 0 (boot decay_standard))))
                 = 2%nat) by (vm_compute; reflexivity).
    rewrite Hs in H. lia.
Qed.


(** ** Death and pirate-mode entry *)

Lemma isDead_updateTransition (now : Z) (w : world) :
  isDead (ctl w) = true -> isDead (ctl (updateTransition now w)) = true.
Proof.
  unfold updateTransition. rewrite notify_spec.
  destruct w as [c iv tos nx tr]; destruct c as [? ? ? tm ? ? ? ? ? ? tc ? ?].
  cbn -[min_one div_Z ge_one]. intros ->.
  destruct (ge_one _); [|done].
  destruct tm as [id|]; destruct tc as [[| |n]|]; done.
Qed.

Lemma ctl_set_timeout (cb : timeout_cb) (due : Z) (w : world) :
  ctl (set_timeout cb due w) = ctl w.
Proof. reflexivity. Qed.

Lemma trace_set_timeout (cb : timeout_cb) (due : Z) (w : world) :
  trace (set_timeout cb due w) = trace w.
Proof. reflexivity. Qed.

Lemma in_flight_set_timeout (id : nat) (t0 dur : Z) (to : string)
    (cb : option callback) (tcb : timeout_cb) (due : Z) (w : world) :
  in_flight id t0 dur to cb w ->
  in_flight id t0 dur to cb (set_timeout tcb due w).
Proof. intros H. exact H. Qed.

Lemma isDead_startTransition (now : Z) (to : string) (dur : Z)
    (cb : option callback) (w : world) :
  isDead (ctl (startTransition now to dur cb w)) = isDead (ctl w).
Proof.
  by destruct (startTransition_spec now to dur cb w)
    as (_ & _ & _ & _ & _ & ? & _).
Qed.

(** Only [start] and [destroy] clear [isDead]. *)
Lemma step_keeps_dead (now : Z) (o : op) (w : world) :
  o <> OpStart -> o <> OpDestroy ->
  isDead (ctl w) = true -> isDead (ctl (step now o w)) = true.
Proof.
  intros H1 H2 Hd.
  destruct o as [| |to dur oc| |onFade|v|st p| | | |id|id]; cbn [step].
  - done.
  - unfold reset. by rewrite Hd.
  - by rewrite isDead_startTransition.
  - unfold beginDeath. by rewrite Hd.
  - unfold enterPirateMode. by rewrite ctl_set_timeout, isDead_startTransition.
  - by destruct v.
  - done.
  - unfold pause. by destruct (timer (ctl w)).
  - unfold resume. rewrite Hd. by destruct (timer (ctl w)).
  - done.
  - unfold fire_interval. destruct (intervals w !! id) as [[|]|]; [| |done].
    + unfold update. rewrite Hd.
      destruct (permanentPirateMode (ctl w)); [done|].
      destruct (isTransitioning (ctl w)); [|done].
      by apply isDead_updateTransition.
    + by apply isDead_updateTransition.
  - unfold fire_timeout. destruct (timeouts w !! id) as [[due cb]|]; [|done].
    destruct (due <=? now); [|done]. by destruct cb as [|[n|]].
Qed.

Lemma run_keeps_dead (l : list (Z * op)) (w : world) :
  Forall (fun x => snd x <> OpStart /\ snd x <> OpDestroy) l ->
  isDead (ctl w) = true -> isDead (ctl (run l w)) = true.
Proof.
  revert w. induction l as [|[now o] l IH]; intros w Hl Hd; [done|].
  apply Forall_cons in Hl as [[Ho1 Ho2] Hl]. simpl in Ho1, Ho2.
  apply IH; [done|]. by apply step_keeps_dead.
Qed.

Lemma dead_noops (w : world) :
  isDead (ctl w) = true ->
  (forall now, reset now w = w) /\ resume w = w
  /\ (forall now, beginDeath now w = w).
Proof.
  intros Hd. unfold reset, resume, beginDeath. rewrite Hd. simpl.
  repeat split. by destruct (timer (ctl w)).
Qed.

(** C3, as the code has it. [beginDeath] is guarded on [isDead] alone. A
    call made while the controller is not dead schedules its 75% timeout
    and starts the death transition; a second call made before that
    transition has completed schedules a second timeout and starts the
    transition again from the new time, on a new timer, after cancelling
    the timer of the first. One timer is active, one completion closure is
    stored, and it runs exactly once, when the restarted transition
    completes; from then on [beginDeath] returns the world it was given. *)
Theorem beginDeath_guard (w : world) (t1 t2 : Z) (ts : list Z) :
  isDead (ctl w) = false ->
  monotone_from t2 ts ->
  let deathDuration := CONFIG.death CONFIG.standard in
  let delay := Qfloor (inject_Z deathDuration * 0.75) in
  let w1 := beginDeath t1 w in
  let w2 := beginDeath t2 w1 in
  let gasp1 := next_id w in
  let id1 := S (next_id w) in
  let gasp2 := S (S (next_id w)) in
  let id2 := S (S (S (next_id w))) in
  timeouts w1 = <[gasp1 := (t1 + delay, ToGasp)]> (timeouts w)
  /\ in_flight id1 t1 deathDuration "death" (Some CbDeath) w1
  /\ isDead (ctl w1) = false
  /\ timeouts w2 = <[gasp2 := (t2 + delay, ToGasp)]> (timeouts w1)
  /\ in_flight id2 t2 deathDuration "death" (Some CbDeath) w2
  /\ intervals w2 !! id1 = None
  /\ (single_timer w -> single_timer w2)
  /\ trace w2 = trace w
  /\ (forall (k : nat) (t : Z), ts !! k = Some t -> t2 + deathDuration <= t ->
      let wf := run_ticks id2 (take (S k) ts) w2 in
      callback_count CbDeath (trace wf)
        = S (callback_count CbDeath (trace w))
      /\ isDead (ctl wf) = true
      /\ forall t3, beginDeath t3 wf = wf).
Proof.
  intros Hd Hm deathDuration delay w1 w2 gasp1 id1 gasp2 id2.
  assert (E1 : w1 = startTransition t1 "death" 2000 (Some CbDeath)
                      (set_timeout ToGasp (t1 + 1500) w)).
  { subst w1. unfold beginDeath. by rewrite Hd. }
  destruct (startTransition_spec t1 "death" 2000 (Some CbDeath)
              (set_timeout ToGasp (t1 + 1500) w))
    as (A1 & A2 & A3 & A4 & _ & A6 & _ & _ & A9).
  rewrite <- E1 in A1, A2, A3, A4, A6, A9. simpl in A1, A2, A3, A4, A6, A9.
  rewrite Hd in A6.
  assert (E2 : w2 = startTransition t2 "death" 2000 (Some CbDeath)
                      (set_timeout ToGasp (t2 + 1500) w1)).
  { subst w2. unfold beginDeath. by rewrite A6. }
  destruct (startTransition_spec t2 "death" 2000 (Some CbDeath)
              (set_timeout ToGasp (t2 + 1500) w1))
    as (B1 & B2 & B3 & B4 & _ & B6 & _ & _ & B9).
  rewrite <- E2 in B1, B2, B3, B4, B6, B9. simpl in B1, B2, B3, B4, B6, B9.
  rewrite A4 in B1, B3, B9.
  pose proof A1 as (_ & _ & _ & _ & _ & A1t & _). rewrite A1t in B9.
  split; [done|]. split; [done|]. split; [done|].
  split; [done|]. split; [done|].
  split.
  { rewrite B9. rewrite lookup_insert_ne by (subst id1; lia).
    apply lookup_delete_eq. }
  split.
  { intros Hs. subst w2. apply single_timer_beginDeath.
    subst w1. by apply single_timer_beginDeath. }
  split; [by rewrite B2, A2|].
  intros k t Hk Ht wf.
  assert (Hrun := run_ticks_transition id2 t2 2000 "death" CbDeath
            (callback_count CbDeath (trace w)) ltac:(lia) ts w2 k t B1
            ltac:(by rewrite B2, A2) Hm Hk).
  fold wf in Hrun. destruct Hrun as (_ & _ & _ & _ & _ & Htrue & _).
  destruct (progress_cases (t - t2) 2000 ltac:(lia))
    as [(_ & _ & Hge)|(Hlt & _)]; [|subst deathDuration; simpl in Ht; lia].
  destruct (Htrue Hge) as (_ & _ & _ & Hc & Hdead).
  split; [done|]. split; [by apply Hdead|].
  intros t3. apply dead_noops. by apply Hdead.
Qed.


Lemma beginDeath_guard_witness :
  let w := start 0 (boot decay_standard) in
  let w2 := beginDeath 32050 (beginDeath 32000 w) in
  isDead (ctl w) = false
  /\ monotone_from 32050 [32100; 34050]
  /\ callback_count CbDeath (trace (run_ticks 5 [32100; 34050] w2)) = 1%nat
  /\ isDead (ctl (run_ticks 5 [32100; 34050] w2)) = true.
Proof.
  assert (H1 : isDead (ctl (start 0 (boot decay_standard))) = false)
    by (vm_compute; reflexivity).
  assert (H2 : monotone_from 32050 [32100; 34050]) by (simpl; lia).
  split; [exact H1|]. split; [exact H2|].
  destruct (beginDeath_guard (start 0 (boot decay_standard)) 32000 32050
              [32100; 34050] H1 H2) as (_ & _ & _ & _ & _ & _ & _ & _ & H).
  destruct (H 1%nat 34050 eq_refl ltac:(simpl; lia)) as (Hc & Hd & _).
  split; [exact Hc | exact Hd].
Defined.

(** C3 as stated fails: the second of two successive calls, made while the
    death transition is running and [isDead] is still false, schedules a
    second timeout and starts the transition again on another timer. *)
Lemma beginDeath_twice_counterexample :
  let w := start 0 (boot decay_standard) in
  let w1 := beginDeath 32000 w in
  let w2 := beginDeath 32050 w1 in
  isTransitioning (ctl w1) = true
  /\ isDead (ctl w1) = false
  /\ size (timeouts w1) = 1%nat
  /\ size (timeouts w2) = 2%nat
  /\ size (timeouts w2) <> 1%nat
  /\ transitionStartTime (ctl w1) = Some 32000
  /\ transitionStartTime (ctl w2) = Some 32050
  /\ timer (ctl w1) = Some 3%nat
  /\ timer (ctl w2) = Some 5%nat
  /\ w2 <> w1.
Proof.
  split; [vm_compute; reflexivity|]. split; [vm_compute; reflexivity|].
  split; [vm_compute; reflexivity|]. split; [vm_compute; reflexivity|].
  split; [vm_compute; discriminate|].
  split; [vm_compute; reflexivity|]. split; [vm_compute; reflexivity|].
  split; [vm_compute; reflexivity|]. split; [vm_compute; reflexivity|].
  intros H.
    assert (H1 : timer (ctl (beginDeath 32050 (beginDeath 32000
                   (start 0 (boot decay_standard))))) = Some 5%nat)
      by (vm_compute; reflexivity).
    assert (H2 : timer (ctl (beginDeath 32000
                   (start 0 (boot decay_standard)))) = Some 3%nat)
      by (vm_compute; reflexivity).
  rewrite H, H2 in H1. discriminate.
Qed.

(** C10 as stated fails: after the pirate transition has set [isDead], a
    [start] clears the flag without any [destroy], and in standard mode
    [reset] then records the interaction again. *)
Lemma start_revives_after_pirate :
  let w := boot decay_standard in
  let wf := run_ticks 1 [100; 7000] (enterPirateMode 0 None w) in
  let w' := start 8000 wf in
  isDead (ctl wf) = true
  /\ reset 7500 wf = wf
  /\ isDead (ctl w') = false
  /\ lastInteraction (ctl w') = Some 8000
  /\ lastInteraction (ctl (reset 9000 w')) = Some 9000
  /\ reset 9000 w' <> w'.
Proof.
  split; [vm_compute; reflexivity|]. split; [vm_compute; reflexivity|].
  split; [vm_compute; reflexivity|]. split; [vm_compute; reflexivity|].
  split; [vm_compute; reflexivity|].
  intros H.
  assert (H1 : lastInteraction (ctl (reset 9000 (start 8000
                 (run_ticks 1 [100; 7000]
                    (enterPirateMode 0 None (boot decay_standard))))))
               = Some 9000) by (vm_compute; reflexivity).
  assert (H2 : lastInteraction (ctl (start 8000
                 (run_ticks 1 [100; 7000]
                    (enterPirateMode 0 None (boot decay_standard)))))
               = Some 8000) by (vm_compute; reflexivity).
  rewrite H, H2 in H1. discriminate.
Qed.

(** C10. The transition [enterPirateMode] starts ends, once the clock has
    advanced by the colour-shift duration, with the stage pirate, the
    progress 1.0 and [isDead] set by its completion closure. From then on,
    through every sequence of operations without [start] and [destroy],
    [isDead] stays set and [reset] and [resume] return the world they are
    given; [destroy] clears the flag, and so does [start]. *)
Theorem pirate_entry_sets_isDead (w : world) (t0 : Z)
    (onFadeComplete : option nat) (ts : list Z) (k : nat) (t : Z) :
  monotone_from t0 ts ->
  ts !! k = Some t ->
  t0 + CONFIG.colorShiftDuration CONFIG.pirate <= t ->
  let w1 := enterPirateMode t0 onFadeComplete w in
  let id := next_id w in
  let wf := run_ticks id (take (S k) ts) w1 in
  in_flight id t0 (CONFIG.colorShiftDuration CONFIG.pirate) "pirate"
            (Some CbPirate) w1
  /\ isDead (ctl w1) = isDead (ctl w)
  /\ stage (ctl wf) = Some "pirate"
  /\ progress (ctl wf) = Fin 1
  /\ isTransitioning (ctl wf) = false
  /\ timer (ctl wf) = None
  /\ isDead (ctl wf) = true
  /\ (forall l : list (Z * op),
      Forall (fun x => snd x <> OpStart /\ snd x <> OpDestroy) l ->
      let w' := run l wf in
      isDead (ctl w') = true
      /\ (forall now, reset now w' = w')
      /\ resume w' = w')
  /\ (forall w', isDead (ctl (destroy w')) = false)
  /\ (forall now w', isDead (ctl (start now w')) = false).
Proof.
  intros Hm Hk Ht w1 id wf.
  change (CONFIG.colorShiftDuration CONFIG.pirate) with 7000 in *.
  destruct (startTransition_spec t0 "pirate" 7000 (Some CbPirate) w)
    as (A1 & A2 & _ & _ & _ & A6 & _).
  assert (Hf : in_flight id t0 7000 "pirate" (Some CbPirate) w1)
    by (by apply in_flight_set_timeout).
  assert (Htr : trace w1 = trace w)
    by (subst w1; unfold enterPirateMode; by rewrite trace_set_timeout).
  split; [exact Hf|].
  split; [subst w1; unfold enterPirateMode; by rewrite ctl_set_timeout|].
  assert (Hrun := run_ticks_transition id t0 7000 "pirate" CbPirate
            (callback_count CbPirate (trace w)) ltac:(lia) ts w1 k t Hf
            ltac:(by rewrite Htr) Hm Hk).
  fold wf in Hrun. destruct Hrun as (Es & Ep & _ & _ & _ & Htrue & _).
  destruct (progress_cases (t - t0) 7000 ltac:(lia))
    as [(_ & E1 & Hge)|(Hlt & _)]; [|lia].
  destruct (Htrue Hge) as (T1 & _ & T3 & _ & Hdead).
  specialize (Hdead eq_refl).
  split; [done|]. split; [by rewrite Ep|]. split; [done|].
  split; [done|]. split; [done|].
  split.
  { intros l Hl w'.
    assert (Hd' : isDead (ctl w') = true) by (by apply run_keeps_dead).
    split; [done|]. destruct (dead_noops w' Hd') as (? & ? & _). done. }
  split.
  { intros w'. unfold destroy. by destruct (timer (ctl w')). }
  intros now w'. unfold start. simpl.
  destruct (permanentPirateMode (ctl w')); by rewrite notify_spec.
Qed.

Lemma pirate_entry_sets_isDead_witness :
  let w := boot decay in
  let wf := run_ticks 1 [100; 7000] (enterPirateMode 0 (Some 5%nat) w) in
  monotone_from 0 [100; 7000]
  /\ 0 + CONFIG.colorShiftDuration CONFIG.pirate <= 7000
  /\ isDead (ctl wf) = true
  /\ reset 8000 wf = wf
  /\ resume wf = wf.
Proof.
  assert (H1 : monotone_from 0 [100; 7000]) by (simpl; lia).
  assert (H2 : 0 + CONFIG.colorShiftDuration CONFIG.pirate <= 7000)
    by (simpl; lia).
  split; [exact H1|]. split; [exact H2|].
  destruct (pirate_entry_sets_isDead (boot decay) 0 (Some 5%nat) [100; 7000]
              1%nat 7000 H1 eq_refl H2)
    as (_ & _ & _ & _ & _ & _ & Hd & Hn & _).
  split; [exact Hd|].
  destruct (Hn [] ltac:(constructor)) as (_ & Hr & Hs).
  split; [exact (Hr 8000) | exact Hs].
Defined.

End DecayFacts.

(** * Properties of the beam scanner *)

Module BeamFacts.
Import JS Beam.

Lemma speeds_unknown (stage : string) :
  stage <> "healthy" -> stage <> "panic" -> stage <> "decay" ->
  stage <> "death" -> stage <> "pirate" ->
  speeds !! stage = None.
Proof.
  intros. unfold speeds.
  rewrite !lookup_insert_ne by done. apply lookup_empty.
Qed.

(** The speed after a synchronisation depends on the stage alone. *)
Lemma syncToDecay_speed (stage : string) (p : jsnum) (b : beam) :
  currentSpeed (syncToDecay stage p b) = lookup_or speeds stage 8.
Proof.
  unfold syncToDecay.
  destruct (Z.eqb_spec (lookup_or speeds stage 8) (currentSpeed b)); [done|].
  by destruct (String.eqb stage "death").
Qed.

(** The speeds of the stages that are not [death], and the fallback. *)
Lemma syncToDecay_speed_table (stage : string) (p : jsnum) (b : beam) :
  (stage = "healthy" -> currentSpeed (syncToDecay stage p b) = 8)
  /\ (stage = "panic" -> currentSpeed (syncToDecay stage p b) = 5)
  /\ (stage = "decay" -> currentSpeed (syncToDecay stage p b) = 15)
  /\ (stage = "pirate" -> currentSpeed (syncToDecay stage p b) = 8)
  /\ (stage <> "healthy" -> stage <> "panic" -> stage <> "decay" ->
      stage <> "death" -> stage <> "pirate" ->
      currentSpeed (syncToDecay stage p b) = 8).
Proof.
  rewrite syncToDecay_speed.
  repeat split; try (intros ->; reflexivity).
  intros. unfold lookup_or. by rewrite speeds_unknown.
Qed.

(** C8, at the stage where the code departs from it. The table gives
    [death] the speed 0, but [speeds[stage] || 8] reads the 0 as a missing
    entry: the speed at death is 8, not 0, and a beam that was scanning at
    8 seconds is left running, neither slowed nor paused. *)
Theorem syncToDecay_death_speed :
  speeds !! "death" = Some 0
  /\ lookup_or speeds "death" 8 = 8
  /\ (forall p b, currentSpeed (syncToDecay "death" p b) = 8)
  /\ (forall p, syncToDecay "death" p new_beam = new_beam)
  /\ isPaused new_beam = false
  /\ (forall p,
      let b := syncToDecay "death" p (syncToDecay "decay" p new_beam) in
      currentSpeed b = 8 /\ beam_speed b = Some 8 /\ isPaused b = true).
Proof.
  split; [reflexivity|]. split; [reflexivity|].
  split; [intros p b; by rewrite syncToDecay_speed|].
  repeat split.
Qed.

End BeamFacts.

(** * Properties of the particle field *)

Module ParticleFacts.
Import JS Particles.



Lemma targetCount_death (n : nat) : targetCount n 0 = 0.
Proof.
  unfold targetCount, Qfloor. simpl. by rewrite Z.mul_0_r.
Qed.

Lemma fadeLayer_lookup (r : Q) (l : layer) (i : nat) (pt : particle) :
  field l !! i = Some pt ->
  field (fadeLayer r l) !! i
  = Some (if targetCount (length (field l)) r <=? Z.of_nat i
          then fade pt else pt).
Proof.
  intros H. unfold fadeLayer. simpl. rewrite list_lookup_imap, H. done.
Qed.




End ParticleFacts.

(** * Properties of the audio engine's volume control *)

Module AudioFacts.
Import JS Audio AudioSpec.

Lemma ramp_if_present_spec (name : string) (v : jsnum) (a : audio) :
  volumeLevel (ramp_if_present name v a) = volumeLevel a
  /\ baseVolume (ramp_if_present name v a) = baseVolume a
  /\ (ops (ramp_if_present name v a) = ops a
      \/ ops (ramp_if_present name v a) = ops a ++ [Ramp name v]).
Proof.
  unfold ramp_if_present. destruct (nodes a !! name); simpl; auto.
Qed.

(** [updateHumVolumes] only adds ramps among the five of its target. *)
Lemma updateHumVolumes_ops (a : audio) :
  exists new,
    ops (updateHumVolumes a) = ops a ++ new
    /\ Forall (fun o => o ∈ hum_ramps
                 (times_opt (baseVolume a)
                    (index volumeMultipliers (volumeLevel a)))) new.
Proof.
  unfold updateHumVolumes.
  set (T := times_opt (baseVolume a) (index volumeMultipliers (volumeLevel a))).
  set (a1 := ramp_if_present "humGain" (max_floor T) a).
  set (a2 := ramp_if_present "harmonic2Gain" (max_floor (times T 0.3)) a1).
  set (a3 := ramp_if_present "harmonic3Gain" (max_floor (times T 0.15)) a2).
  set (a4 := ramp_if_present "schumannGain" (max_floor (times T 1.8)) a3).
  destruct (ramp_if_present_spec "humGain" (max_floor T) a)
    as (_ & _ & H1).
  destruct (ramp_if_present_spec "harmonic2Gain" (max_floor (times T 0.3)) a1)
    as (_ & _ & H2).
  destruct (ramp_if_present_spec "harmonic3Gain" (max_floor (times T 0.15)) a2)
    as (_ & _ & H3).
  destruct (ramp_if_present_spec "schumannGain" (max_floor (times T 1.8)) a3)
    as (_ & _ & H4).
  destruct (ramp_if_present_spec "schumannHarmonicGain"
              (max_floor (times T 0.6)) a4) as (_ & _ & H5).
  fold a1 in H1. fold a2 in H2. fold a3 in H3. fold a4 in H4.
  assert (E : forall (x y : list gain_op) o,
            (y = x \/ y = x ++ [o]) ->
            exists n, y = x ++ n /\ (n = [] \/ n = [o])).
  { intros x y o [->| ->]; [exists []|exists [o]]; rewrite ?app_nil_r; auto. }
  apply E in H1 as (n1 & H1 & N1). apply E in H2 as (n2 & H2 & N2).
  apply E in H3 as (n3 & H3 & N3). apply E in H4 as (n4 & H4 & N4).
  apply E in H5 as (n5 & H5 & N5).
  exists (n1 ++ n2 ++ n3 ++ n4 ++ n5).
  split; [by rewrite H5, H4, H3, H2, H1, <- !app_assoc|].
  unfold hum_ramps.
  rewrite !Forall_app.
  repeat split;
    match goal with
    | H : ?n = [] \/ ?n = [_] |- Forall _ ?n =>
        destruct H as [->| ->]; [constructor|]
    end;
    (constructor; [|constructor]); rewrite !elem_of_cons; auto 10.
Qed.


Ltac absolute_closed :=
  right; eexists _, _;
  split; [reflexivity|]; split; [reflexivity|];
  split; [vm_compute; reflexivity|];
  split; [apply Qle_bool_imp_le; vm_compute; reflexivity|];
  intros Hc;
  first [ by vm_compute in Hc
        | apply Qle_bool_imp_le; vm_compute; reflexivity ].

Lemma hum_ramps_absolute (m : Q) (o : gain_op) :
  m = 0.3%Q \/ m = 0.6%Q \/ m = 1.0%Q ->
  o ∈ hum_ramps (times_opt 0.04 (Some m)) ->
  absolute_gain 0.04 m o.
Proof.
  intros Hm Ho. unfold hum_ramps in Ho.
  rewrite !elem_of_cons, elem_of_nil in Ho.
  destruct Hm as [->|[->| ->]];
    destruct Ho as [->|[->|[->|[->|[->|[]]]]]]; absolute_closed.
Qed.

Lemma setupSchumannHum_ops (a : audio) :
  let T := times_opt (baseVolume a)
             (index volumeMultipliers (volumeLevel a)) in
  ops (setupSchumannHum a)
  = ops a ++ [SetValue "schumannLFOGain" (Fin 3);
              SetValue "schumannGain" (times T 1.8);
              SetValue "schumannHarmonicGain" (times T 0.6)]
  /\ volumeLevel (setupSchumannHum a) = volumeLevel a.
Proof.
  unfold setupSchumannHum, create_gain, create_oscillator, log_op. simpl.
  by rewrite <- !app_assoc.
Qed.

Lemma setupCRTHum_ops (a : audio) :
  isDeathSequence a = false -> isPirateMode a = false ->
  let T := times_opt (baseVolume a)
             (index volumeMultipliers (volumeLevel a)) in
  ops (setupCRTHum a)
  = ops a ++ [SetValue "humGain" T;
              SetValue "harmonic2Gain" (times T 0.3);
              SetValue "harmonic3Gain" (times T 0.15)]
  /\ volumeLevel (setupCRTHum a) = volumeLevel a.
Proof.
  intros D P. unfold setupCRTHum. simpl. rewrite D, P. simpl.
  by rewrite <- !app_assoc.
Qed.

Lemma updateHumVolumes_level (a : audio) :
  volumeLevel (updateHumVolumes a) = volumeLevel a.
Proof.
  unfold updateHumVolumes.
  by repeat match goal with
     | |- context [ramp_if_present ?n ?v ?y] =>
         destruct (ramp_if_present_spec n v y) as (-> & _ & _)
     end.
Qed.

Lemma setVolumeLevel_level (l : Z) (a : audio) :
  volumeLevel (setVolumeLevel l a) = l.
Proof.
  unfold setVolumeLevel. cbn [volumeLevel isPirateMode isDeathSequence].
  destruct (l =? 0); [reflexivity|].
  destruct (_ && _); [by destruct (setupSchumannHum_ops
    {| volumeLevel := l; baseVolume := baseVolume a;
       isDeathSequence := isDeathSequence a; isPirateMode := isPirateMode a;
       nodes := nodes a; ops := ops a |}) as [_ ->]|].
  destruct (_ && _) eqn:C.
  - apply andb_prop in C as [C _]. apply andb_prop in C as [P D].
    apply negb_true_iff in P, D.
    by destruct (setupCRTHum_ops
      {| volumeLevel := l; baseVolume := baseVolume a;
         isDeathSequence := isDeathSequence a; isPirateMode := isPirateMode a;
         nodes := nodes a; ops := ops a |} D P) as [_ ->].
  - by rewrite updateHumVolumes_level.
Qed.

(** C7, as the code has it. [setVolumeLevel] stores the level it is given;
    the volume button only ever gives it [(level + 1) % 4], so the level
    stays in 0..3. At a level from 1 to 3, whose multiplier is 0.3, 0.6 or
    1.0, every gain the call writes or ramps is the absolute value
    [baseVolume * multiplier * k], [k] a constant of the node, whatever
    the gain was before: never negative, and at most [baseVolume] for the
    CRT hum and its harmonics. At level 0 nothing is ramped: the hums are
    torn down. The cycle 0, 1, 2, 3, 0, 1 selects the multipliers
    0, 0.3, 0.6, 1.0, 0, 0.3 and writes the CRT hum gains in that order. *)
Theorem setVolumeLevel_absolute (a : audio) (level : Z) :
  baseVolume a = 0.04%Q ->
  1 <= level <= 3 ->
  (exists m new,
      index volumeMultipliers level = Some m
      /\ (m = 0.3%Q \/ m = 0.6%Q \/ m = 1.0%Q)
      /\ volumeLevel (setVolumeLevel level a) = level
      /\ ops (setVolumeLevel level a) = ops a ++ new
      /\ Forall (absolute_gain (baseVolume a) m) new)
  /\ ops (setVolumeLevel 0 a) = ops a
  /\ Forall (fun name => nodes (setVolumeLevel 0 a) !! name = None)
       ["hum"; "harmonic2"; "harmonic3";
        "humGain"; "harmonic2Gain"; "harmonic3Gain";
        "schumannCarrier"; "schumannLFO"; "schumannHarmonic";
        "schumannGain"; "schumannLFOGain"; "schumannHarmonicGain"]
  /\ (forall l a', volumeLevel (setVolumeLevel l a') = l)
  /\ (forall a', 0 <= volumeLevel a' <= 3 ->
      0 <= volumeLevel (clickVolume a') <= 3
      /\ volumeLevel (clickVolume a') = (volumeLevel a' + 1) mod 4)
  /\ (let a0 := setVolumeLevel 0 new_audio in
      let a1 := setVolumeLevel 1 a0 in
      let a2 := setVolumeLevel 2 a1 in
      let a3 := setVolumeLevel 3 a2 in
      let a4 := setVolumeLevel 0 a3 in
      let a5 := setVolumeLevel 1 a4 in
      map (fun x => index volumeMultipliers (volumeLevel x))
          [a0; a1; a2; a3; a4; a5]
      = [Some 0%Q; Some 0.3%Q; Some 0.6%Q; Some 1.0%Q; Some 0%Q; Some 0.3%Q]
      /\ ops a0 = []
      /\ ops a5
         = [SetValue "humGain" (Fin (0.04 * 0.3));
            SetValue "harmonic2Gain" (Fin (0.04 * 0.3 * 0.3));
            SetValue "harmonic3Gain" (Fin (0.04 * 0.3 * 0.15));
            Ramp "humGain" (Fin (0.04 * 0.6));
            Ramp "harmonic2Gain" (Fin (0.04 * 0.6 * 0.3));
            Ramp "harmonic3Gain" (Fin (0.04 * 0.6 * 0.15));
            Ramp "humGain" (Fin (0.04 * 1.0));
            Ramp "harmonic2Gain" (Fin (0.04 * 1.0 * 0.3));
            Ramp "harmonic3Gain" (Fin (0.04 * 1.0 * 0.15));
            SetValue "humGain" (Fin (0.04 * 0.3));
            SetValue "harmonic2Gain" (Fin (0.04 * 0.3 * 0.3));
            SetValue "harmonic3Gain" (Fin (0.04 * 0.3 * 0.15))]).
Proof.
  intros Hb Hl. split.
  { assert (Hm : exists m, index volumeMultipliers level = Some m
                 /\ (m = 0.3%Q \/ m = 0.6%Q \/ m = 1.0%Q)).
    { assert (level = 1 \/ level = 2 \/ level = 3) as [->|[->| ->]] by lia;
        eexists; (split; [reflexivity|]); auto. }
    destruct Hm as (m & Hi & Hm). exists m.
    assert (Hne : (level =? 0) = false) by (apply Z.eqb_neq; lia).
    pose proof (setVolumeLevel_level level a) as Hlev.
    unfold setVolumeLevel in *.
    cbn [volumeLevel isPirateMode isDeathSequence] in *.
    rewrite Hne in *.
    set (a' := {| volumeLevel := level; baseVolume := baseVolume a;
                  isDeathSequence := isDeathSequence a;
                  isPirateMode := isPirateMode a;
                  nodes := nodes a; ops := ops a |}) in *.
    assert (HT : times_opt (baseVolume a')
                   (index volumeMultipliers (volumeLevel a'))
                 = times_opt 0.04 (Some m)).
    { subst a'. cbn [baseVolume volumeLevel]. by rewrite Hi, Hb. }
    rewrite Hb.
    destruct (isPirateMode a && negb (present "schumannCarrier" a')) eqn:C1.
    - destruct (setupSchumannHum_ops a') as [Ho _]. rewrite HT in Ho.
      exists [SetValue "schumannLFOGain" (Fin 3);
              SetValue "schumannGain" (times (times_opt 0.04 (Some m)) 1.8);
              SetValue "schumannHarmonicGain"
                (times (times_opt 0.04 (Some m)) 0.6)].
      split; [done|]. split; [done|]. split; [done|].
      split; [exact Ho|].
      constructor; [by left|].
      constructor; [|constructor; [|constructor]];
        destruct Hm as [->|[->| ->]]; absolute_closed.
    - destruct (negb (isPirateMode a) && negb (isDeathSequence a)
                && negb (present "hum" a')) eqn:C2.
      + apply andb_prop in C2 as [C2 _]. apply andb_prop in C2 as [P D].
        apply negb_true_iff in P, D.
        destruct (setupCRTHum_ops a' D P) as [Ho _]. rewrite HT in Ho.
        exists [SetValue "humGain" (times_opt 0.04 (Some m));
                SetValue "harmonic2Gain" (times (times_opt 0.04 (Some m)) 0.3);
                SetValue "harmonic3Gain"
                  (times (times_opt 0.04 (Some m)) 0.15)].
        split; [done|]. split; [done|]. split; [done|].
        split; [exact Ho|].
        constructor; [|constructor; [|constructor; [|constructor]]];
          destruct Hm as [->|[->| ->]]; absolute_closed.
      + destruct (updateHumVolumes_ops a') as (new & Ho & Hf).
        rewrite HT in Hf.
        exists new. split; [done|]. split; [done|]. split; [done|].
        split; [exact Ho|].
        eapply Forall_impl; [exact Hf|].
        intros o Ho'. by apply hum_ramps_absolute. }
  split; [reflexivity|].
  split.
  { unfold setVolumeLevel. simpl.
    repeat constructor; unfold cleanupBeam, cleanupSchumannHum, cleanupCRTHum,
      cleanup; simpl;
      repeat first [ apply lookup_delete_eq
                   | rewrite lookup_delete_ne by done ]. }
  split; [exact setVolumeLevel_level|].
  split.
  { intros a' Hr. unfold clickVolume.
    rewrite setVolumeLevel_level, Z.rem_mod_nonneg by lia.
    split; [|done]. pose proof (Z.mod_pos_bound (volumeLevel a' + 1) 4). lia. }
  split; [vm_compute; reflexivity|].
  split; vm_compute; reflexivity.
Qed.


Lemma setVolumeLevel_absolute_witness :
  baseVolume new_audio = 0.04%Q
  /\ 1 <= 2 <= 3
  /\ exists new, ops (setVolumeLevel 2 (setVolumeLevel 1 new_audio))
                 = ops (setVolumeLevel 1 new_audio) ++ new
       /\ Forall (absolute_gain 0.04 0.6) new.
Proof.
  assert (H1 : baseVolume (setVolumeLevel 1 new_audio) = 0.04%Q)
    by (vm_compute; reflexivity).
  assert (H2 : 1 <= 2 <= 3) by lia.
  split; [reflexivity|]. split; [exact H2|].
  destruct (setVolumeLevel_absolute (setVolumeLevel 1 new_audio) 2 H1 H2)
    as ((m & new & Hi & _ & _ & Ho & Hf) & _).
  exists new. split; [exact Ho|].
  rewrite H1 in Hf.
  assert (Hm : Some m = Some 0.6%Q) by (rewrite <- Hi; reflexivity).
  injection Hm as ->. exact Hf.
Defined.

(** C7 as stated fails: in pirate mode the Schumann carrier is set to 1.8
    times the level's volume, which at level 3 is 1.8 times the base
    volume; and a level outside 0..3 is stored as given. *)
Lemma schumann_gain_exceeds_base :
  let a := setVolumeLevel 3 (set_isPirateMode true new_audio) in
  ops a = [SetValue "schumannLFOGain" (Fin 3);
           SetValue "schumannGain" (Fin (0.04 * 1.0 * 1.8));
           SetValue "schumannHarmonicGain" (Fin (0.04 * 1.0 * 0.6))]
  /\ nodes a !! "schumannGain" = Some (Gain (Fin (0.04 * 1.0 * 1.8)))
  /\ ~ (0.04 * 1.0 * 1.8 <= 1.0 * baseVolume a)%Q
  /\ ops (setVolumeLevel 2 a)
     = ops a ++ [Ramp "schumannGain" (Fin (0.04 * 0.6 * 1.8));
                 Ramp "schumannHarmonicGain" (Fin (0.04 * 0.6 * 0.6))]
  /\ ~ (0.04 * 0.6 * 1.8 <= 1.0 * baseVolume a)%Q
  /\ volumeLevel (setVolumeLevel 7 new_audio) = 7.
Proof.
  split; [vm_compute; reflexivity|]. split; [vm_compute; reflexivity|].
  split; [vm_compute; intros H; by apply H|].
  split; [vm_compute; reflexivity|].
  split; [vm_compute; intros H; by apply H|].
  vm_compute; reflexivity.
Qed.

End AudioFacts.

(** * More properties of the lifecycle controller *)

Module DecayMore.
Import JS Decay DecaySpec DecayRuns DecayFacts.

Lemma run_starts_guarded (l : list (Z * op)) (w : world) :
  single_timer w -> starts_guarded l w -> single_timer (run l w).
Proof.
  revert w. induction l as [|[now o] l IH]; intros w H G; [done|].
  destruct G as [G1 G2]. simpl in G1, G2.
  apply IH; [|done]. by apply step_single_timer.
Qed.

(** X1. From a world whose only active interval is the one remembered in
    [this.timer], every run of operations in which [start] is only issued
    in permanent mode or while no timer is held keeps at most one interval
    active, and that interval is always the one [this.timer] holds, so it
    can be cancelled. *)
Theorem guarded_runs_keep_one_timer (l : list (Z * op)) (w : world) :
  single_timer w ->
  starts_guarded l w ->
  (size (intervals (run l w)) <= 1)%nat
  /\ (forall id cb, intervals (run l w) !! id = Some cb ->
      timer (ctl (run l w)) = Some id)
  /\ (timer (ctl (run l w)) = None -> intervals (run l w) = ∅).
Proof.
  intros H G. pose proof (run_starts_guarded l w H G) as Hs.
  split; [by apply single_timer_size|].
  unfold single_timer in Hs.
  destruct (timer (ctl (run l w))) as [id'|].
  - destruct Hs as [cb' Hs]. split; [|done].
    intros id cb Hl. rewrite Hs in Hl.
    apply lookup_singleton_Some in Hl as [-> _]. done.
  - split; [|done]. intros id cb Hl. rewrite Hs in Hl.
    by rewrite lookup_empty in Hl.
Qed.

Lemma guarded_runs_keep_one_timer_witness :
  let w := boot decay_standard in
  let l := [(0, OpStart); (100, OpFireInterval 1); (200, OpPause);
            (300, OpResume); (400, OpEnterPirateMode None);
            (500, OpBeginDeath); (600, OpFireInterval 6)] in
  single_timer w /\ starts_guarded l w
  /\ (size (intervals (run l w)) <= 1)%nat.
Proof.
  assert (H1 : single_timer (boot decay_standard)) by reflexivity.
  assert (H2 : starts_guarded
                 [(0, OpStart); (100, OpFireInterval 1); (200, OpPause);
                  (300, OpResume); (400, OpEnterPirateMode None);
                  (500, OpBeginDeath); (600, OpFireInterval 6)]
                 (boot decay_standard)).
  { simpl. split; [by right|]. repeat split. }
  split; [exact H1|]. split; [exact H2|].
  exact (proj1 (guarded_runs_keep_one_timer _ _ H1 H2)).
Defined.


Lemma update_same_but_timers (now : Z) (w1 w2 : world) :
  same_but_timers w1 w2 ->
  same_but_timers (update now w1) (update now w2).
Proof.
  intros [Hc Ht].
  destruct w1 as [c1 iv1 to1 nx1 tr1]; destruct w2 as [c2 iv2 to2 nx2 tr2].
  destruct c1 as [? ? ? tm1 ? ? ? ? ? ? tc1 ? ?];
    destruct c2 as [? ? ? tm2 ? ? ? ? ? ? tc2 ? ?].
  simpl in Ht. subst tr2. injection Hc as -> -> -> -> -> -> -> -> -> -> -> ->.
  unfold update, beginDeath, updateTransition, same_but_timers.
  rewrite !notify_spec.
  cbn -[min_one div_Z ge_one Qfloor Z.mul Z.add].
  repeat match goal with
         | |- context [if ?b then _ else _] => destruct b
         end;
    try (split; reflexivity);
    try (destruct tm1, tm2; split; reflexivity);
    try (destruct tm1, tm2, tc2 as [[| |?]|]; split; reflexivity).
Qed.

(** X2. In standard mode, with the controller alive and not in a
    transition, [pause] followed by [resume] installs a fresh tick interval
    and changes nothing else: [lastInteraction] is kept, so the time spent
    paused counts as elapsed, and the next tick computes the same stage and
    progress and makes the same broadcast as if the controller had never
    been paused. *)
Theorem pause_resume_keeps_clock (w : world) (now : Z) :
  standard_alive w ->
  let w' := resume (pause w) in
  timer (ctl w') = Some (next_id w)
  /\ intervals w' !! next_id w = Some IvUpdate
  /\ (single_timer w -> single_timer w')
  /\ lastInteraction (ctl w') = lastInteraction (ctl w)
  /\ timeouts w' = timeouts w
  /\ same_but_timers w w'
  /\ stage (ctl (update now w')) = stage (ctl (update now w))
  /\ progress (ctl (update now w')) = progress (ctl (update now w))
  /\ trace (update now w') = trace (update now w)
  /\ isTransitioning (ctl (update now w'))
     = isTransitioning (ctl (update now w)).
Proof.
  intros (Hp & Ht & Hd) w'.
  assert (Hs : same_but_timers w w').
  { subst w'. unfold pause, resume, same_but_timers.
    destruct w as [c iv tos nx tr]; destruct c as [? ? ? [id|] ? ? ? ? ? ? ? ? ?];
      simpl in Hp, Ht, Hd; subst; split; reflexivity. }
  assert (Hu := update_same_but_timers now w w' Hs).
  destruct Hu as [Hu1 Hu2].
  assert (Hw : timer (ctl w') = Some (next_id w)
               /\ intervals w' !! next_id w = Some IvUpdate
               /\ lastInteraction (ctl w') = lastInteraction (ctl w)
               /\ timeouts w' = timeouts w).
  { subst w'. unfold pause, resume.
    destruct w as [c iv tos nx tr]; destruct c as [? ? ? [id|] ? ? ? ? ? ? ? ? ?];
      simpl in Hp, Ht, Hd; subst; cbn; rewrite lookup_insert_eq;
      repeat split. }
  destruct Hw as (W1 & W2 & W3 & W4).
  split; [done|]. split; [done|].
  split.
  { intros Hst. subst w'.
    apply (step_single_timer 0 OpResume (pause w)); [|done].
    by apply (step_single_timer 0 OpPause w). }
  split; [done|]. split; [done|]. split; [done|].
  split; [exact (eq_sym (f_equal stage Hu1))|].
  split; [exact (eq_sym (f_equal progress Hu1))|].
  split; [by rewrite Hu2|].
  exact (eq_sym (f_equal isTransitioning Hu1)).
Qed.

Lemma pause_resume_keeps_clock_witness :
  let w := update 20000 (start 0 (boot decay_standard)) in
  standard_alive w
  /\ lastInteraction (ctl (resume (pause w))) = Some 0
  /\ stage (ctl (update 25000 (resume (pause w)))) = Some "panic".
Proof.
  assert (H : standard_alive
                (update 20000 (start 0 (boot decay_standard))))
    by (repeat split).
  split; [exact H|].
  destruct (pause_resume_keeps_clock _ 25000 H)
    as (_ & _ & _ & H1 & _ & _ & H2 & _).
  split.
  - rewrite H1. vm_compute. reflexivity.
  - rewrite H2. vm_compute. reflexivity.
Defined.


(** X3. In standard mode, with the controller alive and not in a
    transition, a [reset] followed by a tick at the same clock reading puts
    the controller in the healthy stage with progress 0, whatever the stage
    was, and broadcasts that state to every subscriber. *)
Theorem reset_then_tick_is_healthy (w : world) (now : Z) :
  standard_alive w ->
  let w' := update now (reset now w) in
  stage (ctl w') = Some "healthy"
  /\ progress (ctl w') = div_Z 0 (CONFIG.healthy CONFIG.standard)
  /\ is_zero (progress (ctl w'))
  /\ lastInteraction (ctl w') = Some now
  /\ trace w'
     = trace w ++ map (fun l => EvNotify (lid l) (Some "healthy")
                                 (div_Z 0 (CONFIG.healthy CONFIG.standard)))
                      (listeners (ctl w))
  /\ intervals w' = intervals w
  /\ timeouts w' = timeouts w.
Proof.
  intros (Hp & Ht & Hd) w'. subst w'.
  unfold reset. rewrite Hp, Ht, Hd. cbn [orb].
  unfold update. cbn [ctl with_ctl permanentPirateMode isTransitioning isDead
                      set_lastInteraction lastInteraction to_number default].
  rewrite Hp, Ht, Hd, Z.sub_diag. cbn [Z.ltb Z.compare CONFIG.healthy
                                      CONFIG.standard].
  rewrite notify_spec. repeat split.
Qed.

Lemma reset_then_tick_is_healthy_witness :
  let w := update 29000 (start 0 (boot decay_standard)) in
  standard_alive w
  /\ stage (ctl w) = Some "decay"
  /\ stage (ctl (update 29500 (reset 29500 w))) = Some "healthy".
Proof.
  assert (H : standard_alive
                (update 29000 (start 0 (boot decay_standard))))
    by (repeat split).
  split; [exact H|]. split; [vm_compute; reflexivity|].
  exact (proj1 (reset_then_tick_is_healthy _ 29500 H)).
Defined.

(** A tick past the end of the duration table. *)
Lemma update_past_table (w : world) (now : Z) :
  standard_alive w ->
  CONFIG.healthy CONFIG.standard + CONFIG.panic CONFIG.standard
  + CONFIG.decay CONFIG.standard + CONFIG.death CONFIG.standard
  <= now - to_number (lastInteraction (ctl w)) ->
  let w' := update now w in
  w' = beginDeath now w
  /\ trace w' = trace w
  /\ stage (ctl w') = stage (ctl w)
  /\ progress (ctl w') = progress (ctl w)
  /\ previousStage (ctl w') = stage (ctl w)
  /\ in_flight (S (next_id w)) now (CONFIG.death CONFIG.standard) "death"
       (Some CbDeath) w'
  /\ timeouts w'
     = <[next_id w := (now + 1500, ToGasp)]> (timeouts w)
  /\ intervals w'
     = <[S (next_id w) := IvUpdateTransition]>
         (match timer (ctl w) with
          | Some id => delete id (intervals w)
          | None => intervals w
          end)
  /\ isDead (ctl w') = false.
Proof.
  intros (Hp & Ht & Hd) He w'.
  change (32000 <= now - to_number (lastInteraction (ctl w))) in He.
  assert (E : w' = beginDeath now w).
  { subst w'. unfold update. rewrite Hp, Ht, Hd.
    change (CONFIG.healthy CONFIG.standard) with 24000.
    change (CONFIG.panic CONFIG.standard) with 3000.
    change (CONFIG.decay CONFIG.standard) with 3000.
    change (CONFIG.death CONFIG.standard) with 2000.
    destruct (Z.ltb_spec (now - to_number (lastInteraction (ctl w))) 24000);
      [lia|].
    destruct (Z.ltb_spec (now - to_number (lastInteraction (ctl w)))
                (24000 + 3000)); [lia|].
    destruct (Z.ltb_spec (now - to_number (lastInteraction (ctl w)))
                (24000 + 3000 + 3000)); [lia|].
    destruct (Z.ltb_spec (now - to_number (lastInteraction (ctl w)))
                (24000 + 3000 + 3000 + 2000)); [lia|].
    reflexivity. }
  split; [exact E|]. rewrite E. clear E w'.
  unfold beginDeath. rewrite Hd.
  change (or_Z (CONFIG.death CONFIG.standard) 2000) with 2000.
  change (Qfloor (inject_Z 2000 * 0.75)) with 1500.
  change (CONFIG.death CONFIG.standard) with 2000.
  destruct (startTransition_spec now "death" 2000 (Some CbDeath)
              (set_timeout ToGasp (now + 1500) w))
    as (A1 & A2 & A3 & A4 & _ & A6 & _ & A8 & A9).
  split; [by rewrite A2|].
  split.
  { unfold startTransition.
    destruct w as [c iv tos nx tr];
      by destruct c as [? ? ? [id|] ? ? ? ? ? ? ? ? ?]. }
  split.
  { unfold startTransition.
    destruct w as [c iv tos nx tr];
      by destruct c as [? ? ? [id|] ? ? ? ? ? ? ? ? ?]. }
  split; [by rewrite A8|]. split; [exact A1|].
  split; [by rewrite A3|]. split; [by rewrite A9|].
  by rewrite A6.
Qed.

(** X4. In standard mode, with the controller alive and not in a
    transition, a tick at which the time elapsed since the last interaction
    has reached the sum of the four stage durations starts the death
    transition and returns without broadcasting: the stage and progress are
    left as they were, the tick interval is replaced by the transition's,
    and the 75% side effect is scheduled. *)
Theorem tick_past_table_begins_death (w : world) (now : Z) :
  standard_alive w ->
  CONFIG.healthy CONFIG.standard + CONFIG.panic CONFIG.standard
  + CONFIG.decay CONFIG.standard + CONFIG.death CONFIG.standard
  <= now - to_number (lastInteraction (ctl w)) ->
  let w' := update now w in
  w' = beginDeath now w
  /\ trace w' = trace w
  /\ stage (ctl w') = stage (ctl w)
  /\ progress (ctl w') = progress (ctl w)
  /\ previousStage (ctl w') = stage (ctl w)
  /\ in_flight (S (next_id w)) now (CONFIG.death CONFIG.standard) "death"
       (Some CbDeath) w'
  /\ timeouts w'
     = <[next_id w := (now + 1500, ToGasp)]> (timeouts w)
  /\ intervals w'
     = <[S (next_id w) := IvUpdateTransition]>
         (match timer (ctl w) with
          | Some id => delete id (intervals w)
          | None => intervals w
          end)
  /\ isDead (ctl w') = false.
Proof. exact (update_past_table w now). Qed.

Lemma tick_past_table_begins_death_witness :
  let w := update 31000 (start 0 (boot decay_standard)) in
  standard_alive w
  /\ 32000 <= 32100 - to_number (lastInteraction (ctl w))
  /\ stage (ctl (update 32100 w)) = Some "death"
  /\ trace (update 32100 w) = trace w
  /\ isTransitioning (ctl (update 32100 w)) = true.
Proof.
  assert (H1 : standard_alive
                 (update 31000 (start 0 (boot decay_standard))))
    by (repeat split).
  assert (H2 : CONFIG.healthy CONFIG.standard + CONFIG.panic CONFIG.standard
               + CONFIG.decay CONFIG.standard + CONFIG.death CONFIG.standard
               <= 32100 - to_number (lastInteraction (ctl
                    (update 31000 (start 0 (boot decay_standard))))))
    by (vm_compute; discriminate).
  split; [exact H1|]. split; [exact H2|].
  destruct (tick_past_table_begins_death _ 32100 H1 H2)
    as (_ & T1 & T2 & _ & _ & (T3 & _) & _).
  split; [rewrite T2; vm_compute; reflexivity|].
  split; [exact T1 | exact T3].
Defined.


Lemma run_ticks_single_timer (id : nat) (ts : list Z) (w : world) :
  single_timer w -> single_timer (run_ticks id ts w).
Proof.
  revert w. induction ts as [|t ts IH]; intros w H; [done|].
  simpl. apply IH. by apply (step_single_timer t (OpFireInterval id)).
Qed.

(** X5. The natural death, end to end. In standard mode, from a
    controller that is alive, not in a transition and holds the only active
    interval, the tick at which the elapsed time has reached the total of
    the stage durations starts the death transition, and once the clock has
    advanced by the death duration the ticks of that transition leave the
    controller dead, in stage death with progress 1.0, with no interval
    active; the completion closure has run once, and from then on [update],
    [reset], [resume] and [beginDeath] return the world they are given. *)
Theorem natural_death (w : world) (t1 : Z) (ts : list Z) (k : nat) (t : Z) :
  standard_alive w ->
  single_timer w ->
  CONFIG.total CONFIG.standard <= t1 - to_number (lastInteraction (ctl w)) ->
  monotone_from t1 ts ->
  ts !! k = Some t ->
  t1 + CONFIG.death CONFIG.standard <= t ->
  let w1 := update t1 w in
  let wf := run_ticks (S (next_id w)) (take (S k) ts) w1 in
  isDead (ctl wf) = true
  /\ stage (ctl wf) = Some "death"
  /\ progress (ctl wf) = Fin 1
  /\ isTransitioning (ctl wf) = false
  /\ timer (ctl wf) = None
  /\ intervals wf = ∅
  /\ callback_count CbDeath (trace wf)
     = S (callback_count CbDeath (trace w))
  /\ (forall now, update now wf = wf)
  /\ (forall now, reset now wf = wf)
  /\ resume wf = wf
  /\ (forall now, beginDeath now wf = wf).
Proof.
  intros Ha Hs He Hm Hk Ht w1 wf.
  change (32000 <= t1 - to_number (lastInteraction (ctl w))) in He.
  change (t1 + 2000 <= t) in Ht.
  destruct (update_past_table w t1 Ha He)
    as (_ & B1 & _ & _ & _ & B2 & _).
  fold w1 in B1, B2. change (CONFIG.death CONFIG.standard) with 2000 in B2.
  assert (Hrun := run_ticks_transition (S (next_id w)) t1 2000 "death" CbDeath
            (callback_count CbDeath (trace w)) ltac:(lia) ts w1 k t B2
            ltac:(by rewrite B1) Hm Hk).
  fold wf in Hrun. destruct Hrun as (Es & Ep & _ & _ & _ & Htrue & _).
  destruct (progress_cases (t - t1) 2000 ltac:(lia))
    as [(_ & E1 & Hge)|(Hlt & _)]; [|lia].
  destruct (Htrue Hge) as (T1 & _ & T3 & Hc & Hdead).
  specialize (Hdead eq_refl).
  assert (Hsf : single_timer wf).
  { subst wf. apply run_ticks_single_timer. subst w1.
    by apply single_timer_update. }
  assert (Hi : intervals wf = ∅).
  { unfold single_timer in Hsf. by rewrite T1 in Hsf. }
  destruct (dead_noops wf Hdead) as (N1 & N2 & N3).
  split; [done|]. split; [done|]. split; [by rewrite Ep|].
  split; [done|]. split; [done|]. split; [done|]. split; [done|].
  split.
  { intros now. unfold update.
    destruct (permanentPirateMode (ctl wf)); [done|].
    by rewrite T3, Hdead. }
  done.
Qed.

Lemma natural_death_witness :
  let w := start 0 (boot decay_standard) in
  let wf := run_ticks 3 [32100; 33000; 34000] (update 32000 w) in
  standard_alive w /\ single_timer w
  /\ CONFIG.total CONFIG.standard
     <= 32000 - to_number (lastInteraction (ctl w))
  /\ monotone_from 32000 [32100; 33000; 34000]
  /\ 32000 + CONFIG.death CONFIG.standard <= 34000
  /\ isDead (ctl wf) = true
  /\ intervals wf = ∅.
Proof.
  assert (H1 : standard_alive (start 0 (boot decay_standard)))
    by (repeat split).
  assert (H2 : single_timer (start 0 (boot decay_standard))).
  { apply (single_timer_intro _ 1%nat IvUpdate); vm_compute; reflexivity. }
  assert (H3 : CONFIG.total CONFIG.standard
               <= 32000 - to_number (lastInteraction
                                       (ctl (start 0 (boot decay_standard)))))
    by (vm_compute; discriminate).
  assert (H4 : monotone_from 32000 [32100; 33000; 34000]) by (simpl; lia).
  assert (H5 : 32000 + CONFIG.death CONFIG.standard <= 34000)
    by (vm_compute; discriminate).
  split; [exact H1|]. split; [exact H2|]. split; [exact H3|].
  split; [exact H4|]. split; [exact H5|].
  destruct (natural_death _ 32000 [32100; 33000; 34000] 2%nat 34000
              H1 H2 H3 H4 eq_refl H5) as (D1 & _ & _ & _ & _ & D2 & _).
  split; [exact D1 | exact D2].
Defined.




Lemma fire_timeout_spec (now : Z) (id : nat) (w : world) :
  ctl (fire_timeout now id w) = ctl w
  /\ intervals (fire_timeout now id w) = intervals w
  /\ next_id (fire_timeout now id w) = next_id w
  /\ (forall due cb, timeouts w !! id = Some (due, cb) -> now < due ->
      fire_timeout now id w = w)
  /\ (timeouts w !! id = None -> fire_timeout now id w = w)
  /\ (forall due cb, timeouts w !! id = Some (due, cb) -> due <= now ->
      timeouts (fire_timeout now id w) = delete id (timeouts w)
      /\ trace (fire_timeout now id w)
         = trace w ++ match cb with
                      | ToGasp => [EvHidePage; EvPrepareDeathScreen]
                      | ToFade (Some n) => [EvFadeComplete n]
                      | ToFade None => []
                      end).
Proof.
  unfold fire_timeout.
  destruct (timeouts w !! id) as [[due cb]|] eqn:E.
  - destruct (Z.leb_spec due now).
    + split; [by destruct cb as [|[n|]]|].
      split; [by destruct cb as [|[n|]]|].
      split; [by destruct cb as [|[n|]]|].
      split; [intros due' cb' [= <- <-] Hlt; lia|].
      split; [done|].
      intros due' cb' [= <- <-] _.
      destruct cb as [|[n|]]; simpl; by rewrite ?app_nil_r.
    + split; [done|]. split; [done|]. split; [done|].
      split; [done|]. split; [done|].
      intros due' cb' [= <- <-] Hle. lia.
  - split; [done|]. split; [done|]. split; [done|].
    split; [done|]. split; [done|]. intros due' cb' [=].
Qed.

Lemma enterPirateMode_eq (t0 : Z) (o : option nat) (w : world) :
  enterPirateMode t0 o w
  = set_timeout (ToFade o) (t0 + 3000)
      (startTransition t0 "pirate" 7000 (Some CbPirate) w).
Proof. reflexivity. Qed.

(** X7. The callback given to [enterPirateMode] is scheduled apart from
    the transition, at the fade-out duration after the call. The host
    firing that timeout earlier changes nothing; firing it once it is due
    calls the callback, removes the timeout and leaves the controller and
    its transition as they are; the timeout cannot fire a second time. *)
Theorem fade_callback_fires_once (w : world) (t0 : Z) (n : nat) (t t' : Z) :
  CONFIG.fadeOutDuration CONFIG.pirate <= t - t0 ->
  let w1 := enterPirateMode t0 (Some n) w in
  let fade := S (next_id w) in
  let w2 := fire_timeout t fade w1 in
  timeouts w1 !! fade
    = Some (t0 + CONFIG.fadeOutDuration CONFIG.pirate, ToFade (Some n))
  /\ (forall early, early - t0 < CONFIG.fadeOutDuration CONFIG.pirate ->
      fire_timeout early fade w1 = w1)
  /\ trace w2 = trace w ++ [EvFadeComplete n]
  /\ ctl w2 = ctl w1
  /\ intervals w2 = intervals w1
  /\ in_flight (next_id w) t0 (CONFIG.colorShiftDuration CONFIG.pirate)
       "pirate" (Some CbPirate) w2
  /\ timeouts w2 !! fade = None
  /\ fire_timeout t' fade w2 = w2.
Proof.
  intros Ht w1 fade w2.
  change (CONFIG.fadeOutDuration CONFIG.pirate) with 3000 in *.
  change (CONFIG.colorShiftDuration CONFIG.pirate) with 7000.
  destruct (startTransition_spec t0 "pirate" 7000 (Some CbPirate) w)
    as (A1 & A2 & A3 & A4 & _).
  assert (H1 : timeouts w1 !! fade = Some (t0 + 3000, ToFade (Some n))).
  { subst w1 fade. rewrite enterPirateMode_eq. unfold set_timeout.
    cbn [timeouts]. rewrite A4. apply lookup_insert_eq. }
  assert (Htr : trace w1 = trace w).
  { subst w1. by rewrite enterPirateMode_eq, trace_set_timeout. }
  destruct (fire_timeout_spec t fade w1) as (F1 & F2 & _ & _ & _ & F6).
  destruct (F6 _ _ H1 ltac:(lia)) as (F7 & F8). fold w2 in F1, F2, F7, F8.
  split; [exact H1|].
  split.
  { intros early He.
    destruct (fire_timeout_spec early fade w1) as (_ & _ & _ & G & _).
    apply (G _ _ H1). lia. }
  split; [by rewrite F8, Htr|]. split; [exact F1|]. split; [exact F2|].
  split.
  { unfold in_flight. rewrite F1, F2. subst w1. rewrite enterPirateMode_eq.
    apply (in_flight_set_timeout (next_id w) t0 7000 "pirate" (Some CbPirate)
             (ToFade (Some n)) (t0 + 3000) _ A1). }
  assert (H2 : timeouts w2 !! fade = None)
    by (rewrite F7; apply lookup_delete_eq).
  split; [exact H2|].
  destruct (fire_timeout_spec t' fade w2) as (_ & _ & _ & _ & G & _).
  by apply G.
Qed.

Lemma fade_callback_fires_once_witness :
  let w1 := enterPirateMode 0 (Some 7%nat) (boot decay) in
  CONFIG.fadeOutDuration CONFIG.pirate <= 3000 - 0
  /\ fire_timeout 2999 2 w1 = w1
  /\ trace (fire_timeout 3000 2 w1) = [EvFadeComplete 7].
Proof.
  assert (H : CONFIG.fadeOutDuration CONFIG.pirate <= 3000 - 0)
    by (vm_compute; discriminate).
  split; [exact H|].
  destruct (fade_callback_fires_once (boot decay) 0 7 3000 4000 H)
    as (_ & H1 & H2 & _).
  split; [apply H1; vm_compute; reflexivity | exact H2].
Defined.

Lemma destroy_spec (w : world) :
  timer (ctl (destroy w)) = None
  /\ isTransitioning (ctl (destroy w)) = false
  /\ isDead (ctl (destroy w)) = false
  /\ listeners (ctl (destroy w)) = []
  /\ stage (ctl (destroy w)) = stage (ctl w)
  /\ progress (ctl (destroy w)) = progress (ctl w)
  /\ timeouts (destroy w) = timeouts w
  /\ trace (destroy w) = trace w.
Proof.
  destruct w as [c iv tos nx tr];
    destruct c as [? ? ? [id|] ? ? ? ? ? ? ? ? ?]; repeat split.
Qed.

(** X8. [destroy] cancels the interval but not the timeouts. When the
    controller is not dead and holds the only active interval, a
    [beginDeath] followed by [destroy] leaves no interval active and clears
    the transitioning flag, so the death transition never completes and
    [isDead] stays false; but the 75% timeout is still pending, and when
    the host fires it the page container is hidden and the death screen
    prepared. The stage and the progress are not reset, and the list of
    subscribers is empty. *)
Theorem destroy_keeps_timeouts (w : world) (t0 t : Z) :
  isDead (ctl w) = false ->
  single_timer w ->
  t0 + 1500 <= t ->
  let w1 := destroy (beginDeath t0 w) in
  let gasp := next_id w in
  intervals w1 = ∅
  /\ timer (ctl w1) = None
  /\ isTransitioning (ctl w1) = false
  /\ isDead (ctl w1) = false
  /\ listeners (ctl w1) = []
  /\ stage (ctl w1) = stage (ctl w)
  /\ progress (ctl w1) = progress (ctl w)
  /\ notify w1 = emit [] w1
  /\ (forall now id, fire_interval now id w1 = w1)
  /\ timeouts w1 !! gasp = Some (t0 + 1500, ToGasp)
  /\ trace (fire_timeout t gasp w1)
     = trace w ++ [EvHidePage; EvPrepareDeathScreen].
Proof.
  intros Hd Hs Ht w1 gasp.
  assert (Hb : beginDeath t0 w
               = startTransition t0 "death" 2000 (Some CbDeath)
                   (set_timeout ToGasp (t0 + 1500) w)).
  { unfold beginDeath. by rewrite Hd. }
  destruct (startTransition_spec t0 "death" 2000 (Some CbDeath)
              (set_timeout ToGasp (t0 + 1500) w))
    as (A1 & A2 & A3 & A4 & _ & A6 & _ & A8 & _).
  rewrite <- Hb in A1, A2, A3, A4, A6, A8.
  assert (Hs1 : single_timer w1).
  { subst w1. apply (step_single_timer 0 OpDestroy); [|done].
    by apply single_timer_beginDeath. }
  destruct (destroy_spec (beginDeath t0 w))
    as (D1 & D2 & D3 & D4 & D5 & D6 & D7 & D8).
  fold w1 in D1, D2, D3, D4, D5, D6, D7, D8.
  assert (Hi : intervals w1 = ∅).
  { unfold single_timer in Hs1. by rewrite D1 in Hs1. }
  assert (Hst : stage (ctl (beginDeath t0 w)) = stage (ctl w)
                /\ progress (ctl (beginDeath t0 w)) = progress (ctl w)).
  { rewrite Hb. unfold startTransition.
    destruct w as [c iv tos nx tr];
      by destruct c as [? ? ? [id|] ? ? ? ? ? ? ? ? ?]. }
  destruct Hst as (S1 & S2).
  assert (Hg : timeouts w1 !! gasp = Some (t0 + 1500, ToGasp)).
  { rewrite D7, A3. apply lookup_insert_eq. }
  split; [done|]. split; [done|]. split; [done|]. split; [done|].
  split; [done|]. split; [by rewrite D5|]. split; [by rewrite D6|].
  split.
  { rewrite notify_spec. unfold notifications. by rewrite D4. }
  split.
  { intros now id. unfold fire_interval. by rewrite Hi, lookup_empty. }
  split; [done|].
  destruct (fire_timeout_spec t gasp w1) as (_ & _ & _ & _ & _ & F).
  destruct (F _ _ Hg Ht) as (_ & ->). by rewrite D8, A2.
Qed.

Lemma destroy_keeps_timeouts_witness :
  let w := start 0 (boot decay_standard) in
  let w1 := destroy (beginDeath 32000 w) in
  isDead (ctl w) = false /\ single_timer w /\ 32000 + 1500 <= 33500
  /\ intervals w1 = ∅
  /\ trace (fire_timeout 33500 2 w1) = [EvHidePage; EvPrepareDeathScreen].
Proof.
  assert (H1 : isDead (ctl (start 0 (boot decay_standard))) = false)
    by (vm_compute; reflexivity).
  assert (H2 : single_timer (start 0 (boot decay_standard))).
  { apply (single_timer_intro _ 1%nat IvUpdate); vm_compute; reflexivity. }
  assert (H3 : 32000 + 1500 <= 33500) by lia.
  split; [exact H1|]. split; [exact H2|]. split; [exact H3|].
  destruct (destroy_keeps_timeouts _ 32000 33500 H1 H2 H3)
    as (A & _ & _ & _ & _ & _ & _ & _ & _ & _ & B).
  split; [exact A | exact B].
Defined.


Lemma no_tick_delete (k : nat) (m : gmap nat interval_cb) :
  (forall id, m !! id <> Some IvUpdate) ->
  forall id, delete k m !! id <> Some IvUpdate.
Proof.
  intros H id Hl. apply lookup_delete_Some in Hl as [_ Hl]. by apply (H id).
Qed.

Lemma no_tick_insert (k : nat) (m : gmap nat interval_cb) :
  (forall id, m !! id <> Some IvUpdate) ->
  forall id, <[k := IvUpdateTransition]> m !! id <> Some IvUpdate.
Proof.
  intros H id Hl. apply lookup_insert_Some in Hl as [[_ Hl]|[_ Hl]];
    [done|by apply (H id)].
Qed.

Lemma no_tick_same (w w' : world) :
  intervals w' = intervals w -> no_tick_interval w -> no_tick_interval w'.
Proof. unfold no_tick_interval. by intros ->. Qed.

Lemma no_tick_set_timeout (cb : timeout_cb) (due : Z) (w : world) :
  no_tick_interval w -> no_tick_interval (set_timeout cb due w).
Proof. intros H. exact H. Qed.

Lemma no_tick_startTransition (now : Z) (to : string) (dur : Z)
    (cb : option callback) (w : world) :
  no_tick_interval w -> no_tick_interval (startTransition now to dur cb w).
Proof.
  destruct (startTransition_spec now to dur cb w)
    as (_ & _ & _ & _ & _ & _ & _ & _ & Hi).
  unfold no_tick_interval. rewrite Hi. intros H.
  apply no_tick_insert. destruct (timer (ctl w)); [|done].
  by apply no_tick_delete.
Qed.

Lemma updateTransition_tables (now : Z) (w : world) :
  permanentPirateMode (ctl (updateTransition now w))
  = permanentPirateMode (ctl w)
  /\ (intervals (updateTransition now w) = intervals w
      \/ exists id, intervals (updateTransition now w)
                    = delete id (intervals w)).
Proof.
  unfold updateTransition. rewrite notify_spec.
  destruct w as [c iv tos nx tr]; destruct c as [? ? ? tm ? ? ? ? ? ? tc ? ?].
  cbn -[min_one div_Z ge_one].
  destruct (ge_one _); [|by split; [|left]].
  destruct tm as [id|]; destruct tc as [[| |n]|]; cbn; split; eauto.
Qed.

Lemma no_tick_updateTransition (now : Z) (w : world) :
  no_tick_interval w -> no_tick_interval (updateTransition now w).
Proof.
  intros H. destruct (updateTransition_tables now w) as (_ & [E|[id E]]);
    unfold no_tick_interval; rewrite E; [done|by apply no_tick_delete].
Qed.

(** In permanent mode a step keeps the mode and installs no tick. *)
Lemma step_permanent (now : Z) (o : op) (w : world) :
  permanentPirateMode (ctl w) = true -> no_tick_interval w ->
  permanentPirateMode (ctl (step now o w)) = true
  /\ no_tick_interval (step now o w).
Proof.
  intros Hp Hn.
  destruct o as [| |to dur oc| |onFade|v|st p| | | |id|id]; cbn [step].
  - unfold start. cbn [ctl with_ctl permanentPirateMode set_lastInteraction
                       set_isTransitioning set_isDead].
    rewrite Hp, notify_spec. split; [exact Hp|exact Hn].
  - unfold reset. rewrite Hp, orb_true_r. done.
  - split; [|by apply no_tick_startTransition].
    destruct (startTransition_spec now to dur oc w)
      as (_ & _ & _ & _ & _ & _ & -> & _). done.
  - unfold beginDeath. destruct (isDead (ctl w)); [done|].
    split.
    + destruct (startTransition_spec now "death"
                  (or_Z (CONFIG.death CONFIG.standard) 2000) (Some CbDeath)
                  (set_timeout ToGasp
                     (now + Qfloor (inject_Z
                        (or_Z (CONFIG.death CONFIG.standard) 2000) * 0.75)) w))
        as (_ & _ & _ & _ & _ & _ & -> & _). done.
    + apply no_tick_startTransition. exact Hn.
  - rewrite enterPirateMode_eq. split.
    + rewrite ctl_set_timeout.
      destruct (startTransition_spec now "pirate" 7000 (Some CbPirate) w)
        as (_ & _ & _ & _ & _ & _ & -> & _). done.
    + apply no_tick_set_timeout. by apply no_tick_startTransition.
  - destruct v; done.
  - unfold setStage. rewrite notify_spec. done.
  - unfold pause. destruct (timer (ctl w)) as [k|] eqn:E; [|done].
    split; [done|]. unfold no_tick_interval. cbn. by apply no_tick_delete.
  - unfold resume. destruct (timer (ctl w)); [done|].
    rewrite Hp, andb_false_r. done.
  - unfold destroy. destruct (timer (ctl w)) as [k|] eqn:E; [|done].
    split; [done|]. unfold no_tick_interval. cbn. by apply no_tick_delete.
  - unfold fire_interval. destruct (intervals w !! id) as [[|]|] eqn:E.
    + by destruct (Hn id).
    + split; [|by apply no_tick_updateTransition].
      destruct (updateTransition_tables now w) as (-> & _). done.
    + done.
  - destruct (fire_timeout_spec now id w) as (-> & Hi & _).
    split; [done|]. by apply (no_tick_same w).
Qed.

(** X9. Permanent mode never runs the decay tick. From a world in
    permanent mode in which no interval runs the standard tick, no sequence
    of operations leaves the mode or installs one; after every such
    sequence [update], [reset] and [resume] return the world they are
    given, so the only changes of stage are those of [start], [setStage]
    and the transitions. *)
Theorem permanent_mode_never_ticks (l : list (Z * op)) (w : world) :
  permanentPirateMode (ctl w) = true ->
  no_tick_interval w ->
  let w' := run l w in
  permanentPirateMode (ctl w') = true
  /\ no_tick_interval w'
  /\ (forall now, update now w' = w')
  /\ (forall now, reset now w' = w')
  /\ resume w' = w'.
Proof.
  intros Hp Hn w'.
  assert (H : permanentPirateMode (ctl w') = true /\ no_tick_interval w').
  { subst w'. revert w Hp Hn.
    induction l as [|[now o] l IH]; intros w Hp Hn; [done|].
    simpl. destruct (step_permanent now o w Hp Hn) as [Hp' Hn'].
    by apply IH. }
  destruct H as [Hp' Hn'].
  split; [done|]. split; [done|].
  split; [intros now; unfold update; by rewrite Hp'|].
  split; [intros now; unfold reset; by rewrite Hp', !orb_true_r|].
  unfold resume. destruct (timer (ctl w')); [done|].
  by rewrite Hp', andb_false_r.
Qed.

Lemma permanent_mode_never_ticks_witness :
  let w := boot decay in
  let l := [(0, OpStart); (10, OpResume); (20, OpEnterPirateMode None);
            (7020, OpFireInterval 1); (7030, OpReset)] in
  permanentPirateMode (ctl w) = true /\ no_tick_interval w
  /\ no_tick_interval (run l w)
  /\ resume (run l w) = run l w.
Proof.
  assert (H1 : permanentPirateMode (ctl (boot decay)) = true)
    by reflexivity.
  assert (H2 : no_tick_interval (boot decay)).
  { intros id. simpl. by rewrite lookup_empty. }
  split; [exact H1|]. split; [exact H2|].
  destruct (permanent_mode_never_ticks
              [(0, OpStart); (10, OpResume); (20, OpEnterPirateMode None);
               (7020, OpFireInterval 1); (7030, OpReset)]
              (boot decay) H1 H2) as (_ & A & _ & _ & B).
  split; [exact A | exact B].
Defined.

(** ** Subscribers *)

Lemma listeners_notify (w : world) :
  listeners (ctl (notify w)) = listeners (ctl w).
Proof. done. Qed.

Lemma listeners_clear_interval (t : option nat) (w : world) :
  listeners (ctl (clear_interval t w)) = listeners (ctl w).
Proof. by destruct t. Qed.

Lemma listeners_startTransition (now : Z) (toStage : string) (duration : Z)
    (oc : option callback) (w : world) :
  listeners (ctl (startTransition now toStage duration oc w))
  = listeners (ctl w).
Proof.
  unfold startTransition. cbn. by destruct (timer (ctl w)).
Qed.

Lemma listeners_run_callback (cb : callback) (w : world) :
  listeners (ctl (run_callback cb w)) = listeners (ctl w).
Proof. by destruct cb. Qed.

Lemma listeners_updateTransition (now : Z) (w : world) :
  listeners (ctl (updateTransition now w)) = listeners (ctl w).
Proof.
  unfold updateTransition. cbv zeta.
  destruct (ge_one _); [|done].
  destruct (transitionCallback _) as [cb|];
    rewrite ?listeners_run_callback; cbn; by destruct (timer (ctl w)).
Qed.

Lemma listeners_beginDeath (now : Z) (w : world) :
  listeners (ctl (beginDeath now w)) = listeners (ctl w).
Proof.
  unfold beginDeath. destruct (isDead (ctl w)); [done|].
  by rewrite listeners_startTransition.
Qed.

Lemma listeners_update (now : Z) (w : world) :
  listeners (ctl (update now w)) = listeners (ctl w).
Proof.
  unfold update.
  destruct (permanentPirateMode (ctl w)); [done|].
  destruct (isTransitioning (ctl w)); [apply listeners_updateTransition|].
  destruct (isDead (ctl w)); [done|].
  repeat (destruct (_ <? _); [done|]).
  destruct (_ <? _).
  - cbv zeta. destruct (ge_one _); [|done].
    by rewrite listeners_beginDeath.
  - apply listeners_beginDeath.
Qed.

Lemma listeners_step (now : Z) (o : op) (w : world) :
  o <> OpDestroy ->
  listeners (ctl (step now o w))
  = listeners (ctl w) ++ subscribed [(now, o)].
Proof.
  intros Hd.
  destruct o as [| |to dur oc| |onFade|v|st p| | | |id|id];
    cbn [step subscribed omap snd]; rewrite ?app_nil_r.
  - unfold start. cbn. by destruct (permanentPirateMode (ctl w)).
  - unfold reset. by destruct (_ || _).
  - apply listeners_startTransition.
  - apply listeners_beginDeath.
  - unfold enterPirateMode. cbn. by destruct (timer (ctl w)).
  - destruct v; cbn; by rewrite ?app_nil_r.
  - done.
  - unfold pause. by destruct (timer (ctl w)).
  - unfold resume. destruct (timer (ctl w)); [done|].
    by destruct (_ && _).
  - done.
  - unfold fire_interval. destruct (intervals w !! id) as [[|]|]; [| |done].
    + apply listeners_update.
    + apply listeners_updateTransition.
  - unfold fire_timeout. destruct (timeouts w !! id) as [[due cb]|]; [|done].
    destruct (due <=? now); [|done]. by destruct cb as [|[n|]].
Qed.

Lemma subscribed_app (l1 l2 : list (Z * op)) :
  subscribed (l1 ++ l2) = subscribed l1 ++ subscribed l2.
Proof. unfold subscribed. apply omap_app. Qed.

(** X27. Subscribers are only ever added. Along any run of operations
    without [destroy], the list of listeners is the list at the start
    followed by the functions given to [subscribe] during the run, in the
    order of the calls and with repetitions kept; an argument that is not
    a function is ignored. No operation but [destroy] removes a
    listener, and [destroy] removes them all. *)
Theorem listeners_only_grow (l : list (Z * op)) (w : world) :
  Forall (fun x => snd x <> OpDestroy) l ->
  listeners (ctl (run l w)) = listeners (ctl w) ++ subscribed l
  /\ listeners (ctl (destroy (run l w))) = [].
Proof.
  intros Hl. split.
  - revert w. induction Hl as [|[now o] l Ho Hl IH]; intros w.
    + cbn. by rewrite app_nil_r.
    + unfold run. cbn [fold_left fst snd].
      change (fold_left _ l ?x) with (run l x).
      rewrite IH, (listeners_step now o w Ho), <- app_assoc.
      f_equal. change ((now, o) :: l) with ([(now, o)] ++ l).
      by rewrite subscribed_app.
  - unfold destroy. cbn. by destruct (timer (ctl (run l w))).
Qed.

Lemma listeners_only_grow_witness :
  let f := {| lid := 7; lthrows := fun _ _ => false |} in
  let l := [(0, OpSubscribe (VFunction f)); (0, OpStart);
            (5, OpSubscribe VNotCallable); (9, OpSubscribe (VFunction f))] in
  map lid (listeners (ctl (run l (boot decay_standard)))) = [7; 7]%nat.
Proof.
  intros f l.
  assert (Hl : Forall (fun x => snd x <> OpDestroy) l).
  { repeat (constructor; [discriminate|]). constructor. }
  rewrite (proj1 (listeners_only_grow l (boot decay_standard) Hl)).
  reflexivity.
Defined.

End DecayMore.

(** * More properties of the beam scanner *)

Module BeamMore.
Import JS Beam BeamScan BeamFacts.


Lemma Qlt_bool_false (x y : Q) : Qlt_bool x y = false <-> (y <= x)%Q.
Proof.
  unfold Qlt_bool. rewrite negb_false_iff. apply Qle_bool_iff.
Qed.








(** What one target becomes does not depend on the flags. *)
Lemma scan_target_fst (pg : page) (t : target) (f g : flags) :
  fst (scan_target pg t f) = fst (scan_target pg t g).
Proof.
  unfold scan_target.
  destruct (culled pg t); [done|].
  destruct (isInBounds pg t && Qlt_bool (distance pg t) 40); [|done].
  by destruct (Qlt_bool (distance pg t) _).
Qed.

Lemma scan_target_culled (pg : page) (t : target) (f : flags) :
  culled pg t = true -> scan_target pg t f = (t, f).
Proof. intros H. unfold scan_target. by rewrite H. Qed.

Lemma scan_target_flags (pg : page) (t : target) (f : flags) :
  lit f ->
  lit (snd (scan_target pg t f))
  /\ f_hit (snd (scan_target pg t f)) = f_hit f || in_contact pg t.
Proof.
  intros Hl. unfold scan_target, in_contact.
  destruct (culled pg t); cbn [negb andb snd].
  { by rewrite orb_false_r. }
  destruct (isInBounds pg t); cbn [andb snd];
    [|by rewrite orb_false_r].
  destruct (Qlt_bool (distance pg t) 40); cbn [andb snd];
    [|by rewrite orb_false_r].
  destruct (Qlt_bool (distance pg t) _); cbn [snd].
  - split; [done|]. cbn. by rewrite orb_true_r.
  - split; [|cbn; by rewrite orb_false_r].
    intros H. cbn in H |- *. by destruct (Hl H).
Qed.

Lemma scan_targets_spec (pg : page) (ts : list target) (f : flags) :
  lit f ->
  fst (scan_targets pg ts f)
    = map (fun t => fst (scan_target pg t f)) ts
  /\ lit (snd (scan_targets pg ts f))
  /\ f_hit (snd (scan_targets pg ts f))
     = f_hit f || existsb (in_contact pg) ts.
Proof.
  revert f. induction ts as [|t r IH]; intros f Hl.
  - cbn. by rewrite orb_false_r.
  - cbn [scan_targets].
    destruct (scan_target_flags pg t f Hl) as [Hl1 Hh1].
    pose proof (scan_target_fst pg t f) as Hfst.
    destruct (scan_target pg t f) as [t' f'] eqn:Et.
    cbn [fst snd] in Hl1, Hh1.
    destruct (IH f' Hl1) as (IH1 & IH2 & IH3).
    destruct (scan_targets pg r f') as [r' f''] eqn:Er.
    cbn [fst snd] in IH1, IH2, IH3 |- *.
    split; [|split; [done|]].
    + rewrite IH1. cbn [map fst]. f_equal; [by rewrite Et|].
      apply map_ext. intros a. apply scan_target_fst.
    + rewrite IH3, Hh1. cbn [existsb]. by rewrite orb_assoc.
Qed.

(** X11. One pass of the collision detection of a running beam. Every
    target keeps its place; a target outside the window keeps its
    classes, any other target gets the classes its own position gives it.
    The hotspot is active after the pass, and the glow approaching,
    exactly when some target is in contact: a target that is only
    approaching leaves the glow off, although the loop switches it on. *)
Theorem collisionCheck_flags (b : beam) (pg : page) (s : scene) :
  isPaused b = false ->
  is_Some (body b) ->
  let s' := collisionCheck b pg s in
  let f0 := {| f_glow := false; f_hotspot := false; f_hit := false |} in
  length (targets s') = length (targets s)
  /\ (forall i t, targets s !! i = Some t ->
        targets s' !! i = Some (fst (scan_target pg t f0))
        /\ (culled pg t = true -> targets s' !! i = Some t))
  /\ hotspot_active s' = existsb (in_contact pg) (targets s)
  /\ glow_approaching s' = existsb (in_contact pg) (targets s).
Proof.
  intros Hp Hb s' f0. subst s'. unfold collisionCheck.
  rewrite Hp. rewrite (bool_decide_eq_true_2 _ Hb). cbn [negb orb].
  set (f := {| f_glow := glow_approaching s;
               f_hotspot := hotspot_active s; f_hit := false |}).
  assert (Hl : lit f) by (intros H; discriminate H).
  destruct (scan_targets_spec pg (targets s) f Hl) as (H1 & H2 & H3).
  destruct (scan_targets pg (targets s) f) as [ts f'].
  cbn [fst snd] in H1, H2, H3. cbn [f_hit f orb] in H3.
  assert (Hts : forall i t, targets s !! i = Some t ->
            ts !! i = Some (fst (scan_target pg t f0))).
  { intros i t Hi. rewrite H1.
    change (map ?g ?l) with (g <$> l).
    rewrite list_lookup_fmap, Hi. cbn. f_equal. apply scan_target_fst. }
  assert (Hlen : length ts = length (targets s)).
  { rewrite H1. apply length_map. }
  destruct (f_hit f') eqn:Eh; cbn [targets hotspot_active glow_approaching].
  - destruct (H2 Eh) as [Hg Hh].
    split; [done|]. split; [|by rewrite Hg, Hh, <- H3].
    intros i t Hi. split; [by apply Hts|].
    intros Hc. rewrite (Hts i t Hi).
    by rewrite (scan_target_culled pg t f0 Hc).
  - split; [done|]. split; [|by rewrite <- H3].
    intros i t Hi. split; [by apply Hts|].
    intros Hc. rewrite (Hts i t Hi).
    by rewrite (scan_target_culled pg t f0 Hc).
Qed.

Lemma collisionCheck_flags_witness :
  let pg := {| beamRect := {| top := 100; height := 4 |}; scrollY := 0;
               innerHeight := 800; isMobile := false |} in
  let near := {| t_rect := {| top := 82; height := 20 |};
                 beam_approaching := false; beam_contact := false |} in
  let s := {| targets := [near]; glow_approaching := true;
              hotspot_active := true |} in
  hotspot_active (collisionCheck new_beam pg s) = false
  /\ glow_approaching (collisionCheck new_beam pg s) = false.
Proof.
  intros pg near s.
  destruct (collisionCheck_flags new_beam pg s) as (_ & _ & H1 & H2).
  - reflexivity.
  - by eexists.
  - rewrite H1, H2. split; vm_compute; reflexivity.
Defined.

(** [syncToDecay] pauses at most; it never calls [resume]. *)
Lemma syncToDecay_keeps_paused (stage : string) (p : jsnum) (b : beam) :
  isPaused b = true ->
  body b = set_playState "paused" (body b) ->
  isPaused (syncToDecay stage p b) = true
  /\ body (syncToDecay stage p b) = body b.
Proof.
  intros Hp Hb. unfold syncToDecay.
  destruct (_ =? _); [done|].
  destruct (String.eqb stage "death"); cbn; [|done].
  split; [done|]. by rewrite <- Hb.
Qed.

Lemma set_playState_twice (v : string) (el : option element) :
  set_playState v (set_playState v el) = set_playState v el.
Proof. by destruct el. Qed.

Lemma sync_all_keeps_paused (l : list (string * jsnum)) (b : beam) :
  isPaused b = true ->
  body b = set_playState "paused" (body b) ->
  isPaused (sync_all l b) = true /\ body (sync_all l b) = body b.
Proof.
  revert b. induction l as [|x l IH]; intros b Hp Hb; [done|].
  unfold sync_all. cbn [fold_left].
  destruct (syncToDecay_keeps_paused (fst x) (snd x) b Hp Hb) as [H1 H2].
  destruct (IH (syncToDecay (fst x) (snd x) b)) as [H3 H4];
    [done|by rewrite H2|].
  unfold sync_all in H3, H4. by rewrite H3, H4, H2.
Qed.

(** X12. A beam stopped at death is never started again by the stages
    that follow. When [syncToDecay ("death")] changes the speed, it pauses
    the beam; whatever stages are sent afterwards (the pirate stage
    included) the beam stays paused, its body keeps the play state
    [paused], and every run of the collision detection leaves the page as
    it is. *)
Theorem death_pause_is_final (b : beam) (p : jsnum)
    (l : list (string * jsnum)) (pg : page) (s : scene) :
  currentSpeed b <> 8 ->
  let b' := sync_all l (syncToDecay "death" p b) in
  isPaused b' = true
  /\ body b' = set_playState "paused" (body b)
  /\ collisionCheck b' pg s = s.
Proof.
  intros Hs b'.
  assert (Hd : syncToDecay "death" p b
               = pause {| body := body b; glow := glow b;
                          hotspot := hotspot b; isPaused := isPaused b;
                          currentSpeed := 8; beam_speed := Some 8 |}).
  { unfold syncToDecay.
    change (lookup_or speeds "death" 8) with 8.
    destruct (8 =? currentSpeed b) eqn:E; [lia|done]. }
  destruct (sync_all_keeps_paused l (syncToDecay "death" p b)) as [H1 H2].
  - by rewrite Hd.
  - rewrite Hd. cbn. by rewrite set_playState_twice.
  - subst b'. split; [done|]. split.
    + rewrite H2, Hd. done.
    + unfold collisionCheck. by rewrite H1.
Qed.

Lemma death_pause_is_final_witness :
  let b := syncToDecay "decay" (Fin 0) new_beam in
  let l := [("pirate", Fin 1); ("healthy", Fin 0)] in
  currentSpeed b <> 8
  /\ isPaused (sync_all l (syncToDecay "death" (Fin 0) b)) = true.
Proof.
  intros b l.
  assert (Hs : currentSpeed b <> 8) by (vm_compute; discriminate).
  split; [exact Hs|].
  apply (death_pause_is_final b (Fin 0) l
           {| beamRect := {| top := 0; height := 0 |}; scrollY := 0;
              innerHeight := 0; isMobile := false |}
           {| targets := []; glow_approaching := false;
              hotspot_active := false |} Hs).
Defined.

End BeamMore.

(** * More properties of the particle field *)

Module ParticleMore.
Import JS Particles BeamScan ParticleField ParticleFacts BeamMore.

Lemma fade_faded (pt : particle) : faded (fade pt) = true.
Proof. done. Qed.

Lemma fadeLayer_keeps (r : Q) (l : layer) :
  length (field (fadeLayer r l)) = length (field l)
  /\ (forallb faded (field l) = true ->
      forallb faded (field (fadeLayer r l)) = true)
  /\ (forall i pt, field l !! i = Some pt -> faded pt = true ->
        exists pt', field (fadeLayer r l) !! i = Some pt'
                    /\ faded pt' = true).
Proof.
  split; [|split].
  - unfold fadeLayer. cbn. by rewrite length_imap.
  - rewrite !forallb_forall. intros H pt' Hin.
    apply list_elem_of_In, list_elem_of_lookup in Hin as [i Hi].
    destruct (field l !! i) as [pt|] eqn:E.
    + rewrite (fadeLayer_lookup r l i pt E) in Hi. injection Hi as <-.
      destruct (_ <=? _); [done|].
      apply H, list_elem_of_In, list_elem_of_lookup. by exists i.
    + apply lookup_ge_None in E. apply lookup_lt_Some in Hi.
      unfold fadeLayer in Hi. cbn in Hi. rewrite length_imap in Hi. lia.
  - intros i pt Hi Hf. rewrite (fadeLayer_lookup r l i pt Hi).
    eexists. split; [done|]. by destruct (_ <=? _).
Qed.

Lemma fadeLayer_death (l : layer) :
  forallb faded (field (fadeLayer 0 l)) = true.
Proof.
  rewrite forallb_forall. intros pt' Hin.
  apply list_elem_of_In, list_elem_of_lookup in Hin as [i Hi].
  destruct (field l !! i) as [pt|] eqn:E.
  - rewrite (fadeLayer_lookup 0 l i pt E) in Hi. injection Hi as <-.
    rewrite targetCount_death.
    destruct (0 <=? Z.of_nat i) eqn:E0; [done|].
    apply Z.leb_gt in E0. lia.
  - apply lookup_ge_None in E. apply lookup_lt_Some in Hi.
    unfold fadeLayer in Hi. cbn in Hi. rewrite length_imap in Hi. lia.
Qed.

Lemma shape_fadeOut (r : Q) (d : drift) :
  shape (fadeOutRandomParticles r d) = shape d.
Proof.
  unfold shape, fadeOutRandomParticles. cbn. rewrite map_map.
  apply map_ext. intros [name l]. cbn [fst snd]. f_equal.
  apply (proj1 (fadeLayer_keeps r l)).
Qed.

Lemma all_faded_fadeOut (r : Q) (d : drift) :
  all_faded d = true -> all_faded (fadeOutRandomParticles r d) = true.
Proof.
  unfold all_faded, fadeOutRandomParticles. cbn.
  rewrite !forallb_forall. intros H nl Hin.
  apply in_map_iff in Hin as ([name l] & <- & Hin). cbn.
  apply (proj1 (proj2 (fadeLayer_keeps r l))). by apply (H (name, l)).
Qed.

Lemma syncToDecay_cases (stage : string) (p : jsnum) (d : drift) :
  let d0 := {| layers := layers d; decayState := stage;
               particle_decay_multiplier :=
                 Some (Particles.lookup_or opacityMultipliers stage 1.0%Q) |} in
  syncToDecay stage p d = d0
  \/ exists r, syncToDecay stage p d = fadeOutRandomParticles r d0.
Proof.
  intros d0. unfold syncToDecay. fold d0.
  destruct (String.eqb stage "decay"); [right; by eexists|].
  destruct (String.eqb stage "death"); [right; by eexists|by left].
Qed.

Lemma syncToDecay_keeps (stage : string) (p : jsnum) (d : drift) :
  shape (syncToDecay stage p d) = shape d
  /\ (all_faded d = true -> all_faded (syncToDecay stage p d) = true).
Proof.
  destruct (syncToDecay_cases stage p d) as [->|[r ->]].
  - done.
  - rewrite shape_fadeOut. split; [done|]. intros H.
    by apply all_faded_fadeOut.
Qed.

Lemma sync_all_keeps (l : list (string * jsnum)) (d : drift) :
  shape (sync_all l d) = shape d
  /\ (all_faded d = true -> all_faded (sync_all l d) = true).
Proof.
  revert d. induction l as [|x l IH]; intros d; [done|].
  unfold sync_all. cbn [fold_left].
  destruct (IH (syncToDecay (fst x) (snd x) d)) as [H1 H2].
  destruct (syncToDecay_keeps (fst x) (snd x) d) as [H3 H4].
  unfold sync_all in H1, H2. rewrite H1, H3. split; [done|].
  intros H. by apply H2, H4.
Qed.

Lemma syncToDecay_state (st : string) (q : jsnum) (e : drift) :
  decayState (syncToDecay st q e) = st.
Proof.
  unfold syncToDecay.
  destruct (String.eqb st "decay"); [done|].
  by destruct (String.eqb st "death").
Qed.

Lemma sync_all_state (l : list (string * jsnum)) (e : drift) (s0 : string) :
  decayState e = s0 ->
  decayState (sync_all l e) = default s0 (last (map fst l)).
Proof.
  revert e s0. induction l as [|x l IH]; intros e s0 He; [done|].
  unfold sync_all. cbn [fold_left map].
  specialize (IH (syncToDecay (fst x) (snd x) e) (fst x)
                 (syncToDecay_state _ _ _)).
  unfold sync_all in IH. rewrite IH, last_cons.
  by destruct (last (map fst l)).
Qed.

(** X13. Particles never come back. After the stage [death] every
    particle of every layer is faded, and it stays faded whatever stages
    follow (a return to [healthy] or the pirate stage included): later
    stages only write the multiplier. No stage adds or removes a
    particle: each layer keeps its number of elements. *)
Theorem death_fade_is_final (d : drift) (p : jsnum)
    (l : list (string * jsnum)) :
  let d' := sync_all l (syncToDecay "death" p d) in
  all_faded d' = true
  /\ shape d' = shape d
  /\ decayState d' = default "death" (last (map fst l)).
Proof.
  intros d'. subst d'.
  destruct (sync_all_keeps l (syncToDecay "death" p d)) as [H1 H2].
  split; [|split].
  - apply H2. unfold syncToDecay.
    change (String.eqb "death" "decay") with false.
    change (String.eqb "death" "death") with true. cbn iota.
    unfold all_faded, fadeOutRandomParticles. cbn.
    rewrite forallb_forall. intros nl Hin.
    apply in_map_iff in Hin as ([name la] & <- & Hin). cbn.
    apply fadeLayer_death.
  - rewrite H1. apply (syncToDecay_keeps "death" p d).
  - apply sync_all_state, syncToDecay_state.
Qed.


(** The clamp of [style.left]. *)
Lemma clamp_left (x : jsnum) :
  max_5 (min_95 x) = NaN
  \/ exists q, max_5 (min_95 x) = Fin q /\ (5 <= q <= 95)%Q.
Proof.
  destruct x as [q| | |]; cbn.
  - right. destruct (Qle_bool 95 q) eqn:E; cbn.
    + exists 95%Q. split; [done|]. lra.
    + destruct (Qle_bool q 5) eqn:E5.
      * exists 5%Q. split; [done|]. lra.
      * exists q. split; [done|].
        assert (H1 : ~ (95 <= q)%Q).
        { intros H. apply Qle_bool_iff in H. congruence. }
        assert (H2 : ~ (q <= 5)%Q).
        { intros H. apply Qle_bool_iff in H. congruence. }
        lra.
  - right. exists 95%Q. split; [done|]. lra.
  - right. exists 5%Q. split; [done|]. lra.
  - by left.
Qed.

Lemma lerp_bounds (lo hi u : Q) :
  (lo <= hi)%Q -> (0 <= u < 1)%Q ->
  (lo <= lo + u * (hi - lo) <= hi)%Q.
Proof.
  intros H [H0 H1].
  assert (A : (0 <= u * (hi - lo))%Q) by (apply Qmult_le_0_compat; lra).
  assert (B : (0 <= (1 - u) * (hi - lo))%Q)
    by (apply Qmult_le_0_compat; lra).
  split; lra.
Qed.

Section CreateFacts.

Variable random : nat -> Q.
Variable boxMuller : Q -> Q -> jsnum.
Hypothesis random_range : forall k, (0 <= random k < 1)%Q.

Lemma create_one_spec (name : string) (layer : layer_config) (k : nat) :
  (fst (sizeRange layer) <= snd (sizeRange layer))%Q ->
  (fst (blurRange layer) <= snd (blurRange layer))%Q ->
  (0 <= speed layer)%Q ->
  well_made name layer (fst (create_one random boxMuller name layer k))
  /\ snd (create_one random boxMuller name layer k) = (k + 5)%nat.
Proof.
  intros Hs Hb Hv. unfold create_one, gaussianRandom. cbn [fst snd].
  split; [|lia]. unfold well_made. cbn.
  pose proof (random_range (S (S k))) as R2.
  pose proof (random_range (S (S (S k)))) as R3.
  pose proof (random_range (S (S (S (S k))))) as R4.
  split; [done|]. split; [by apply lerp_bounds|]. split; [done|].
  split; [by apply lerp_bounds|]. split; [done|]. split; [done|].
  split; [|split; [done|split; [done|apply clamp_left]]].
  destruct R4 as [R40 R41].
  assert (A : (0 <= random (S (S (S (S k)))) * speed layer)%Q)
    by (apply Qmult_le_0_compat; lra).
  assert (B : (0 <= (1 - random (S (S (S (S k))))) * speed layer)%Q)
    by (apply Qmult_le_0_compat; lra).
  split; lra.
Qed.

Lemma create_loop_spec (n : nat) (name : string) (layer : layer_config)
    (fld : list mote) (k : nat) :
  (fst (sizeRange layer) <= snd (sizeRange layer))%Q ->
  (fst (blurRange layer) <= snd (blurRange layer))%Q ->
  (0 <= speed layer)%Q ->
  Forall (well_made name layer) fld ->
  let r := create_loop random boxMuller n name layer fld k in
  length (fst r) = (length fld + n)%nat
  /\ snd r = (k + 5 * n)%nat
  /\ Forall (well_made name layer) (fst r).
Proof.
  intros Hs Hb Hv. revert fld k.
  induction n as [|n IH]; intros fld k Hf; cbn [create_loop].
  - cbn. split; [lia|]. split; [lia|done].
  - destruct (create_one_spec name layer k Hs Hb Hv) as [H1 H2].
    destruct (create_one random boxMuller name layer k) as [m k'].
    cbn [fst snd] in H1, H2. subst k'.
    destruct (IH (fld ++ [m]) (k + 5)%nat) as (A & B & C).
    { apply Forall_app. split; [done|]. by constructor. }
    rewrite length_app in A. cbn in A.
    split; [lia|]. split; [lia|done].
Qed.

(** X14. [createLayerParticles] fills a field with exactly [count]
    particles, whatever the field held before, and uses five random
    numbers for each. With every random number in [0, 1) and a layer
    whose ranges are ordered, each particle carries the layer's name, a
    square size within the size range, a blur within the blur range that
    is also stored as its base blur, no brightness, an animation delay
    between minus the layer's speed and 0, the layer's speed as duration,
    and a horizontal position that is NaN or lies between 5 and 95
    percent. *)
Theorem createLayerParticles_well_made (name : string)
    (layer : layer_config) (old : list mote) (k : nat) :
  (fst (sizeRange layer) <= snd (sizeRange layer))%Q ->
  (fst (blurRange layer) <= snd (blurRange layer))%Q ->
  (0 <= speed layer)%Q ->
  let r := createLayerParticles random boxMuller name layer old k in
  length (fst r) = Z.to_nat (l_count layer)
  /\ snd r = (k + 5 * Z.to_nat (l_count layer))%nat
  /\ (forall i m, fst r !! i = Some m -> well_made name layer m).
Proof.
  intros Hs Hb Hv r. subst r. unfold createLayerParticles.
  destruct (create_loop_spec (Z.to_nat (l_count layer)) name layer [] k
              Hs Hb Hv ltac:(constructor)) as (A & B & C).
  split; [done|]. split; [done|].
  intros i m Hi. rewrite Forall_lookup in C. by apply (C i).
Qed.

Lemma new_layers_ordered (isMobile : bool) :
  Forall (fun nl =>
            (fst (sizeRange (snd nl)) <= snd (sizeRange (snd nl)))%Q
            /\ (fst (blurRange (snd nl)) <= snd (blurRange (snd nl)))%Q
            /\ (0 <= speed (snd nl))%Q)
    (new_layers isMobile).
Proof.
  unfold new_layers.
  repeat (constructor; [cbn; repeat split; discriminate|]). constructor.
Qed.

Lemma new_layers_counts (isMobile : bool) :
  map (fun nl => (fst nl, Z.to_nat (l_count (snd nl)))) (new_layers isMobile)
  = if isMobile then [("far", 15); ("mid", 10); ("near", 4)]%nat
    else [("far", 25); ("mid", 18); ("near", 7)]%nat.
Proof. by destruct isMobile. Qed.

Lemma createAllParticles_spec (layers : list (string * layer_config))
    (k : nat) :
  Forall (fun nl =>
            (fst (sizeRange (snd nl)) <= snd (sizeRange (snd nl)))%Q
            /\ (fst (blurRange (snd nl)) <= snd (blurRange (snd nl)))%Q
            /\ (0 <= speed (snd nl))%Q) layers ->
  let r := createAllParticles random boxMuller layers k in
  map (fun f => (fst f, length (snd f))) (fst r)
  = map (fun nl => (fst nl, Z.to_nat (l_count (snd nl)))) layers
  /\ snd r
     = (k + 5 * sum_list (map (fun nl => Z.to_nat (l_count (snd nl)))
                            layers))%nat
  /\ Forall2 (fun f nl => fst f = fst nl
                          /\ Forall (well_made (fst nl) (snd nl)) (snd f))
       (fst r) layers.
Proof.
  intros Hord. unfold createAllParticles.
  assert (G : forall done k0 pre,
    map (fun f => (fst f, length (snd f))) done
    = map (fun nl => (fst nl, Z.to_nat (l_count (snd nl)))) pre ->
    Forall2 (fun f nl => fst f = fst nl
                         /\ Forall (well_made (fst nl) (snd nl)) (snd f))
      done pre ->
    let r := fold_left
      (fun acc nl =>
         let '(ms, k) := createLayerParticles random boxMuller (fst nl)
                           (snd nl) [] (snd acc) in
         (fst acc ++ [(fst nl, ms)], k)) layers (done, k0) in
    map (fun f => (fst f, length (snd f))) (fst r)
    = map (fun nl => (fst nl, Z.to_nat (l_count (snd nl)))) (pre ++ layers)
    /\ snd r
       = (k0 + 5 * sum_list (map (fun nl => Z.to_nat (l_count (snd nl)))
                               layers))%nat
    /\ Forall2 (fun f nl => fst f = fst nl
                            /\ Forall (well_made (fst nl) (snd nl)) (snd f))
         (fst r) (pre ++ layers)).
  { induction Hord as [|nl layers (Hs & Hb & Hv) Hord IH];
      intros done k0 pre Hm Hf.
    - cbn. rewrite app_nil_r. split; [done|]. split; [lia|done].
    - cbn [fold_left fst snd].
      destruct (create_loop_spec (Z.to_nat (l_count (snd nl))) (fst nl)
                  (snd nl) [] k0 Hs Hb Hv ltac:(constructor))
        as (A & B & C).
      change (createLayerParticles random boxMuller (fst nl) (snd nl) [] k0)
        with (create_loop random boxMuller (Z.to_nat (l_count (snd nl)))
                (fst nl) (snd nl) [] k0).
      destruct (create_loop random boxMuller (Z.to_nat (l_count (snd nl)))
                  (fst nl) (snd nl) [] k0) as [ms k1].
      cbn [fst snd] in A, B, C. cbn [length] in A.
      specialize (IH (done ++ [(fst nl, ms)]) k1 (pre ++ [nl])).
      rewrite <- app_assoc in IH. cbn [app] in IH.
      destruct IH as (I1 & I2 & I3).
      + rewrite !map_app, Hm. cbn [map fst snd]. by rewrite A.
      + apply Forall2_app; [done|]. by constructor.
      + split; [done|]. split; [|done].
        rewrite I2, B. cbn [map sum_list_with]. unfold id. lia. }
  destruct (G [] k [] eq_refl ltac:(constructor)) as (G1 & G2 & G3).
  done.
Qed.

(** X26. The particle field as [init] builds it. With every random
    number in [0, 1), [createAllParticles] on the layers of the
    constructor makes 25, 18 and 7 particles for [far], [mid] and [near]
    (15, 10 and 4 on a mobile device), in that order, uses five random
    numbers for each, and every particle is well made for its own layer:
    the ranges of the three layers are ordered, so no particle falls
    outside them. *)
Theorem createAllParticles_counts (isMobile : bool) (k : nat) :
  let r := createAllParticles random boxMuller (new_layers isMobile) k in
  map (fun f => (fst f, length (snd f))) (fst r)
  = (if isMobile then [("far", 15); ("mid", 10); ("near", 4)]
     else [("far", 25); ("mid", 18); ("near", 7)])%nat
  /\ snd r = (k + 5 * if isMobile then 29 else 50)%nat
  /\ Forall2 (fun f nl => fst f = fst nl
                          /\ Forall (well_made (fst nl) (snd nl)) (snd f))
       (fst r) (new_layers isMobile).
Proof.
  destruct (createAllParticles_spec (new_layers isMobile) k
              (new_layers_ordered isMobile)) as (A & B & C).
  cbv zeta. rewrite A, B, new_layers_counts. split; [done|].
  split; [by destruct isMobile|done].
Qed.

End CreateFacts.

Lemma createAllParticles_counts_witness :
  let random := fun _ : nat => (1 # 2)%Q in
  let boxMuller := fun _ _ : Q => Fin 3 in
  (forall k : nat, (0 <= random k < 1)%Q)
  /\ snd (createAllParticles random boxMuller (new_layers true) 0)
     = (0 + 5 * 29)%nat.
Proof.
  intros random boxMuller.
  assert (Hr : forall k : nat, (0 <= random k < 1)%Q).
  { intros k. split; vm_compute; [discriminate|reflexivity]. }
  split; [exact Hr|].
  exact (proj1 (proj2
    (createAllParticles_counts random boxMuller Hr true 0%nat))).
Defined.

Lemma createLayerParticles_well_made_witness :
  let random := fun _ : nat => (1 # 2)%Q in
  let boxMuller := fun _ _ : Q => Fin 3 in
  let layer := {| l_count := 7; sizeRange := (3, 5)%Q;
                  blurRange := (0, 0.5)%Q; speed := 15%Q |} in
  (forall k : nat, (0 <= random k < 1)%Q)
  /\ (fst (sizeRange layer) <= snd (sizeRange layer))%Q
  /\ (fst (blurRange layer) <= snd (blurRange layer))%Q
  /\ (0 <= speed layer)%Q
  /\ length (fst (createLayerParticles random boxMuller "near" layer [] 0))
     = Z.to_nat (l_count layer).
Proof.
  intros random boxMuller layer.
  assert (Hr : forall k : nat, (0 <= random k < 1)%Q).
  { intros k. split; vm_compute; [discriminate|reflexivity]. }
  assert (Hs : (fst (sizeRange layer) <= snd (sizeRange layer))%Q)
    by (vm_compute; discriminate).
  assert (Hb : (fst (blurRange layer) <= snd (blurRange layer))%Q)
    by (vm_compute; discriminate).
  assert (Hv : (0 <= speed layer)%Q) by (vm_compute; discriminate).
  split; [exact Hr|]. split; [exact Hs|]. split; [exact Hb|].
  split; [exact Hv|].
  exact (proj1 (createLayerParticles_well_made random boxMuller Hr
                  "near" layer [] 0%nat Hs Hb Hv)).
Defined.



Lemma parse_baseBlur_Some (v : Q) : (parse_baseBlur (Some v) == v)%Q.
Proof.
  cbn. destruct (Qeq_bool v 0) eqn:E; [|reflexivity].
  apply Qeq_bool_iff in E. by rewrite E.
Qed.




(** What creation fixes of a particle whatever the random source gives. *)
Lemma create_loop_fresh (random : nat -> Q) (boxMuller : Q -> Q -> jsnum)
    (n : nat) (name : string) (layer : layer_config) (fld : list mote)
    (k : nat) :
  let fresh := fun m =>
    m_layer m = name /\ brightness (m_filter m) = None
    /\ m_baseBlur m = Some (blur_px (m_filter m))
    /\ m_revealed m = false in
  Forall fresh fld ->
  Forall fresh (fst (create_loop random boxMuller n name layer fld k)).
Proof.
  intros fresh. revert fld k.
  induction n as [|n IH]; intros fld k Hf; cbn [create_loop]; [done|].
  assert (H1 : fresh (fst (create_one random boxMuller name layer k)))
    by done.
  destruct (create_one random boxMuller name layer k) as [m k'].
  apply IH, Forall_app. split; [done|]. by constructor.
Qed.

Lemma illuminate_far (beamY : Q) (r : rect) (m : mote) :
  (range_of (m_layer m) <= mote_distance beamY r)%Q ->
  illuminate beamY r m
  = set_glow {| blur_px := parse_baseBlur (m_baseBlur m);
                brightness := None |} false m.
Proof.
  intros H. unfold illuminate.
  by rewrite (proj2 (Qlt_bool_false _ _) H).
Qed.

(** X16. Illumination leaves no trace. Take the particles made by
    [createLayerParticles], let the beam interval run once with the
    particles anywhere, and once more with every particle out of range:
    each particle is then as it was made (the same layer, position, size,
    delay and duration, no brightness, not revealed), with the blur it was
    made with. A run without a beam body changes nothing at all. *)
Theorem beam_tick_restores (random : nat -> Q) (boxMuller : Q -> Q -> jsnum)
    (name : string) (layer : layer_config) (k : nat)
    (beamRect : rect) (near far : nat -> rect) (i : nat) (m : mote) :
  let ms := fst (createLayerParticles random boxMuller name layer [] k) in
  let beamY := (top beamRect + height beamRect / 2)%Q in
  (forall j, (range_of name <= mote_distance beamY (far j))%Q) ->
  ms !! i = Some m ->
  beam_tick None far ms = ms
  /\ exists m',
       beam_tick (Some beamRect) far (beam_tick (Some beamRect) near ms) !! i
         = Some m'
       /\ set_glow (m_filter m) false m' = m
       /\ brightness (m_filter m') = None
       /\ m_revealed m' = false
       /\ (blur_px (m_filter m') == blur_px (m_filter m))%Q.
Proof.
  intros ms beamY Hfar Hi. split; [done|].
  assert (Hm : m_layer m = name /\ brightness (m_filter m) = None
               /\ m_baseBlur m = Some (blur_px (m_filter m))
               /\ m_revealed m = false).
  { pose proof (create_loop_fresh random boxMuller
                  (Z.to_nat (l_count layer)) name layer [] k
                  ltac:(constructor)) as HF.
    cbv zeta in HF. rewrite Forall_lookup in HF. by apply (HF i). }
  destruct Hm as (Hn & Hbr & Hbb & Hrv).
  unfold beam_tick. fold beamY.
  rewrite !list_lookup_imap, Hi. cbn [fmap option_fmap option_map].
  eexists. split; [reflexivity|].
  set (m1 := illuminate beamY (near i) m).
  assert (H1 : m_layer m1 = name /\ m_baseBlur m1 = m_baseBlur m
               /\ forall f b, set_glow f b m1 = set_glow f b m).
  { subst m1. unfold illuminate. by destruct (Qlt_bool _ _). }
  destruct H1 as (H1n & H1b & H1g).
  rewrite illuminate_far by (rewrite H1n; apply Hfar).
  rewrite H1b, H1g, Hbb. cbn [m_filter set_glow brightness blur_px m_revealed].
  split; [|split; [done|split; [done|apply parse_baseBlur_Some]]].
  destruct m as [? ? ? ? [? ?] ? ? ? ?]. cbn in Hrv |- *. by rewrite Hrv.
Qed.

Lemma beam_tick_restores_witness :
  let random := fun _ : nat => (1 # 2)%Q in
  let boxMuller := fun _ _ : Q => Fin 0 in
  let layer := {| l_count := 2; sizeRange := (3, 5)%Q;
                  blurRange := (0, 0.5)%Q; speed := 15%Q |} in
  let beamRect := {| top := 100; height := 4 |} in
  let near := fun _ : nat => {| top := 110; height := 4 |} in
  let far := fun _ : nat => {| top := 400; height := 4 |} in
  let ms := fst (createLayerParticles random boxMuller "near" layer [] 0) in
  exists m, ms !! 1%nat = Some m /\ beam_tick None far ms = ms.
Proof.
  intros random boxMuller layer beamRect near far ms.
  eexists. split; [reflexivity|].
  refine (proj1 (beam_tick_restores random boxMuller "near" layer 0
                   beamRect near far 1 _ _ eq_refl)).
  intros j. vm_compute. discriminate.
Defined.

End ParticleMore.

(** * More properties of the audio engine *)

Module AudioMore.
Import JS Audio AudioSpec AudioEngine AudioFacts.

(** ** Which nodes exist *)

Lemma present_true (n : string) (a : audio) :
  present n a = true <-> is_Some (nodes a !! n).
Proof. unfold present. apply bool_decide_eq_true. Qed.

Lemma present_lookup (n : string) (a b : audio) :
  (is_Some (nodes a !! n) <-> is_Some (nodes b !! n)) ->
  present n a = present n b.
Proof.
  intros H. unfold present.
  destruct (bool_decide_reflect (is_Some (nodes a !! n))) as [Ha|Ha];
    destruct (bool_decide_reflect (is_Some (nodes b !! n))) as [Hb|Hb];
    tauto.
Qed.

Lemma present_insert (k n : string) (v : node) (a : audio) :
  present n (with_nodes (insert k v) a) = String.eqb n k || present n a.
Proof.
  unfold present, with_nodes. cbn [nodes].
  destruct (String.eqb_spec n k) as [->|Hne]; cbn [orb].
  - rewrite lookup_insert_eq. by apply bool_decide_eq_true.
  - by rewrite lookup_insert_ne.
Qed.

Lemma present_cleanup (names : list string) (n : string) (a : audio) :
  present n (cleanup names a) = negb (named names n) && present n a.
Proof.
  unfold cleanup, with_nodes, named. cbn [nodes].
  induction names as [|k names IH]; [done|].
  cbn [foldr existsb].
  destruct (String.eqb_spec n k) as [->|Hne]; cbn [orb negb andb].
  - unfold present. cbn [nodes]. rewrite lookup_delete_eq.
    apply bool_decide_eq_false. by intros [? ?].
  - rewrite <- IH. unfold present. cbn [nodes].
    by rewrite lookup_delete_ne.
Qed.

Lemma present_log_op (o : gain_op) (n : string) (a : audio) :
  present n (log_op o a) = present n a.
Proof. done. Qed.

Lemma present_create_gain (k n : string) (v : jsnum) (a : audio) :
  present n (create_gain k v a) = String.eqb n k || present n a.
Proof. unfold create_gain. by rewrite present_log_op, present_insert. Qed.

Lemma present_create_oscillator (k n : string) (f : Q) (a : audio) :
  present n (create_oscillator k f a) = String.eqb n k || present n a.
Proof. unfold create_oscillator. by rewrite present_insert. Qed.

Lemma present_ramp_if_present (k n : string) (v : jsnum) (a : audio) :
  present n (ramp_if_present k v a) = present n a.
Proof.
  unfold ramp_if_present. destruct (nodes a !! k) as [x|] eqn:E; [|done].
  rewrite present_log_op, present_insert.
  destruct (String.eqb_spec n k) as [->|]; [|done].
  cbn [orb]. symmetry. apply present_true. by rewrite E.
Qed.

Lemma present_updateHumVolumes (n : string) (a : audio) :
  present n (updateHumVolumes a) = present n a.
Proof. unfold updateHumVolumes. by rewrite !present_ramp_if_present. Qed.

Lemma present_cleanupCRTHum (n : string) (a : audio) :
  present n (cleanupCRTHum a) = negb (named crt_names n) && present n a.
Proof.
  unfold cleanupCRTHum. rewrite !present_cleanup.
  unfold named, crt_names. cbn [existsb].
  by repeat destruct (String.eqb n _).
Qed.

Lemma present_cleanupSchumannHum (n : string) (a : audio) :
  present n (cleanupSchumannHum a)
  = negb (named schumann_names n) && present n a.
Proof.
  unfold cleanupSchumannHum. rewrite !present_cleanup.
  unfold named, schumann_names. cbn [existsb].
  by repeat destruct (String.eqb n _).
Qed.

Lemma present_cleanupBeam (n : string) (a : audio) :
  present n (cleanupBeam a) = negb (named beam_names n) && present n a.
Proof.
  unfold cleanupBeam. rewrite !present_cleanup.
  unfold named, beam_names. cbn [existsb].
  by repeat destruct (String.eqb n _).
Qed.

Lemma flags_with_nodes (f : gmap string node -> gmap string node)
    (a : audio) :
  isPirateMode (with_nodes f a) = isPirateMode a
  /\ isDeathSequence (with_nodes f a) = isDeathSequence a
  /\ volumeLevel (with_nodes f a) = volumeLevel a
  /\ baseVolume (with_nodes f a) = baseVolume a.
Proof. done. Qed.

Lemma present_setupCRTHum (n : string) (a : audio) :
  isDeathSequence a = false -> isPirateMode a = false ->
  present n (setupCRTHum a) = named crt_names n || present n a.
Proof.
  intros D P. unfold setupCRTHum.
  change (isDeathSequence (cleanupCRTHum a)) with (isDeathSequence a).
  change (isPirateMode (cleanupCRTHum a)) with (isPirateMode a).
  rewrite D, P. cbn [orb].
  repeat (rewrite present_create_gain || rewrite present_create_oscillator).
  rewrite present_cleanupCRTHum.
  unfold named, crt_names. cbn [existsb].
  by repeat destruct (String.eqb n _).
Qed.

Lemma present_setupCRTHum_blocked (n : string) (a : audio) :
  isDeathSequence a || isPirateMode a = true ->
  present n (setupCRTHum a) = negb (named crt_names n) && present n a.
Proof.
  intros H. unfold setupCRTHum.
  change (isDeathSequence (cleanupCRTHum a)) with (isDeathSequence a).
  change (isPirateMode (cleanupCRTHum a)) with (isPirateMode a).
  rewrite H. apply present_cleanupCRTHum.
Qed.

Lemma present_setupSchumannHum (n : string) (a : audio) :
  present n (setupSchumannHum a) = named schumann_names n || present n a.
Proof.
  unfold setupSchumannHum. cbv zeta.
  repeat (rewrite present_create_gain || rewrite present_create_oscillator).
  rewrite present_cleanupSchumannHum.
  unfold named, schumann_names. cbn [existsb].
  by repeat destruct (String.eqb n _).
Qed.

Lemma flags_cleanup (names : list string) (a : audio) :
  isPirateMode (cleanup names a) = isPirateMode a
  /\ isDeathSequence (cleanup names a) = isDeathSequence a.
Proof. done. Qed.

Lemma flags_ramp_if_present (k : string) (v : jsnum) (a : audio) :
  isPirateMode (ramp_if_present k v a) = isPirateMode a
  /\ isDeathSequence (ramp_if_present k v a) = isDeathSequence a.
Proof. unfold ramp_if_present. by destruct (nodes a !! k). Qed.

Lemma flags_updateHumVolumes (a : audio) :
  isPirateMode (updateHumVolumes a) = isPirateMode a
  /\ isDeathSequence (updateHumVolumes a) = isDeathSequence a.
Proof.
  unfold updateHumVolumes.
  repeat match goal with
  | |- context [ramp_if_present ?k ?v ?y] =>
      destruct (flags_ramp_if_present k v y) as [-> ->]
  end. done.
Qed.

Lemma flags_setupCRTHum (a : audio) :
  isPirateMode (setupCRTHum a) = isPirateMode a
  /\ isDeathSequence (setupCRTHum a) = isDeathSequence a.
Proof.
  unfold setupCRTHum.
  change (isDeathSequence (cleanupCRTHum a)) with (isDeathSequence a).
  change (isPirateMode (cleanupCRTHum a)) with (isPirateMode a).
  by destruct (isDeathSequence a || isPirateMode a).
Qed.

Lemma flags_setVolumeLevel (l : Z) (a : audio) :
  isPirateMode (setVolumeLevel l a) = isPirateMode a
  /\ isDeathSequence (setVolumeLevel l a) = isDeathSequence a.
Proof.
  unfold setVolumeLevel.
  cbn [volumeLevel isPirateMode isDeathSequence].
  destruct (l =? 0); [done|].
  destruct (_ && _); [done|].
  destruct (_ && _).
  - apply (flags_setupCRTHum
      {| volumeLevel := l; baseVolume := baseVolume a;
         isDeathSequence := isDeathSequence a;
         isPirateMode := isPirateMode a; nodes := nodes a;
         ops := ops a |}).
  - apply (flags_updateHumVolumes
      {| volumeLevel := l; baseVolume := baseVolume a;
         isDeathSequence := isDeathSequence a;
         isPirateMode := isPirateMode a; nodes := nodes a;
         ops := ops a |}).
Qed.

(** The nodes after [setVolumeLevel], name by name. *)
Lemma present_setVolumeLevel (l : Z) (n : string) (a : audio) :
  present n (setVolumeLevel l a)
  = if l =? 0 then
      negb (named crt_names n || named schumann_names n
            || named beam_names n) && present n a
    else if isPirateMode a && negb (present "schumannCarrier" a) then
      named schumann_names n || present n a
    else if negb (isPirateMode a) && negb (isDeathSequence a)
            && negb (present "hum" a) then
      named crt_names n || present n a
    else present n a.
Proof.
  unfold setVolumeLevel.
  set (a0 := {| volumeLevel := l; baseVolume := baseVolume a;
                isDeathSequence := isDeathSequence a;
                isPirateMode := isPirateMode a; nodes := nodes a;
                ops := ops a |}).
  change (volumeLevel a0) with l.
  change (isPirateMode a0) with (isPirateMode a).
  change (isDeathSequence a0) with (isDeathSequence a).
  change (present "schumannCarrier" a0) with (present "schumannCarrier" a).
  change (present "hum" a0) with (present "hum" a).
  destruct (l =? 0).
  - rewrite present_cleanupBeam, present_cleanupSchumannHum,
      present_cleanupCRTHum.
    change (present n a0) with (present n a).
    by destruct (named crt_names n), (named schumann_names n),
      (named beam_names n).
  - destruct (isPirateMode a && negb (present "schumannCarrier" a)).
    { by rewrite present_setupSchumannHum. }
    destruct (negb (isPirateMode a) && negb (isDeathSequence a)
              && negb (present "hum" a)) eqn:C.
    + apply andb_prop in C as [C _]. apply andb_prop in C as [P D].
      apply negb_true_iff in P, D.
      by rewrite (present_setupCRTHum n a0 D P).
    + by rewrite present_updateHumVolumes.
Qed.


(** ** One hum at a time *)

Lemma none_present_spec (names : list string) (a : audio) :
  none_present names a = true
  <-> forall n, named names n = true -> present n a = false.
Proof.
  unfold none_present, named. rewrite forallb_forall. split.
  - intros H n Hn. apply existsb_exists in Hn as (k & Hk & E).
    apply String.eqb_eq in E as ->. by apply negb_true_iff, H.
  - intros H k Hk. apply negb_true_iff, H, existsb_exists.
    exists k. split; [done|]. apply String.eqb_refl.
Qed.










(** ** The death fade *)

Lemma same_frame_refl (e : engine) : same_frame e e.
Proof.
  unfold same_frame. repeat (split; [done|]).
  exists []. by rewrite app_nil_r.
Qed.

Lemma same_frame_trans (e1 e2 e3 : engine) :
  same_frame e1 e2 -> same_frame e2 e3 -> same_frame e1 e3.
Proof.
  intros (A1 & A2 & A3 & A4 & A5 & A6 & A7 & A8 & A9 & n1 & A10)
         (B1 & B2 & B3 & B4 & B5 & B6 & B7 & B8 & B9 & n2 & B10).
  unfold same_frame.
  rewrite B1, B2, B3, B4, B5, B6, B7, B8, A1, A2, A3, A4, A5, A6, A7, A8.
  repeat (split; [done|]). split.
  - intros n. by rewrite B9, A9.
  - exists (n1 ++ n2). by rewrite B10, A10, app_assoc.
Qed.

Lemma same_frame_retarget (name : string) (v : node) (o : list automation)
    (e : engine) :
  is_Some (nodes (core e) !! name) ->
  same_frame e
    {| core := with_nodes (insert name v) (core e); ready := ready e;
       currentStage := currentStage e; schedule := schedule e ++ o;
       timeouts := timeouts e; completed := completed e |}.
Proof.
  intros Hn. unfold same_frame. cbn.
  repeat (split; [done|]). split; [|by exists o].
  intros n. change (present n (with_nodes (insert name v) (core e))
                    = present n (core e)).
  rewrite present_insert.
  destruct (String.eqb_spec n name) as [->|]; [|done].
  cbn [orb]. symmetry. by apply present_true.
Qed.



Lemma fade_gain_frame (name : string) (s : Q) (e : engine) :
  same_frame e (fade_gain name s e).
Proof.
  unfold fade_gain. destruct (nodes (core e) !! name) eqn:E.
  - unfold automate, with_core. cbn. rewrite <- app_assoc.
    apply (same_frame_retarget name (Gain (Fin 0.001)) [_; _] e).
    by rewrite E.
  - apply same_frame_refl.
Qed.

(** The fade of a gain that exists ends in a ramp to 0.001. *)
Lemma fade_gain_schedule (name : string) (s : Q) (e : engine) :
  present name (core e) = true ->
  exists v,
    schedule (fade_gain name s e)
    = schedule e ++ [SetValueAtTime name GainParam v;
                     ExponentialRamp name GainParam (Fin 0.001) s].
Proof.
  intros Hp. apply present_true in Hp as [x Hx].
  unfold fade_gain. rewrite Hx. cbn. eexists. by rewrite <- app_assoc.
Qed.

Lemma beginDeath_blocked (e : engine) :
  negb (ready e) || (volumeLevel (core e) =? 0)
  || isDeathSequence (core e) = true ->
  beginDeath e = e.
Proof. intros H. unfold beginDeath. by rewrite H. Qed.

Lemma beginDeath_open (e : engine) :
  ready e = true -> volumeLevel (core e) <> 0 ->
  isDeathSequence (core e) = false ->
  let e0 := with_core (set_isDeathSequence true) e in
  let e4 := fade_gain "beamGain" 1.5
              (fade_gain "harmonic3Gain" 2
                 (fade_gain "harmonic2Gain" 2
                    (fade_gain "humGain" 2 e0))) in
  beginDeath e = setTimeout DeathCleanup 2500 e4
  /\ same_frame e0 e4.
Proof.
  intros R V D e0 e4. split.
  - unfold beginDeath. rewrite R, D.
    destruct (volumeLevel (core e) =? 0) eqn:E; [lia|done].
  - subst e4.
    repeat (eapply same_frame_trans; [|apply fade_gain_frame]).
    apply same_frame_refl.
Qed.

Lemma set_currentStage_same (e : engine) :
  set_currentStage (currentStage e) e = e.
Proof. by destruct e. Qed.

Lemma syncToDecayStage_dying (stage : string) (p : jsnum) (e : engine) :
  isDeathSequence (core e) = true ->
  syncToDecayStage stage p e = set_currentStage stage e.
Proof.
  intros D. unfold syncToDecayStage.
  change (core (set_currentStage stage e)) with (core e).
  rewrite D. cbn [negb]. rewrite andb_false_r.
  destruct (String.eqb stage "pirate" && negb (isPirateMode (core e)));
    [done|].
  by rewrite orb_true_r.
Qed.

Lemma sync_stage_dying (stage : string) (ps : list jsnum) (e : engine) :
  isDeathSequence (core e) = true ->
  currentStage e = stage ->
  sync_stage stage ps e = e.
Proof.
  intros D S. induction ps as [|p ps IH]; [done|].
  unfold sync_stage. cbn [fold_left].
  rewrite (syncToDecayStage_dying stage p e D), <- S,
    set_currentStage_same.
  rewrite S. apply IH.
Qed.

(** X18. The death fade is scheduled once. The first [death] notification
    that reaches an engine that is ready, not muted and not yet in its
    death sequence sets the flag, schedules for each of the gains that
    exist ([humGain], [harmonic2Gain], [harmonic3Gain] over 2 seconds,
    [beamGain] over 1.5 seconds) a ramp to 0.001, sets one cleanup
    timeout of 2500 ms, and creates or removes no node. Every further
    [death] notification, and a direct call of [beginDeath], leaves the
    engine exactly as it is. *)
Theorem death_fade_once (e : engine) (p : jsnum) (ps : list jsnum) :
  ready e = true ->
  volumeLevel (core e) <> 0 ->
  isDeathSequence (core e) = false ->
  let e1 := syncToDecayStage "death" p e in
  isDeathSequence (core e1) = true
  /\ timeouts e1 = timeouts e ++ [(2500, DeathCleanup)]
  /\ (forall n, present n (core e1) = present n (core e))
  /\ (forall name s,
        (name, s) ∈ [("humGain", 2%Q); ("harmonic2Gain", 2%Q);
                      ("harmonic3Gain", 2%Q); ("beamGain", 1.5%Q)] ->
        present name (core e) = true ->
        ExponentialRamp name GainParam (Fin 0.001) s ∈ schedule e1)
  /\ sync_stage "death" ps e1 = e1
  /\ beginDeath e1 = e1.
Proof.
  intros R V D e1.
  assert (He1 : e1 = beginDeath (set_currentStage "death" e)).
  { subst e1. unfold syncToDecayStage.
    change (core (set_currentStage "death" e)) with (core e).
    by rewrite D. }
  destruct (beginDeath_open (set_currentStage "death" e) R V D)
    as [Hb Hf].
  rewrite Hb in He1. clear Hb.
  set (e0 := with_core (set_isDeathSequence true)
               (set_currentStage "death" e)) in *.
  set (f1 := fade_gain "humGain" 2 e0) in *.
  set (f2 := fade_gain "harmonic2Gain" 2 f1) in *.
  set (f3 := fade_gain "harmonic3Gain" 2 f2) in *.
  set (f4 := fade_gain "beamGain" 1.5 f3) in *.
  destruct Hf as (F1 & F2 & F3 & F4 & F5 & F6 & F7 & F8 & F9 & new & F10).
  assert (HD : isDeathSequence (core e1) = true).
  { rewrite He1. cbn. by rewrite F6. }
  assert (HS : currentStage e1 = "death").
  { rewrite He1. cbn. by rewrite F2. }
  split; [done|]. split; [by rewrite He1; cbn; rewrite F3|].
  split; [intros n; by rewrite He1; cbn; rewrite F9|].
  split; [|split].
  - intros name s Hin Hp. rewrite He1. cbn [schedule setTimeout].
    pose proof (fade_gain_frame "humGain" 2 e0) as G1.
    pose proof (fade_gain_frame "harmonic2Gain" 2 f1) as G2.
    pose proof (fade_gain_frame "harmonic3Gain" 2 f2) as G3.
    pose proof (fade_gain_frame "beamGain" 1.5 f3) as G4.
    fold f1 in G1. fold f2 in G2. fold f3 in G3. fold f4 in G4.
    destruct G1 as (_ & _ & _ & _ & _ & _ & _ & _ & P1 & n1 & S1).
    destruct G2 as (_ & _ & _ & _ & _ & _ & _ & _ & P2 & n2 & S2).
    destruct G3 as (_ & _ & _ & _ & _ & _ & _ & _ & P3 & n3 & S3).
    destruct G4 as (_ & _ & _ & _ & _ & _ & _ & _ & P4 & n4 & S4).
    assert (Hp0 : present name (core e0) = true) by exact Hp.
    rewrite !elem_of_cons, elem_of_nil in Hin.
    destruct Hin as [Hin|[Hin|[Hin|[Hin|[]]]]];
      injection Hin as -> ->.
    + destruct (fade_gain_schedule "humGain" 2 e0 Hp0) as [v Hv].
      fold f1 in Hv. rewrite S4, S3, S2, Hv.
      rewrite !elem_of_app, !elem_of_cons. tauto.
    + assert (Hp1 : present "harmonic2Gain" (core f1) = true)
        by (by rewrite P1).
      destruct (fade_gain_schedule "harmonic2Gain" 2 f1 Hp1) as [v Hv].
      fold f2 in Hv. rewrite S4, S3, Hv.
      rewrite !elem_of_app, !elem_of_cons. tauto.
    + assert (Hp1 : present "harmonic3Gain" (core f2) = true)
        by (by rewrite P2, P1).
      destruct (fade_gain_schedule "harmonic3Gain" 2 f2 Hp1) as [v Hv].
      fold f3 in Hv. rewrite S4, Hv.
      rewrite !elem_of_app, !elem_of_cons. tauto.
    + assert (Hp1 : present "beamGain" (core f3) = true)
        by (by rewrite P3, P2, P1).
      destruct (fade_gain_schedule "beamGain" 1.5 f3 Hp1) as [v Hv].
      fold f4 in Hv. rewrite Hv.
      rewrite !elem_of_app, !elem_of_cons. tauto.
  - by apply sync_stage_dying.
  - apply beginDeath_blocked. rewrite HD. by rewrite orb_true_r.
Qed.


Lemma death_fade_once_witness :
  let e := with_core (setVolumeLevel 2) new_engine in
  ready e = true
  /\ volumeLevel (core e) <> 0
  /\ isDeathSequence (core e) = false
  /\ timeouts (syncToDecayStage "death" (Fin 0) e) = [(2500, DeathCleanup)].
Proof.
  intros e.
  assert (R : ready e = true) by reflexivity.
  assert (V : volumeLevel (core e) <> 0) by (vm_compute; discriminate).
  assert (D : isDeathSequence (core e) = false) by reflexivity.
  split; [exact R|]. split; [exact V|]. split; [exact D|].
  exact (proj1 (proj2 (death_fade_once e (Fin 0) [] R V D))).
Defined.

(** ** After death *)

Lemma dying_step (c : call) (e : engine) :
  dying e ->
  dying (apply_call c e)
  /\ forall n, present n (core (apply_call c e)) = true ->
               present n (core e) = true.
Proof.
  intros (D & P & T). destruct c as [l|stage p| |i]; cbn [apply_call].
  - destruct (flags_setVolumeLevel l (core e)) as [FP FD].
    split; [unfold dying; cbn; by rewrite FP, FD|].
    intros n. cbn [core with_core]. rewrite present_setVolumeLevel, D, P.
    cbn [negb andb]. destruct (l =? 0); [|done].
    intros H. by apply andb_prop in H as [_ H].
  - rewrite (syncToDecayStage_dying stage p e D). by split.
  - rewrite beginDeath_blocked by (rewrite D; by rewrite orb_true_r).
    by split.
  - unfold fire. destruct (timeouts e !! i) as [[d t]|] eqn:E; [|by split].
    assert (Ht : t = DeathCleanup).
    { rewrite Forall_lookup in T. apply (T i (d, t) E). }
    subst t. cbn [run_task]. split.
    + unfold dying. cbn. split; [done|]. split; [done|].
      by apply Forall_delete.
    + intros n. cbn [core with_core].
      rewrite present_cleanupBeam, present_cleanupCRTHum.
      intros H. apply andb_prop in H as [_ H].
      by apply andb_prop in H as [_ H].
Qed.

Lemma dying_run (cs : list call) (e : engine) :
  dying e ->
  dying (run_calls cs e)
  /\ forall n, present n (core (run_calls cs e)) = true ->
               present n (core e) = true.
Proof.
  revert e. induction cs as [|c cs IH]; intros e He; [by split|].
  unfold run_calls. cbn [fold_left].
  destruct (dying_step c e He) as [H1 H2].
  destruct (IH _ H1) as [H3 H4]. split; [done|].
  intros n Hn. by apply H2, H4.
Qed.

Lemma run_calls_app (cs1 cs2 : list call) (e : engine) :
  run_calls (cs1 ++ cs2) e = run_calls cs2 (run_calls cs1 e).
Proof. unfold run_calls. by rewrite fold_left_app. Qed.

(** X19. Nothing sounds again after death. Once the death fade has begun
    (outside pirate mode), no volume change, stage notification, call of
    [beginDeath] or timeout creates a node: every node that exists
    afterwards existed before. And once a pending cleanup has run, the
    six nodes of the CRT hum and the two of the beam tone are gone and
    stay gone, whatever the volume button does. *)
Theorem dying_creates_nothing (e : engine) (cs1 cs2 : list call) (i : nat) :
  dying e ->
  (i < length (timeouts (run_calls cs1 e)))%nat ->
  let e1 := run_calls cs1 e in
  let e2 := run_calls (cs1 ++ Fire i :: cs2) e in
  (forall n, present n (core e1) = true -> present n (core e) = true)
  /\ (forall n, present n (core e2) = true -> present n (core e1) = true)
  /\ none_present (crt_names ++ beam_names) (core e2) = true
  /\ isDeathSequence (core e2) = true.
Proof.
  intros He Hi e1 e2.
  destruct (dying_run cs1 e He) as [H1 H2]. fold e1 in H1, H2, Hi.
  assert (E2 : e2 = run_calls cs2 (fire i e1)).
  { subst e2. by rewrite run_calls_app. }
  destruct (dying_step (Fire i) e1 H1) as [H3 H4]. cbn [apply_call] in H3, H4.
  destruct (dying_run cs2 (fire i e1) H3) as [H5 H6]. rewrite <- E2 in H5, H6.
  split; [done|]. split; [intros n Hn; by apply H4, H6|].
  split; [|apply H5].
  apply none_present_spec. intros n Hn.
  destruct (present n (core e2)) eqn:Ep; [|done].
  apply H6 in Ep. exfalso. revert Ep.
  destruct (lookup_lt_is_Some_2 (timeouts e1) i Hi) as [[d t] Et].
  assert (Ht : t = DeathCleanup).
  { destruct H1 as (_ & _ & T). rewrite Forall_lookup in T.
    apply (T i (d, t) Et). }
  subst t. unfold fire. rewrite Et. cbn [run_task core with_core].
  rewrite present_cleanupBeam, present_cleanupCRTHum.
  assert (Hn' : named crt_names n || named beam_names n = true).
  { revert Hn. unfold named. by rewrite existsb_app. }
  destruct (named crt_names n), (named beam_names n); try discriminate Hn';
    cbn [negb andb]; by rewrite ?andb_false_r.
Qed.

Lemma dying_creates_nothing_witness :
  let e := syncToDecayStage "death" (Fin 0)
             (with_core (setVolumeLevel 2) new_engine) in
  dying e
  /\ none_present (crt_names ++ beam_names)
       (core (run_calls ([SetVolume 3] ++ Fire 0 :: [SetVolume 1]) e)) = true.
Proof.
  intros e.
  assert (He : dying e).
  { split; [reflexivity|]. split; [reflexivity|].
    constructor; [reflexivity|constructor]. }
  split; [exact He|].
  refine (proj1 (proj2 (proj2
    (dying_creates_nothing e [SetVolume 3] [SetVolume 1] 0 He _)))).
  vm_compute. lia.
Defined.






(** ** Stage notifications *)








(** ** The pirate transition *)









End AudioMore.

(** * Properties of the beam interaction loop *)

Module LoopFacts.
Import BeamScan AudioLoop.










(** ** The volume button under the beam *)

Lemma toggle_calls_call (c : sound) (st : loop) :
  toggle_calls (call c st)
  = (toggle_calls st + if is_toggle c then 1 else 0)%nat.
Proof.
  unfold toggle_calls. cbn [calls call].
  rewrite filter_app, length_app. f_equal.
  by destruct c.
Qed.

Lemma text_step_toggle (mk : string -> Z -> sound) (id : string)
    (beamY : Q) (el : text_el) (st : loop) :
  (forall x t, is_toggle (mk x t) = false) ->
  toggle_calls (text_step mk id beamY el st) = toggle_calls st
  /\ lastUIContact (text_step mk id beamY el st) = lastUIContact st
  /\ toggle_class (text_step mk id beamY el st) = toggle_class st.
Proof.
  intros Hmk. unfold text_step.
  destruct (touches beamY (el_rect el)); [|done].
  destruct (1000 <? _); [|done].
  split; [|done].
  change (toggle_calls (set_contact id (el_now el)
                          (call (mk id (el_now el)) st)))
    with (toggle_calls (call (mk id (el_now el)) st)).
  rewrite toggle_calls_call, Hmk. lia.
Qed.

Lemma fold_text_step_toggle (f : text_el -> loop -> loop)
    (els : list text_el) (st : loop) :
  (forall el st,
      toggle_calls (f el st) = toggle_calls st
      /\ lastUIContact (f el st) = lastUIContact st
      /\ toggle_class (f el st) = toggle_class st) ->
  let st' := fold_left (fun st el => f el st) els st in
  toggle_calls st' = toggle_calls st
  /\ lastUIContact st' = lastUIContact st
  /\ toggle_class st' = toggle_class st.
Proof.
  intros Hf. revert st. induction els as [|el els IH]; intros st; [done|].
  cbn [fold_left]. destruct (IH (f el st)) as (A & B & C).
  destruct (Hf el st) as (A' & B' & C').
  cbv zeta. by rewrite A, B, C, A', B', C'.
Qed.

Lemma toggle_step_spec (beamY : Q) (r : rect) (st : loop) :
  lastUIContact st = None \/ lastUIContact st = Some "audio-toggle" ->
  let was := bool_decide (lastUIContact st = Some "audio-toggle") in
  toggle_calls (toggle_step beamY r st)
  = (toggle_calls st + if touches beamY r && negb was then 1 else 0)%nat
  /\ lastUIContact (toggle_step beamY r st)
     = (if touches beamY r then Some "audio-toggle" else None)
  /\ toggle_class (toggle_step beamY r st) = touches beamY r.
Proof.
  intros Hl was. subst was. unfold toggle_step. cbn [lastUIContact].
  destruct (touches beamY r); destruct Hl as [Hl|Hl]; rewrite Hl.
  - rewrite bool_decide_eq_false_2 by done. cbn [andb negb].
    split; [|done]. unfold toggle_calls. cbn [calls call].
    rewrite filter_app, length_app. reflexivity.
  - rewrite bool_decide_eq_true_2 by done. cbn [andb negb].
    split; [|done]. unfold toggle_calls. cbn [calls]. lia.
  - rewrite bool_decide_eq_false_2 by done. cbn [andb negb].
    split; [|done]. unfold toggle_calls. cbn [calls]. lia.
  - rewrite bool_decide_eq_true_2 by done. cbn [andb negb].
    split; [|done]. unfold toggle_calls. cbn [calls]. lia.
Qed.

(** One run of the loop, seen from the volume button. *)
Lemma tick_toggle (s : snapshot) (st : loop) :
  is_Some (beamBody s) -> is_Some (audioToggle s) ->
  lastUIContact st = None \/ lastUIContact st = Some "audio-toggle" ->
  let was := bool_decide (lastUIContact st = Some "audio-toggle") in
  toggle_calls (tick s st)
  = (toggle_calls st + if on_toggle s && negb was then 1 else 0)%nat
  /\ lastUIContact (tick s st)
     = (if on_toggle s then Some "audio-toggle" else None)
  /\ toggle_class (tick s st) = on_toggle s.
Proof.
  intros [beamRect Hb] [toggleRect Ht] Hl was. subst was.
  unfold tick, on_toggle. rewrite Hb, Ht.
  set (beamY := (top beamRect + height beamRect / 2)%Q).
  set (st0 := call (Sweep beamY) st).
  set (st1 := toggle_step beamY toggleRect st0).
  pose proof (fold_text_step_toggle (impact_step beamY) (impactElements s)
                st1 (fun el st' => text_step_toggle Impact _ beamY el st'
                                     (fun _ _ => eq_refl))) as H1.
  cbv zeta in H1.
  set (st2 := fold_left (fun st el => impact_step beamY el st)
                (impactElements s) st1) in *.
  pose proof (fold_text_step_toggle (fizz_step beamY) (fizzElements s)
                st2 (fun el st' => text_step_toggle Fizz _ beamY el st'
                                     (fun _ _ => eq_refl))) as H2.
  cbv zeta in H2.
  destruct H1 as (A1 & B1 & C1). destruct H2 as (A2 & B2 & C2).
  rewrite A2, B2, C2, A1, B1, C1.
  assert (Hl0 : lastUIContact st0 = None
                \/ lastUIContact st0 = Some "audio-toggle") by exact Hl.
  destruct (toggle_step_spec beamY toggleRect st0 Hl0) as (A & B & C).
  fold st1 in A, B, C. rewrite A, B, C.
  change (lastUIContact st0) with (lastUIContact st).
  subst st0. rewrite toggle_calls_call. cbn [is_toggle].
  split; [lia|done].
Qed.

(** X25. The volume button sounds when the beam arrives, not while it
    stays. Along a run of the loop in which the beam and the button are
    on the page, starting when the interval is set, the number of contact
    sounds made for the button is the number of times the beam goes from
    not touching the button to touching it; after the run the button has
    its contact class exactly when the beam touches it in the last
    snapshot. *)
Theorem toggle_sounds_on_arrival (ss : list snapshot) (s : snapshot) :
  Forall (fun s => is_Some (beamBody s) /\ is_Some (audioToggle s))
    (ss ++ [s]) ->
  let st := run_loop (ss ++ [s]) new_loop in
  toggle_calls st = rising_edges false (map on_toggle (ss ++ [s]))
  /\ toggle_class st = on_toggle s
  /\ lastUIContact st = (if on_toggle s then Some "audio-toggle" else None).
Proof.
  intros Hall st. subst st.
  assert (G : forall l st0 (prev : bool),
    Forall (fun s => is_Some (beamBody s) /\ is_Some (audioToggle s)) l ->
    lastUIContact st0 = (if prev then Some "audio-toggle" else None) ->
    toggle_calls (run_loop l st0)
    = (toggle_calls st0 + rising_edges prev (map on_toggle l))%nat
    /\ lastUIContact (run_loop l st0)
       = (if last (map on_toggle l) is Some b
          then (if b then Some "audio-toggle" else None)
          else lastUIContact st0)
    /\ (forall b, last (map on_toggle l) = Some b ->
          toggle_class (run_loop l st0) = b)).
  { induction l as [|x l IH]; intros st0 prev Hf Hp.
    - cbn. split; [lia|done].
    - apply Forall_cons in Hf as [[Hb Ht] Hf].
      unfold run_loop. cbn [fold_left map rising_edges].
      assert (Hl : lastUIContact st0 = None
                   \/ lastUIContact st0 = Some "audio-toggle")
        by (rewrite Hp; destruct prev; auto).
      destruct (tick_toggle x st0 Hb Ht Hl) as (A & B & C).
      assert (Hw : bool_decide (lastUIContact st0 = Some "audio-toggle")
                   = prev).
      { rewrite Hp. by destruct prev. }
      rewrite Hw in A.
      destruct (IH (tick x st0) (on_toggle x) Hf B) as (A' & B' & C').
      unfold run_loop in A', B', C'. rewrite A', A. split; [lia|].
      rewrite last_cons. split.
      + rewrite B'. destruct (last (map on_toggle l)); [done|].
        by rewrite B.
      + intros b Hb'. destruct (last (map on_toggle l)) eqn:El.
        * apply C'. congruence.
        * injection Hb' as <-. apply last_None, map_eq_nil in El.
          subst l. exact C. }
  destruct (G (ss ++ [s]) new_loop false Hall eq_refl) as (A & B & C).
  rewrite A. split; [done|].
  rewrite map_app in B, C. cbn [map] in B, C. rewrite last_snoc in B, C.
  split; [by apply C|exact B].
Qed.

Lemma toggle_sounds_on_arrival_witness :
  let snap := fun y => {| beamBody := Some {| top := y; height := 4 |};
                          audioToggle := Some {| top := 20; height := 20 |};
                          impactElements := []; fizzElements := [] |} in
  let ss := [snap 0%Q; snap 20%Q; snap 30%Q; snap 60%Q] in
  toggle_calls (run_loop (ss ++ [snap 25%Q]) new_loop) = 2%nat.
Proof.
  intros snap ss.
  refine (eq_trans (proj1 (toggle_sounds_on_arrival ss (snap 25%Q) _)) _).
  - repeat (constructor; [split; by eexists|]). constructor.
  - vm_compute. reflexivity.
Defined.

End LoopFacts.
